(** * Page-processor detection core: a shallow embedding and its properties

    The Python sources under [python/page-processor] are embedded module by
    module ([split.py], [detection.py], [stages/deskew.py],
    [stages/dewarp.py], [stages/rotation.py], then [stages/geometry.py],
    [crop.py], [deskew_wrapper.py], the deskew, crop and normalisation
    steps of [processor.py], the [pad] command and the Otsu threshold of
    [main.py], and [stages/split.py]).

    Modelling conventions.
    - Python [float] / numpy [float64] values are exact rationals ([Q]);
      results are compared with [==].  [-np.inf] is the constructor
      [NegInf] of [ext].
    - An image is a list of rows; [uint8] pixels are integers in [0, 255].
    - OpenCV and the irrational numpy routines (square roots, arctangent)
      are not part of the repository: they are the fields of the record
      [Lib], over which every detector is parametrised.
    - A Python exception whose cause is visible in the source (empty
      reduction, division by zero) is the [Raise] constructor of [result].
    - [cv2.error] is not modelled.  A detector that builds a dilation or
      opening kernel of width [w // 20] or [w // 30] raises on narrower
      images; its definition is its result on the others.  A statement
      about such a detector speaks of the runs that return, and where it
      promises a result it carries that bound. *)

From Stdlib Require Import ZArith QArith Qround Qabs Qminmax List Bool Lia Lqa.
Import ListNotations.

Set Implicit Arguments.

(** ** Python and numpy primitives *)

Module Py.

Inductive exn := ValueError | ZeroDivisionError.

Inductive result (A : Type) :=
| Ok (a : A)
| Raise (e : exn).
Arguments Ok {A} a.
Arguments Raise {A} e.

Definition bind {A B} (m : result A) (k : A -> result B) : result B :=
  match m with Ok a => k a | Raise e => Raise e end.

(** [try: body  except Exception: handler] *)
Definition try_except {A} (body : result A) (handler : A) : A :=
  match body with Ok a => a | Raise _ => handler end.

Definition Qlt_bool (a b : Q) : bool := negb (Qle_bool b a).
Definition Qeq_zero (a : Q) : bool := Qeq_bool a 0.

(** [int(x)] on a float: truncation toward zero. *)
Definition int (q : Q) : Z := if Qle_bool 0 q then Qfloor q else Qceiling q.

(** [round(x)] on a float: nearest integer, ties to even. *)
Definition round (q : Q) : Z :=
  let f := Qfloor q in
  match Qcompare (q - inject_Z f) (1 # 2) with
  | Lt => f
  | Gt => (f + 1)%Z
  | Eq => if Z.even f then f else (f + 1)%Z
  end.

(** [round(x, 3)] *)
Definition round3 (q : Q) : Q := inject_Z (round (q * 1000)) / 1000.

(** [np.sign] *)
Definition sign (q : Q) : Q :=
  if Qlt_bool 0 q then 1 else if Qlt_bool q 0 then - (1) else 0.

(** Normalisation of a slice bound against a sequence of length [n]. *)
Definition norm_idx (n : nat) (k : Z) : nat :=
  Z.to_nat (if (k <? 0)%Z then Z.max 0 (k + Z.of_nat n) else Z.min k (Z.of_nat n)).

(** [l[lo:hi]], where [None] is an omitted bound. *)
Definition slice {A} (lo hi : option Z) (l : list A) : list A :=
  let n := length l in
  let a := match lo with None => 0%nat | Some i => norm_idx n i end in
  let b := match hi with None => n | Some j => norm_idx n j end in
  skipn a (firstn b l).

(** [l[::k]] *)
Fixpoint every_from {A} (k c : nat) (l : list A) : list A :=
  match l with
  | [] => []
  | x :: t =>
      match c with
      | O => x :: every_from k (Nat.pred k) t
      | S c' => every_from k c' t
      end
  end.
Definition every {A} (k : nat) (l : list A) : list A := every_from k 0 l.

(** Two-dimensional arrays, row major. *)
Definition array2 (P : Type) := list (list P).

Definition height {P} (a : array2 P) : Z := Z.of_nat (length a).
Definition ncols {P} (a : array2 P) : nat := length (hd [] a).
Definition width {P} (a : array2 P) : Z := Z.of_nat (ncols a).

(** Every row has the width of the first one. *)
Definition rect {P} (a : array2 P) : Prop :=
  Forall (fun r => length r = ncols a) a.

(** [a[:, lo:hi]] and [a[lo:hi:k, :]] *)
Definition cols {P} (lo hi : option Z) (a : array2 P) : array2 P :=
  map (slice lo hi) a.
Definition rows_step {P} (lo hi : option Z) (k : nat) (a : array2 P) : array2 P :=
  every k (slice lo hi a).

Definition column {P} (d : P) (a : array2 P) (j : nat) : list P :=
  map (fun r => nth j r d) a.
Definition columns {P} (d : P) (a : array2 P) : list (list P) :=
  map (column d a) (seq 0 (ncols a)).

Definition amap {P R} (f : P -> R) (a : array2 P) : array2 R := map (map f) a.

(** Map with the index of each element. *)
Definition mapi {A B} (f : nat -> A -> B) (l : list A) : list B :=
  map (fun p => f (fst p) (snd p)) (combine (seq 0 (length l)) l).

(** Reductions. *)
Definition Qsum (l : list Q) : Q := fold_right Qplus 0 l.
Definition Zsum (l : list Z) : Z := fold_right Z.add 0%Z l.
Definition Qlen {A} (l : list A) : Q := inject_Z (Z.of_nat (length l)).
Definition mean (l : list Q) : Q := Qsum l / Qlen l.
Definition Qmaximum (x : Q) (l : list Q) : Q := fold_left Qmax l x.
Definition Qminimum (x : Q) (l : list Q) : Q := fold_left Qmin l x.

(** [np.max] and [np.min] raise [ValueError] on an empty array. *)
Definition np_max (l : list Q) : result Q :=
  match l with [] => Raise ValueError | x :: t => Ok (Qmaximum x t) end.
Definition np_min (l : list Q) : result Q :=
  match l with [] => Raise ValueError | x :: t => Ok (Qminimum x t) end.

Definition flatten {P} (a : array2 P) : list P := concat a.

(** [np.sum(a, axis=0)] and [np.mean(a, axis=0)] *)
Definition sum_axis0 (a : array2 Q) : list Q := map Qsum (columns 0 a).
Definition mean_axis0 (a : array2 Q) : list Q := map mean (columns 0 a).

(** [np.median] *)
Fixpoint insert_sorted (x : Q) (l : list Q) : list Q :=
  match l with
  | [] => [x]
  | y :: t => if Qle_bool x y then x :: l else y :: insert_sorted x t
  end.
Definition sort (l : list Q) : list Q := fold_right insert_sorted [] l.
Definition median (l : list Q) : Q :=
  let s := sort l in
  let n := length s in
  if Nat.even n
  then (nth (Nat.pred (n / 2)) s 0 + nth (n / 2) s 0) / 2
  else nth (n / 2) s 0.

(** Extended values: a float curve in which [-np.inf] was written. *)
Inductive ext := NegInf | Fin (q : Q).

Definition isfinite (e : ext) : bool :=
  match e with NegInf => false | Fin _ => true end.

Definition ext_lt (a b : ext) : bool :=
  match a, b with
  | NegInf, Fin _ => true
  | Fin x, Fin y => Qlt_bool x y
  | _, _ => false
  end.

(** [np.argmax]: the first index holding the maximum. *)
Fixpoint argmax_from (l : list ext) (i best : nat) (bv : ext) : nat :=
  match l with
  | [] => best
  | x :: t =>
      if ext_lt bv x then argmax_from t (S i) i x
      else argmax_from t (S i) best bv
  end.
Definition argmax (l : list ext) : nat :=
  match l with [] => 0%nat | x :: t => argmax_from t 1 0 x end.

(** [score[:pad] = -np.inf; score[-pad:] = -np.inf] for [pad > 0]. *)
Definition mask_ends (pad : nat) (score : list Q) : list ext :=
  let n := length score in
  map (fun i => if orb (i <? pad)%nat (n - pad <=? i)%nat
                then NegInf else Fin (nth i score 0))
      (seq 0 n).

End Py.
Export Py.

(** ** The external image-processing collaborator *)

Definition pixel := Z.
Definition gray_image := array2 pixel.
Definition color_image := array2 (pixel * pixel * pixel).

(** A decoded raster: one channel or three (BGR). *)
Inductive image :=
| Gray (g : gray_image)
| Color (c : color_image).

Definition shape (im : image) : Z * Z :=
  match im with
  | Gray g => (height g, width g)
  | Color c => (height c, width c)
  end.

(** A line segment [(x1, y1, x2, y2)] and a contour (a list of [(x, y)]). *)
Definition segment := (Z * Z * Z * Z)%type.
Definition contour := list (Z * Z).

Record Lib := {
  (* cv2.cvtColor(image, cv2.COLOR_BGR2GRAY) *)
  cvtColor : color_image -> gray_image;
  (* cv2.resize(gray, (new_w, new_h), interpolation=cv2.INTER_AREA) *)
  resize : gray_image -> Z -> Z -> gray_image;
  (* cv2.Canny(gray, 50, 150): 255 on edge pixels, 0 elsewhere *)
  Canny : gray_image -> gray_image;
  (* cv2.GaussianBlur(row, (k, 1), 0) on a one-row image *)
  GaussianBlur : list Q -> Z -> list Q;
  (* the threshold chosen by cv2.THRESH_OTSU *)
  otsu : gray_image -> Z;
  (* cv2.dilate(img, getStructuringElement(MORPH_RECT, (kw, 1)), iterations=1) *)
  dilate : gray_image -> Z -> gray_image;
  (* cv2.HoughLinesP(img, 1, pi/180, 100, minLineLength, maxLineGap) *)
  HoughLinesP : gray_image -> Z -> Z -> option (list segment);
  (* cv2.findContours(img, RETR_EXTERNAL, CHAIN_APPROX_SIMPLE) *)
  findContours : gray_image -> list contour;
  (* cv2.boundingRect(contour) = (x, y, w, h) *)
  boundingRect : contour -> Z * Z * Z * Z;
  (* np.polyfit(x, y, 2)[0]; None when the fit is rejected *)
  polyfit2 : list Q -> list Q -> option Q;
  (* np.arctan2(dy, dx) * 180.0 / np.pi *)
  arctan2_deg : Q -> Q -> Q;
  (* np.hypot(dx, dy), np.sqrt(dx**2 + dy**2) *)
  hypot : Q -> Q -> Q;
  (* np.std *)
  std : list Q -> Q;
  (* np.var *)
  var : list Q -> Q;
  (* np.percentile(column, 90) *)
  percentile90 : list Q -> Q;
  (* cv2.warpAffine(binary, getRotationMatrix2D(center, angle, 1.0), (w, h)) *)
  rotate_binary : gray_image -> Q -> gray_image;
  (* cv2.morphologyEx(img, MORPH_OPEN, getStructuringElement(MORPH_RECT, (kw, kh))) *)
  morph_open : gray_image -> Z -> Z -> gray_image;
}.

(** [cv2.threshold(gray, 0, 255, THRESH_BINARY_INV + THRESH_OTSU)]:
    pixels above the Otsu threshold become 0, the others 255. *)
Definition threshold_binary_inv_otsu (L : Lib) (g : gray_image) : gray_image :=
  let t := otsu L g in
  amap (fun p => if (t <? p)%Z then 0%Z else 255%Z) g.

Definition to_float (g : gray_image) : array2 Q := amap inject_Z g.

(** ** split.py *)

Module split.
Section WithLib.
Variable L : Lib.

Definition _to_gray (im : image) : gray_image :=
  match im with
  | Color c => cvtColor L c
  | Gray g => g
  end.

Definition _resize_for_analysis (gray : gray_image) (max_dim : Z)
  : gray_image * Q :=
  let h := height gray in
  let w := width gray in
  if (Z.max h w <=? max_dim)%Z then (gray, 1)
  else
    let scale := inject_Z max_dim / inject_Z (Z.max h w) in
    let new_w := Z.max 1 (round (inject_Z w * scale)) in
    let new_h := Z.max 1 (round (inject_Z h * scale)) in
    (resize L gray new_w new_h, scale).

Definition _smooth_1d (values : list Q) (kernel_size : Z) : list Q :=
  match values with
  | [] => values
  | _ =>
      let k := Z.max 3 kernel_size in
      let k := if Z.even k then (k + 1)%Z else k in
      GaussianBlur L values k
  end.

Definition _confidence_from_valley (curve : list Q) (idx : nat) : Q :=
  match curve with
  | [] => 0
  | _ =>
      let mean_val := mean curve in
      if Qle_bool mean_val 0 then 0
      else
        let min_val := nth idx curve 0 in
        let depth := (mean_val - min_val) / mean_val in
        Qmin 1 (Qmax 0 (depth * 2))
  end.

(** [while left > 0 and mask[left - 1]: left -= 1] *)
Fixpoint grow_left (mask : list bool) (left : nat) : nat :=
  match left with
  | O => O
  | S l' => if nth l' mask false then grow_left mask l' else left
  end.

(** [while right < n - 1 and mask[right + 1]: right += 1], with
    [fuel = n - 1 - right] iterations left. *)
Fixpoint grow_right (mask : list bool) (fuel right : nat) : nat :=
  match fuel with
  | O => right
  | S f => if nth (S right) mask false then grow_right mask f (S right) else right
  end.

(** Every value of a rational curve is finite, so the [np.isfinite]
    guards of the source never fire and [finite] is the whole curve. *)
Definition _band_edges (curve : list Q) (idx : Z) : Z * Z :=
  match curve with
  | [] => (0%Z, 0%Z)
  | _ =>
      let n := Z.of_nat (length curve) in
      let idx := Z.max 0 (Z.min (n - 1) idx) in
      let i := Z.to_nat idx in
      let mean_v := mean curve in
      let min_v := nth i curve 0 in
      if Qle_bool mean_v 0 || Qle_bool mean_v min_v then (idx, idx)
      else
        let thresh := min_v + (mean_v - min_v) * (35 # 100) in
        let mask := map (fun x => Qle_bool x thresh) curve in
        if negb (nth i mask false) then (idx, idx)
        else (Z.of_nat (grow_left mask i),
              Z.of_nat (grow_right mask (length curve - 1 - i) i))
  end.

(** The local function [norm_low] of [find_gutter_position]. *)
Definition norm_low (region_w : nat) (curve : list Q) : list Q :=
  match curve with
  | [] => repeat 0 region_w
  | x :: t =>
      let mn := Qminimum x t in
      let mx := Qmaximum x t in
      if Qlt_bool (mx - mn) (1 # 1000000000) then map (fun _ => 0) curve
      else map (fun c => (mx - c) / (mx - mn)) curve
  end.

Definition asize {P} (a : array2 P) : nat := length (flatten a).

(** The [try] block computing [shadow_s]; none of its steps has a modelled
    failure, so the handler is never reached. *)
Definition shadow_curve_of (region : gray_image) (hs : Z) (region_w : Z)
  : list Q :=
  let band_h := Z.max 1 (round (inject_Z hs * (12 # 100))) in
  let top := rows_step None (Some band_h) 4 region in
  let bot := rows_step (Some (Z.max 0 (hs - band_h))) None 4 region in
  let sample :=
    if (0 <? asize top)%nat && (0 <? asize bot)%nat then top ++ bot
    else if (0 <? asize top)%nat then top
    else if (0 <? asize bot)%nat then bot
    else if (4 <? hs)%Z then rows_step None None 4 region else region in
  let shadow_curve := mean_axis0 (to_float sample) in
  _smooth_1d shadow_curve (Z.max 11 (region_w / 20)).

Definition find_gutter_position (im : image) : Z :=
  let '(h, w) := shape im in
  let gray := _to_gray im in
  let '(gray_small, scale) := _resize_for_analysis gray 1500 in
  let hs := height gray_small in
  let ws := width gray_small in
  let start := int (inject_Z ws * (10 # 100)) in
  let end_ := int (inject_Z ws * (90 # 100)) in
  if (end_ <=? start + 10)%Z then (w / 2)%Z
  else
    let region := cols (Some start) (Some end_) gray_small in
    let region_n := ncols region in
    let region_w := Z.of_nat region_n in
    let inverted := amap (fun p => ((255 - p) mod 256)%Z) region in
    let proj := sum_axis0 (to_float inverted) in
    let proj_s := _smooth_1d proj (Z.max 9 (region_w / 25)) in
    let edges := Canny L gray_small in
    let edge_region := cols (Some start) (Some end_) edges in
    let edge_proj :=
      sum_axis0 (amap (fun p => if (0 <? p)%Z then 1 else 0) edge_region) in
    let edge_s := _smooth_1d edge_proj (Z.max 9 (region_w / 25)) in
    let shadow_s := shadow_curve_of region hs region_w in
    let ink_score := norm_low region_n proj_s in
    let edge_score := norm_low region_n edge_s in
    let shadow_score :=
      match shadow_s with
      | [] => repeat 0 region_n
      | _ => norm_low region_n shadow_s
      end in
    let half := Some (region_w / 2)%Z in
    let left_ink :=
      match proj_s with [] => 0 | _ => Qsum (slice None half proj_s) end in
    let right_ink :=
      match proj_s with [] => 0 | _ => Qsum (slice half None proj_s) end in
    let denom := Qmax 1 (Qmin left_ink right_ink) in
    let asym_ratio := Qmax left_ink right_ink / denom in
    let '(w_ink, w_edge, w_shadow) :=
      if Qle_bool (25 # 10) asym_ratio
      then (20 # 100, 20 # 100, 60 # 100)
      else (45 # 100, 20 # 100, 35 # 100) in
    let center := (inject_Z region_w - 1) / 2 in
    let score :=
      map (fun i =>
             let s := nth i ink_score 0 * w_ink + nth i edge_score 0 * w_edge
                      + nth i shadow_score 0 * w_shadow in
             if Qlt_bool 1 center
             then
               let dist := Qabs (inject_Z (Z.of_nat i) - center) / center in
               s - (dist * dist) * (22 # 100)
             else s)
          (seq 0 region_n) in
    let edge_pad := Z.to_nat (Z.max 3 (region_w / 50)) in
    let score := mask_ends edge_pad score in
    let idx := argmax score in
    let idx :=
      if isfinite (nth idx score NegInf) then idx
      else Z.to_nat (region_w / 2) in
    let comp_ink := nth idx ink_score 0 * w_ink in
    let comp_edge := nth idx edge_score 0 * w_edge in
    let comp_shadow :=
      match shadow_score with [] => 0 | _ => nth idx shadow_score 0 * w_shadow end in
    let band_curve :=
      if (0 <? length shadow_s)%nat
         && Qle_bool (Qmax comp_ink comp_edge + (5 # 100)) comp_shadow
      then shadow_s
      else if Qle_bool comp_edge comp_ink && (0 <? length proj_s)%nat then proj_s
      else if (0 <? length edge_s)%nat then edge_s
      else proj_s in
    let '(left_edge_idx, right_edge_idx) :=
      _band_edges band_curve (Z.of_nat idx) in
    let band_center_idx := ((left_edge_idx + right_edge_idx) / 2)%Z in
    let split_small := (start + band_center_idx)%Z in
    let split_small := Z.min (Z.max split_small (start + 1)) (end_ - 1) in
    let inv := 1 / scale in
    let gutter_x := round (inject_Z split_small * inv) in
    let min_x := int (inject_Z w * (3 # 100)) in
    let max_x := int (inject_Z w * (97 # 100)) in
    Z.max min_x (Z.min max_x gutter_x).

(** [image[:, :left_end].copy()] and [image[:, right_start:].copy()] on
    either kind of raster. *)
Definition image_cols (lo hi : option Z) (im : image) : image :=
  match im with
  | Gray g => Gray (cols lo hi g)
  | Color c => Color (cols lo hi c)
  end.

Definition split_facing_pages (im : image) (gutter_x : option Z) (overlap : Z)
  : image * image :=
  let '(h, w) := shape im in
  let gutter_x :=
    match gutter_x with
    | None => find_gutter_position im
    | Some g => g
    end in
  let left_end := Z.min (gutter_x + overlap) w in
  let right_start := Z.max (gutter_x - overlap) 0 in
  let left_page := image_cols None (Some left_end) im in
  let right_page := image_cols (Some right_start) None im in
  (left_page, right_page).

End WithLib.
End split.

(** ** detection.py *)

Module detection.
Section WithLib.
Variable L : Lib.

(** The accepted near-horizontal segments of the Hough loop, as
    [(angle, length)] pairs in the order they are appended. *)
Fixpoint accepted_segments (max_angle : Q) (lines : list segment)
  : list (Q * Q) :=
  match lines with
  | [] => []
  | (x1, y1, x2, y2) :: rest =>
      let dx := inject_Z (x2 - x1) in
      let dy := inject_Z (y2 - y1) in
      if Qlt_bool (Qabs dx) 1 then accepted_segments max_angle rest
      else
        let angle := arctan2_deg L dy dx in
        if Qlt_bool max_angle (Qabs angle) then accepted_segments max_angle rest
        else
          let length := hypot L dx dy in
          (angle, length) :: accepted_segments max_angle rest
  end.

(** The part of [_detect_skew_hough] that follows the segment loop. *)
Definition hough_estimate (acc : list (Q * Q)) : Q * Q :=
  let angles := map fst acc in
  let lengths := map snd acc in
  match angles with
  | [] => (0, 0)
  | _ =>
      let total_len := Qsum lengths in
      let line_angle :=
        if Qle_bool total_len 0 then median angles
        else Qsum (map (fun al => fst al * snd al) acc) / total_len in
      let angle_std := if (1 <? length angles)%nat then std L angles else 0 in
      let consistency := Qmax 0 (1 - angle_std / 4) in
      let count_score := Qmin 1 (Qlen angles / 15) in
      let confidence :=
        Qmin 1 (Qmax 0 (consistency * (7 # 10) + count_score * (3 # 10))) in
      (- line_angle, confidence)
  end.

Definition _detect_skew_hough (gray : gray_image) (max_angle : Q) : Q * Q :=
  let h := height gray in
  let w := width gray in
  if (h <? 10)%Z || (w <? 10)%Z then (0, 0)
  else
    let edges := Canny L gray in
    let kernel_w := Z.max 10 (w / 30) in
    let dilated := dilate L edges kernel_w in
    let lines :=
      HoughLinesP L dilated (Z.max 30 (w / 8)) (Z.max 10 (w / 20)) in
    match lines with
    | None => (0, 0)
    | Some [] => (0, 0)
    | Some lines => hough_estimate (accepted_segments max_angle lines)
    end.

Definition _to_gray (im : image) : gray_image :=
  match im with
  | Color c => cvtColor L c
  | Gray g => g
  end.

Definition _resize_for_analysis (gray : gray_image) (max_dim : Z)
  : gray_image * Q :=
  let h := height gray in
  let w := width gray in
  if (Z.max h w <=? max_dim)%Z then (gray, 1)
  else
    let scale := inject_Z max_dim / inject_Z (Z.max h w) in
    let new_w := Z.max 1 (round (inject_Z w * scale)) in
    let new_h := Z.max 1 (round (inject_Z h * scale)) in
    (resize L gray new_w new_h, scale).

Definition _smooth_1d (values : list Q) (kernel_size : Z) : list Q :=
  match values with
  | [] => values
  | _ =>
      let k := Z.max 3 kernel_size in
      let k := if Z.even k then (k + 1)%Z else k in
      GaussianBlur L values k
  end.

(** [np.maximum.accumulate] *)
Fixpoint accumulate_from (m : Q) (l : list Q) : list Q :=
  match l with
  | [] => []
  | x :: t => let m' := Qmax m x in m' :: accumulate_from m' t
  end.
Definition maximum_accumulate (l : list Q) : list Q :=
  match l with
  | [] => []
  | x :: t => x :: accumulate_from x t
  end.

Definition _best_saddle_valley (curve : list Q) : Z * Q :=
  let size := Z.of_nat (length curve) in
  if (size <? 3)%Z then ((size / 2)%Z, 0)
  else
    let pad := Z.max 5 (size / 20) in
    let pad := if (size <=? pad * 2 + 1)%Z then 1%Z else pad in
    let left_max := maximum_accumulate curve in
    let right_max := rev (maximum_accumulate (rev curve)) in
    let left_peak := 0 :: removelast left_max in
    let right_peak := tl right_max ++ [0] in
    let min_peak := map (fun p => Qmin (fst p) (snd p)) (combine left_peak right_peak) in
    let score := map (fun p => fst p - snd p) (combine min_peak curve) in
    let score := mask_ends (Z.to_nat pad) score in
    let idx := argmax score in
    let best_peak := nth idx min_peak 0 in
    match nth idx score NegInf with
    | NegInf => ((size / 2)%Z, 0)
    | Fin best_score =>
        if Qle_bool best_score 0 || Qle_bool best_peak 0 then ((size / 2)%Z, 0)
        else
          let conf := best_score / (best_peak + (1 # 1000000000)) in
          (Z.of_nat idx, Qmin 1 (Qmax 0 conf))
    end.

Definition asize {P} (a : array2 P) : nat := length (flatten a).

(** [np.mean(a)] over every element, and [np.mean(a > 0)]. *)
Definition mean_all (a : gray_image) : Q := mean (map inject_Z (flatten a)).
Definition density (a : gray_image) : Q :=
  mean (map (fun p => if (0 <? p)%Z then 1 else 0) (flatten a)).

Definition invert (a : gray_image) : gray_image :=
  amap (fun p => ((255 - p) mod 256)%Z) a.

(** The first heuristic block of [detect_facing_pages]: the three
    confidences over the window [start:end]. *)
Definition window_confidences (gray_small edges : gray_image) (h_s start end_ : Z)
  : Q * Q * Q :=
  let region := cols (Some start) (Some end_) gray_small in
  let region_w := width region in
  let proj := sum_axis0 (to_float (invert region)) in
  let proj_s := _smooth_1d proj (Z.max 9 (region_w / 20)) in
  let valley_conf := snd (_best_saddle_valley proj_s) in
  let edge_region := cols (Some start) (Some end_) edges in
  let edge_proj :=
    sum_axis0 (amap (fun p => if (0 <? p)%Z then 1 else 0) edge_region) in
  let edge_s := _smooth_1d edge_proj (Z.max 9 (region_w / 20)) in
  let edge_conf := snd (_best_saddle_valley edge_s) in
  let shadow_conf :=
    let sample :=
      to_float (if (4 <? h_s)%Z then rows_step None None 4 region else region) in
    let bg_curve := map (percentile90 L) (columns 0 sample) in
    let bg_s := _smooth_1d bg_curve (Z.max 11 (region_w / 15)) in
    let mean_bg := match bg_s with [] => 0 | _ => mean bg_s end in
    let min_bg := match bg_s with [] => mean_bg | x :: t => Qminimum x t end in
    if Qlt_bool 0 mean_bg
    then Qmin 1 (Qmax 0 (((mean_bg - min_bg) / mean_bg) * 2))
    else 0 in
  (valley_conf, edge_conf, shadow_conf).

(** The final fallback of [detect_facing_pages] (the body of its last
    [try]); [true] stands for [return True], [false] for falling through. *)
Definition gutter_fallback (im : image) (gray_small edges : gray_image)
  (w h_s w_s : Z) : bool :=
  let gutter_x := split.find_gutter_position L im in
  let gx_s := round (inject_Z gutter_x * (inject_Z w_s / inject_Z w)) in
  let gx_s := Z.max 0 (Z.min (w_s - 1) gx_s) in
  let proj_full := sum_axis0 (to_float (invert gray_small)) in
  let proj_full := _smooth_1d proj_full (Z.max 9 (w_s / 20)) in
  let mean_ink := match proj_full with [] => 0 | _ => mean proj_full end in
  let at_ink :=
    match proj_full with [] => mean_ink | _ => nth (Z.to_nat gx_s) proj_full 0 end in
  let white_valley_depth :=
    if Qlt_bool 0 mean_ink then (mean_ink - at_ink) / mean_ink else 0 in
  let band_h := Z.max 1 (round (inject_Z h_s * (12 # 100))) in
  let top := rows_step None (Some band_h) 4 gray_small in
  let bot := rows_step (Some (Z.max 0 (h_s - band_h))) None 4 gray_small in
  let sample :=
    if (0 <? asize top)%nat && (0 <? asize bot)%nat then top ++ bot
    else if (0 <? asize top)%nat then top
    else if (0 <? asize bot)%nat then bot
    else if (4 <? h_s)%Z then rows_step None None 4 gray_small else gray_small in
  let shadow_curve := mean_axis0 (to_float sample) in
  let shadow_curve := _smooth_1d shadow_curve (Z.max 11 (w_s / 20)) in
  let mean_sh := match shadow_curve with [] => 0 | _ => mean shadow_curve end in
  let at_sh :=
    match shadow_curve with
    | [] => mean_sh
    | _ => nth (Z.to_nat gx_s) shadow_curve 0
    end in
  let dark_dip := if Qlt_bool 0 mean_sh then (mean_sh - at_sh) / mean_sh else 0 in
  let win := Z.max 12 (w_s / 60) in
  let a := Z.max 0 (gx_s - win) in
  let b := Z.min w_s (gx_s + win) in
  let center_ed :=
    if (a <? b)%Z then density (cols (Some a) (Some b) edges) else 1 in
  let overall_ed := if (0 <? asize edges)%nat then density edges else 0 in
  if Qle_bool (12 # 100) white_valley_depth && Qlt_bool 0 overall_ed
     && Qlt_bool center_ed (overall_ed * (80 # 100))
  then true
  else if Qle_bool (20 # 100) white_valley_depth then true
  else
    let gx_norm := inject_Z gutter_x / inject_Z (Z.max 1 w) in
    Qle_bool (15 # 100) gx_norm && Qle_bool gx_norm (85 # 100)
    && Qle_bool (6 # 100) dark_dip.

Definition detect_facing_pages (im : image) : result bool :=
  let '(h, w) := shape im in
  if (h =? 0)%Z then Raise ZeroDivisionError
  else
    let aspect_ratio := inject_Z w / inject_Z h in
    if Qlt_bool aspect_ratio (105 # 100) then Ok false
    else
      let gray := _to_gray im in
      let gray_small := fst (_resize_for_analysis gray 1500) in
      let h_s := height gray_small in
      let w_s := width gray_small in
      let edges := Canny L gray_small in
      let start := int (inject_Z w_s * (5 # 100)) in
      let end_ := int (inject_Z w_s * (95 # 100)) in
      let ladder :=
        if (start + 10 <? end_)%Z
        then
          let '(valley_conf, edge_conf, shadow_conf) :=
            window_confidences gray_small edges h_s start end_ in
          Qle_bool (55 # 100) valley_conf
          || Qle_bool (45 # 100) shadow_conf
          || (Qle_bool (35 # 100) valley_conf && Qle_bool (25 # 100) edge_conf)
        else false in
      if ladder then Ok true
      else
        let center_width := (w_s / 5)%Z in
        let center_x := (w_s / 2)%Z in
        let lo := Some (center_x - center_width / 2)%Z in
        let hi := Some (center_x + center_width / 2)%Z in
        let center_strip := cols lo hi gray_small in
        let col_means := mean_axis0 (to_float center_strip) in
        bind (np_max col_means) (fun center_brightness =>
        let left_strip := cols None (Some center_width) gray_small in
        let right_strip := cols (Some (- center_width)%Z) None gray_small in
        let edge_brightness := (mean_all left_strip + mean_all right_strip) / 2 in
        let brightness_diff := center_brightness - edge_brightness in
        if Qlt_bool 20 brightness_diff then Ok true
        else
          let center_edges := cols lo hi edges in
          let left_edges := cols None (Some center_width) edges in
          let right_edges := cols (Some (- center_width)%Z) None edges in
          let center_density := density center_edges in
          let edge_density := (density left_edges + density right_edges) / 2 in
          if Qlt_bool 0 edge_density
             && Qlt_bool center_density (edge_density * (6 # 10))
          then Ok true
          else
            Ok (try_except (Ok (gutter_fallback im gray_small edges w h_s w_s))
                           false)).

(** Both [try] blocks of the source guard library calls only; no step in
    them has a modelled failure, so their handlers are not reached. *)
Definition detect_skew_angle (im : image) : Q :=
  let gray := _to_gray im in
  let gray_small := fst (_resize_for_analysis gray 1500) in
  if Qlt_bool (std L (map inject_Z (flatten gray_small))) 5 then 0
  else
    let '(angle, conf) := _detect_skew_hough gray_small 15 in
    if Qlt_bool conf (40 # 100) then 0
    else if Qlt_bool 5 (Qabs angle) && Qlt_bool conf (70 # 100) then 0
    else if Qlt_bool 10 (Qabs angle) then 0
    else angle.

(** [points[points[:, 0].argsort()]] *)
Fixpoint insert_by_x (p : Z * Z) (l : list (Z * Z)) : list (Z * Z) :=
  match l with
  | [] => [p]
  | q :: t => if (fst p <=? fst q)%Z then p :: l else q :: insert_by_x p t
  end.
Definition sort_by_x (l : list (Z * Z)) : list (Z * Z) :=
  fold_right insert_by_x [] l.

(** Contours kept as candidate text lines: wide and not too tall. *)
Definition text_lines (h w : Z) (contours : list contour) : list contour :=
  filter (fun c =>
            let '(_, _, cw, ch) := boundingRect L c in
            Qlt_bool (inject_Z w * (3 # 10)) (inject_Z cw)
            && Qlt_bool (inject_Z ch) (inject_Z h * (1 # 10)))
         contours.

(** The per-line curvature loop. *)
Fixpoint line_curvatures (w : Z) (lines : list contour) : list Q :=
  match lines with
  | [] => []
  | c :: rest =>
      if (length c <? 10)%nat then line_curvatures w rest
      else
        let points := sort_by_x c in
        let x_coords := map (fun p => inject_Z (fst p)) points in
        let y_coords := map (fun p => inject_Z (snd p)) points in
        match polyfit2 L x_coords y_coords with
        | Some c0 => (Qabs c0 * inject_Z w) :: line_curvatures w rest
        | None => line_curvatures w rest
        end
  end.

(** [cv2.getStructuringElement] rejects the kernel width [w // 20 = 0]
    with [cv2.error]: the code returns only when the analysis copy has at
    least 20 columns, and [detect_curvature] is its result there. *)
Definition detect_curvature (im : image) : Q :=
  let gray := _to_gray im in
  let gray := fst (_resize_for_analysis gray 1500) in
  let h := height gray in
  let w := width gray in
  let binary := threshold_binary_inv_otsu L gray in
  let dilated := dilate L binary (w / 20) in
  let contours := findContours L dilated in
  let text_lines := text_lines h w contours in
  if (length text_lines <? 3)%nat then 0
  else
    let curvatures := line_curvatures w text_lines in
    match curvatures with
    | [] => 0
    | _ => mean curvatures
    end.

Record bounds := { x : Z; y : Z; bwidth : Z; bheight : Z }.

(** [binary[:border, :] = 0; binary[-border:, :] = 0;
     binary[:, :border] = 0; binary[:, -border:] = 0] *)
Definition zero_border (border : nat) (binary : gray_image) : gray_image :=
  let H := length binary in
  let W := ncols binary in
  mapi (fun r row =>
          mapi (fun c p =>
                  if (r <? border)%nat || (H - border <=? r)%nat
                     || (c <? border)%nat || (W - border <=? c)%nat
                  then 0%Z else p) row)
       binary.

(** [np.flatnonzero] *)
Definition flatnonzero (l : list Z) : list Z :=
  map (fun p => Z.of_nat (fst p))
      (filter (fun p => negb (snd p =? 0)%Z) (combine (seq 0 (length l)) l)).

Definition reduce_max (l : list Z) : Z := fold_right Z.max 0%Z l.

Definition detect_content_bounds (im : image) : option bounds :=
  let gray := _to_gray im in
  let h := height gray in
  let w := width gray in
  let '(gray_small, scale) := _resize_for_analysis gray 1500 in
  let binary := threshold_binary_inv_otsu L gray_small in
  let bh_ := height binary in
  let bw_ := width binary in
  let border := round (inject_Z (Z.min bh_ bw_) * (1 # 100)) in
  let binary :=
    if (0 <? border)%Z then zero_border (Z.to_nat border) binary else binary in
  let row_max := map reduce_max binary in
  let col_max := map reduce_max (columns 0%Z binary) in
  let ys := flatnonzero row_max in
  let xs := flatnonzero col_max in
  match ys, xs with
  | [], _ => None
  | _, [] => None
  | y0 :: _, x0 :: _ =>
      let x1_s := x0 in
      let x2_s := last xs 0%Z in
      let y1_s := y0 in
      let y2_s := last ys 0%Z in
      let bw_s := (x2_s - x1_s + 1)%Z in
      let bh_s := (y2_s - y1_s + 1)%Z in
      if Qlt_bool (inject_Z bw_s) (inject_Z bw_ * (1 # 10))
         || Qlt_bool (inject_Z bh_s) (inject_Z bh_ * (1 # 10))
      then None
      else
        let inv := 1 / scale in
        let x := round (inject_Z x1_s * inv) in
        let y := round (inject_Z y1_s * inv) in
        let bw := round (inject_Z bw_s * inv) in
        let bh := round (inject_Z bh_s * inv) in
        let x := Z.max 0 (Z.min x (w - 1)) in
        let y := Z.max 0 (Z.min y (h - 1)) in
        let bw := Z.max 1 (Z.min bw (w - x)) in
        let bh := Z.max 1 (Z.min bh (h - y)) in
        Some {| x := x; y := y; bwidth := bw; bheight := bh |}
  end.

End WithLib.
End detection.

(** ** stages/deskew.py *)

Module stages_deskew.
Section WithLib.
Variable L : Lib.

Inductive method := hough | projection.

Record DeskewResult := {
  angle : Q;
  confidence : Q;
  method_used : method;
  needs_correction : bool;
}.

Record hough_result := {
  hough_angle : Q;
  hough_confidence : Q;
  lines_count : nat;
}.

(** The segment loop of the stage estimator.  The code computes the
    length as [np.sqrt(dx**2 + dy**2)] on [np.int32] values; [hypot] is
    that length as long as the sum of the squares is below 2^31. *)
Fixpoint accepted_segments (max_angle : Q) (lines : list segment)
  : list (Q * Q) :=
  match lines with
  | [] => []
  | (x1, y1, x2, y2) :: rest =>
      let dx := inject_Z (x2 - x1) in
      let dy := inject_Z (y2 - y1) in
      if Qlt_bool (Qabs dx) 1 then accepted_segments max_angle rest
      else
        let angle := arctan2_deg L dy dx in
        let length := hypot L dx dy in
        if Qle_bool (Qabs angle) max_angle
        then (angle, length) :: accepted_segments max_angle rest
        else accepted_segments max_angle rest
  end.

(** The part of [detect_skew_hough] that follows the segment loop. *)
Definition hough_estimate (n_lines : nat) (acc : list (Q * Q)) : hough_result :=
  let angles := map fst acc in
  let line_lengths := map snd acc in
  match angles with
  | [] => {| hough_angle := 0; hough_confidence := 0; lines_count := n_lines |}
  | _ =>
      let total_length := Qsum line_lengths in
      let weighted_angle :=
        if Qeq_bool total_length 0 then median angles
        else Qsum (map (fun al => fst al * snd al) acc) / total_length in
      let angle_std := if (1 <? length angles)%nat then std L angles else 0 in
      let consistency_score := Qmax 0 (1 - angle_std / 5) in
      let count_score := Qmin 1 (Qlen angles / 20) in
      let confidence := consistency_score * (7 # 10) + count_score * (3 # 10) in
      {| hough_angle := weighted_angle;
         hough_confidence := confidence;
         lines_count := length angles |}
  end.

(** [cv2.getStructuringElement] rejects the kernel width [w // 30 = 0]
    with [cv2.error] (this variant has no size guard): the code returns
    only on images of at least 30 columns, and [detect_skew_hough] is its
    result there. *)
Definition detect_skew_hough (gray : gray_image) (max_angle : Q) : hough_result :=
  let w := width gray in
  let edges := Canny L gray in
  let dilated := dilate L edges (w / 30) in
  let lines := HoughLinesP L dilated (w / 8) (w / 20) in
  match lines with
  | None => {| hough_angle := 0; hough_confidence := 0; lines_count := 0 |}
  | Some [] => {| hough_angle := 0; hough_confidence := 0; lines_count := 0 |}
  | Some lines => hough_estimate (length lines) (accepted_segments max_angle lines)
  end.

(** [np.linspace(a, b, n)] *)
Definition linspace (a b : Q) (n : nat) : list Q :=
  map (fun i => a + inject_Z (Z.of_nat i) * ((b - a) / inject_Z (Z.of_nat (n - 1))))
      (seq 0 n).

(** [np.var(np.sum(rotated, axis=1))] for the binary image rotated by [angle]. *)
Definition profile_score (binary : gray_image) (angle : Q) : Q :=
  let rotated := rotate_binary L binary angle in
  let projection := map (fun r => inject_Z (Zsum r)) rotated in
  var L projection.

(** One search loop: keep the first strictly better candidate. *)
Definition search (binary : gray_image) (candidates : list Q) (best : Q * Q)
  : Q * Q :=
  fold_left (fun b a =>
               let score := profile_score binary a in
               if Qlt_bool (snd b) score then (a, score) else b)
            candidates best.

Definition detect_skew_projection (gray : gray_image) (max_angle : Q) : Q * Q :=
  let binary := threshold_binary_inv_otsu L gray in
  let angles_to_test := linspace (- max_angle) max_angle 31 in
  let scores := map (profile_score binary) angles_to_test in
  let '(best_angle, best_score) := search binary angles_to_test (0, 0) in
  let fine_angles := linspace (best_angle - 1) (best_angle + 1) 21 in
  let '(best_angle, best_score) :=
    search binary fine_angles (best_angle, best_score) in
  let median_score := median scores in
  let confidence :=
    if Qeq_bool median_score 0 then 0
    else
      let score_ratio := best_score / median_score in
      Qmin 1 ((score_ratio - 1) / (5 # 10)) in
  (best_angle, Qmax 0 confidence).

Definition weight (m : method) : Q :=
  match m with
  | hough => 55 # 100
  | projection => 45 # 100
  end.

(** The weighted vote of [detect_deskew] up to and including the clamp:
    [(final_angle, final_confidence)] from the [(angle, confidence)] pairs
    of the two methods. *)
Definition fuse (hough_r projection_r : Q * Q) (max_angle : Q) : Q * Q :=
  let methods := [(hough, hough_r); (projection, projection_r)] in
  let total_weight :=
    Qsum (map (fun m => snd (snd m) * weight (fst m)) methods) in
  let '(final_angle, final_confidence) :=
    if Qeq_bool total_weight 0 then (0, 0)
    else
      let weighted_sum :=
        Qsum (map (fun m => fst (snd m) * snd (snd m) * weight (fst m)) methods) in
      (weighted_sum / total_weight,
       Qsum (map (fun m => snd (snd m) * weight (fst m)) methods)) in
  if Qlt_bool max_angle (Qabs final_angle)
  then (sign final_angle * max_angle, final_confidence * (5 # 10))
  else (final_angle, final_confidence).

Definition detect_deskew (gray : gray_image) (min_angle max_angle : Q)
  : DeskewResult :=
  let hough_result := detect_skew_hough gray max_angle in
  let projection_result := detect_skew_projection gray max_angle in
  let hough_r := (hough_angle hough_result, hough_confidence hough_result) in
  let '(final_angle, final_confidence) :=
    fuse hough_r projection_result max_angle in
  let needs_correction := Qle_bool min_angle (Qabs final_angle) in
  let score_hough := snd hough_r * weight hough in
  let score_projection := snd projection_result * weight projection in
  let best_method :=
    if Qlt_bool score_hough score_projection then projection else hough in
  {| angle := round3 final_angle;
     confidence := Qmin 1 final_confidence;
     method_used := best_method;
     needs_correction := needs_correction |}.

End WithLib.
End stages_deskew.

(** ** stages/dewarp.py *)

Module stages_dewarp.
Section WithLib.
Variable L : Lib.
(** Whether the optional [page_dewarp] import succeeded. *)
Variable PAGE_DEWARP_AVAILABLE : bool.

Record curvature_result := {
  score : Q;
  confidence : Q;
  num_lines : nat;
  avg_curvature : Q;
  max_curvature : Q;
}.

Record DewarpResult := {
  needs_dewarp : bool;
  curvature_score : Q;
  dewarp_confidence : Q;
  tool_available : bool;
}.

Fixpoint insert_by_x (p : Z * Z) (l : list (Z * Z)) : list (Z * Z) :=
  match l with
  | [] => [p]
  | q :: t => if (fst p <=? fst q)%Z then p :: l else q :: insert_by_x p t
  end.
Definition sort_by_x (l : list (Z * Z)) : list (Z * Z) :=
  fold_right insert_by_x [] l.

Definition text_lines (h w : Z) (contours : list contour) : list contour :=
  filter (fun c =>
            let '(_, _, cw, ch) := boundingRect L c in
            Qlt_bool (inject_Z w * (3 # 10)) (inject_Z cw)
            && Qlt_bool (inject_Z ch) (inject_Z h * (1 # 10)))
         contours.

Fixpoint line_curvatures (w : Z) (lines : list contour) : list Q :=
  match lines with
  | [] => []
  | c :: rest =>
      if (length c <? 10)%nat then line_curvatures w rest
      else
        let points := sort_by_x c in
        let x_coords := map (fun p => inject_Z (fst p)) points in
        let y_coords := map (fun p => inject_Z (snd p)) points in
        match polyfit2 L x_coords y_coords with
        | Some c0 => (Qabs c0 * inject_Z w) :: line_curvatures w rest
        | None => line_curvatures w rest
        end
  end.

(** [cv2.getStructuringElement] rejects the kernel width [w // 20 = 0]
    with [cv2.error]: the code returns only on images of at least 20
    columns, and [detect_curvature_lines] is its result there. *)
Definition detect_curvature_lines (gray : gray_image) : curvature_result :=
  let h := height gray in
  let w := width gray in
  let binary := threshold_binary_inv_otsu L gray in
  let dilated := dilate L binary (w / 20) in
  let contours := findContours L dilated in
  let text_lines := text_lines h w contours in
  if (length text_lines <? 3)%nat
  then {| score := 0; confidence := 0; num_lines := 0;
          avg_curvature := 0; max_curvature := 0 |}
  else
    let curvatures := line_curvatures w text_lines in
    match curvatures with
    | [] => {| score := 0; confidence := 0; num_lines := length text_lines;
               avg_curvature := 0; max_curvature := 0 |}
    | c :: rest =>
        let avg_curvature := mean curvatures in
        let max_curvature := Qmaximum c rest in
        let score := Qmin 1 (avg_curvature / 10) in
        let confidence := Qmin 1 (Qlen curvatures / 10) in
        {| score := score; confidence := confidence;
           num_lines := length curvatures;
           avg_curvature := avg_curvature; max_curvature := max_curvature |}
    end.

Definition detect_dewarp (gray : gray_image) (min_curvature : Q) : DewarpResult :=
  let curvature_result := detect_curvature_lines gray in
  let needs_dewarp :=
    Qle_bool min_curvature (score curvature_result) && PAGE_DEWARP_AVAILABLE in
  {| needs_dewarp := needs_dewarp;
     curvature_score := score curvature_result;
     dewarp_confidence := confidence curvature_result;
     tool_available := PAGE_DEWARP_AVAILABLE |}.

End WithLib.
End stages_dewarp.

(** ** stages/rotation.py *)

Module stages_rotation.

(** [TRotation = Literal[0, 90, 180, 270]] *)
Inductive TRotation := R0 | R90 | R180 | R270.

Definition degrees (r : TRotation) : Z :=
  match r with R0 => 0 | R90 => 90 | R180 => 180 | R270 => 270 end%Z.

(** A score dictionary with the four rotations as keys, in this order. *)
Definition scores := TRotation -> Q.
Definition rotations : list TRotation := [R0; R90; R180; R270].

Definition mk_scores (s0 s90 s180 s270 : Q) : scores :=
  fun r => match r with R0 => s0 | R90 => s90 | R180 => s180 | R270 => s270 end.

Inductive method := text | edge | content.
Definition methods : list method := [text; edge; content].

Definition weights (m : method) : Q :=
  match m with
  | text => 5 # 10
  | edge => 3 # 10
  | content => 2 # 10
  end.

(** [max(d, key=d.get)]: the first key, in insertion order, whose value
    is maximal. *)
Definition max_key {K} (keys : list K) (d : K) (f : K -> Q) : K :=
  match keys with
  | [] => d
  | k :: t => fold_left (fun best k' => if Qlt_bool (f best) (f k') then k' else best) t k
  end.

Record RotationResult := {
  rotation : TRotation;
  confidence : Q;
  method_used : method;
  combined_scores : scores;
}.

(** The weighted vote of [detect_rotation] over the three score maps. *)
Definition vote (text_result edge_result content_result : scores)
  : RotationResult :=
  let candidates : scores :=
    fun r => 0 + text_result r * weights text + edge_result r * weights edge
             + content_result r * weights content in
  let best_rotation := max_key rotations R0 candidates in
  let confidence := candidates best_rotation in
  let method_contributions (m : method) : Q :=
    match m with
    | text => text_result best_rotation * weights text
    | edge => edge_result best_rotation * weights edge
    | content => content_result best_rotation * weights content
    end in
  let method_used := max_key methods text method_contributions in
  {| rotation := best_rotation;
     confidence := Qmin 1 confidence;
     method_used := method_used;
     combined_scores := candidates |}.

Section WithLib.
Variable L : Lib.

Definition total (a : gray_image) : Q := inject_Z (Zsum (flatten a)).

(** numpy divisions by zero (images smaller than the kernels and margins)
    give [inf] or [nan]; in [Q] they give 0. *)
Definition detect_text_orientation (gray : gray_image) : scores :=
  let h := height gray in
  let w := width gray in
  let binary := threshold_binary_inv_otsu L gray in
  let horizontal := morph_open L binary (w / 20) 1 in
  let vertical := morph_open L binary 1 (h / 20) in
  let h_count := total horizontal / 255 in
  let v_count := total vertical / 255 in
  let total_ := h_count + v_count in
  if Qeq_bool total_ 0 then mk_scores 0 0 0 0
  else
    let h_ratio := h_count / total_ in
    let v_ratio := v_count / total_ in
    if Qlt_bool v_ratio h_ratio
    then
      let top_content := total (slice None (Some (h / 2)%Z) binary) in
      let bottom_content := total (slice (Some (h / 2)%Z) None binary) in
      if Qle_bool bottom_content top_content
      then mk_scores h_ratio 0 (h_ratio * (3 # 10)) 0
      else mk_scores (h_ratio * (5 # 10)) 0 (h_ratio * (7 # 10)) 0
    else
      let left_content := total (cols None (Some (w / 2)%Z) binary) in
      let right_content := total (cols (Some (w / 2)%Z) None binary) in
      if Qle_bool right_content left_content
      then mk_scores 0 (v_ratio * (3 # 10)) 0 v_ratio
      else mk_scores 0 v_ratio 0 (v_ratio * (3 # 10)).

Definition detect_edge_orientation (gray : gray_image) : scores :=
  let h := height gray in
  let w := width gray in
  let edges := Canny L gray in
  let margin := int (inject_Z (Z.min h w) * (1 # 10)) in
  let top_region := slice None (Some margin) edges in
  let bottom_region := slice (Some (- margin)%Z) None edges in
  let left_region := cols None (Some margin) edges in
  let right_region := cols (Some (- margin)%Z) None edges in
  let top_density := total top_region / inject_Z (margin * w) in
  let bottom_density := total bottom_region / inject_Z (margin * w) in
  let left_density := total left_region / inject_Z (margin * h) in
  let right_density := total right_region / inject_Z (margin * h) in
  let max_density :=
    Qmaximum top_density [bottom_density; left_density; right_density; 1] in
  let top_density := top_density / max_density in
  let bottom_density := bottom_density / max_density in
  let left_density := left_density / max_density in
  let right_density := right_density / max_density in
  let h_strength := (top_density + bottom_density) / 2 in
  let v_strength := (left_density + right_density) / 2 in
  if Qlt_bool v_strength h_strength
  then
    if Qle_bool bottom_density top_density
    then mk_scores h_strength 0 (h_strength * (4 # 10)) 0
    else mk_scores (h_strength * (5 # 10)) 0 (h_strength * (7 # 10)) 0
  else
    if Qle_bool right_density left_density
    then mk_scores 0 (v_strength * (4 # 10)) 0 v_strength
    else mk_scores 0 (v_strength * (7 # 10)) 0 (v_strength * (5 # 10)).

Definition detect_content_orientation (gray : gray_image) : scores :=
  let h := height gray in
  let w := width gray in
  let binary := threshold_binary_inv_otsu L gray in
  let top_half := slice None (Some (h / 2)%Z) binary in
  let bottom_half := slice (Some (h / 2)%Z) None binary in
  let left_half := cols None (Some (w / 2)%Z) binary in
  let right_half := cols (Some (w / 2)%Z) None binary in
  let half_area := inject_Z (h * w / 2) in
  let top_content := total top_half / half_area in
  let bottom_content := total bottom_half / half_area in
  let left_content := total left_half / half_area in
  let right_content := total right_half / half_area in
  let max_content :=
    Qmaximum top_content [bottom_content; left_content; right_content; 1] in
  let top_content := top_content / max_content in
  let bottom_content := bottom_content / max_content in
  let left_content := left_content / max_content in
  let right_content := right_content / max_content in
  let h_diff := Qabs (top_content - bottom_content) in
  let v_diff := Qabs (left_content - right_content) in
  if Qle_bool v_diff h_diff
  then
    if Qle_bool bottom_content top_content
    then mk_scores h_diff 0 0 0
    else mk_scores 0 0 h_diff 0
  else
    if Qle_bool right_content left_content
    then mk_scores 0 0 0 v_diff
    else mk_scores 0 v_diff 0 0.

Definition detect_rotation (gray : gray_image) : RotationResult :=
  let text_result := detect_text_orientation gray in
  let edge_result := detect_edge_orientation gray in
  let content_result := detect_content_orientation gray in
  vote text_result edge_result content_result.

End WithLib.
End stages_rotation.

(** ** numpy canvases *)

Module numpy.

(** [np.full((h, w), v)] *)
Definition full {P} (h w : Z) (v : P) : array2 P :=
  repeat (repeat v (Z.to_nat w)) (Z.to_nat h).

(** [canvas[y0:y1, x0:x1] = value]: the value must have the shape of the
    region, an axis of length 1 being repeated along the region;
    otherwise numpy raises [ValueError]. *)
Definition paste {P} (canvas : array2 P) (y0 y1 x0 x1 : Z) (value : array2 P)
  : result (array2 P) :=
  let ra := norm_idx (length canvas) y0 in
  let rb := norm_idx (length canvas) y1 in
  let ca := norm_idx (ncols canvas) x0 in
  let cb := norm_idx (ncols canvas) x1 in
  let rh := (rb - ra)%nat in
  let rw := (cb - ca)%nat in
  let vh := length value in
  let vw := ncols value in
  if ((vh =? rh) || (vh =? 1))%nat && ((vw =? rw) || (vw =? 1))%nat
  then
    Ok (mapi (fun r row =>
                mapi (fun c p =>
                        if (ra <=? r)%nat && (r <? rb)%nat
                           && (ca <=? c)%nat && (c <? cb)%nat
                        then nth (if (vw =? rw)%nat then c - ca else 0)%nat
                                 (nth (if (vh =? rh)%nat then r - ra else 0)%nat
                                      value [])
                                 p
                        else p) row)
             canvas)
  else Raise ValueError.

(** The same assignment on rasters of one kind. *)
Definition image_paste (canvas : image) (y0 y1 x0 x1 : Z) (value : image)
  : result image :=
  match canvas, value with
  | Gray c, Gray v => bind (paste c y0 y1 x0 x1 v) (fun o => Ok (Gray o))
  | Color c, Color v => bind (paste c y0 y1 x0 x1 v) (fun o => Ok (Color o))
  | _, _ => Raise ValueError
  end.

(** [np.argmin]: the first index holding the minimum. *)
Fixpoint argmin_from (l : list Q) (i best : nat) (bv : Q) : nat :=
  match l with
  | [] => best
  | x :: t =>
      if Qlt_bool x bv then argmin_from t (S i) i x
      else argmin_from t (S i) best bv
  end.
Definition argmin (l : list Q) : nat :=
  match l with [] => 0%nat | x :: t => argmin_from t 1 0 x end.

End numpy.

(** ** stages/geometry.py *)

Module geometry.

(** [image[ylo:yhi, xlo:xhi].copy()] on either kind of raster. *)
Definition image_window (ylo yhi xlo xhi : option Z) (im : image) : image :=
  match im with
  | Gray g => Gray (cols xlo xhi (slice ylo yhi g))
  | Color c => Color (cols xlo xhi (slice ylo yhi c))
  end.

Definition split_horizontal (im : image) (position : Q) (overlap : Z)
  : image * image :=
  let '(h, w) := shape im in
  let split_x := int (inject_Z w * position) in
  let left_end := Z.min (split_x + overlap) w in
  let right_start := Z.max (split_x - overlap) 0 in
  let left := image_window None None None (Some left_end) im in
  let right := image_window None None (Some right_start) None im in
  (left, right).

Definition split_vertical (im : image) (position : Q) (overlap : Z)
  : image * image :=
  let '(h, w) := shape im in
  let split_y := int (inject_Z h * position) in
  let top_end := Z.min (split_y + overlap) h in
  let bottom_start := Z.max (split_y - overlap) 0 in
  let top := image_window None (Some top_end) None None im in
  let bottom := image_window (Some bottom_start) None None None im in
  (top, bottom).

Definition crop_rect (im : image) (x y width height padding : Z) : image :=
  let '(h, w) := shape im in
  let x1 := Z.max 0 (x - padding) in
  let y1 := Z.max 0 (y - padding) in
  let x2 := Z.min w (x + width + padding) in
  let y2 := Z.min h (y + height + padding) in
  image_window (Some y1) (Some y2) (Some x1) (Some x2) im.

(** [order_points]: [pts] is an array of points [(x, y)];
    [np.argmin] and [np.argmax] raise [ValueError] on an empty array. *)
Definition order_points (pts : list (Q * Q)) : result (list (Q * Q)) :=
  match pts with
  | [] => Raise ValueError
  | _ =>
      let s := map (fun p => fst p + snd p) pts in
      let rect0 := nth (numpy.argmin s) pts (0, 0) in
      let rect2 := nth (argmax (map Fin s)) pts (0, 0) in
      let diff := map (fun p => snd p - fst p) pts in
      let rect1 := nth (numpy.argmin diff) pts (0, 0) in
      let rect3 := nth (argmax (map Fin diff)) pts (0, 0) in
      Ok [rect0; rect1; rect2; rect3]
  end.

End geometry.

(** ** crop.py *)

Module crop.
Section WithLib.
Variable L : Lib.

Definition crop_to_content (im : image) (bounds : option detection.bounds)
  (padding : Z) : image :=
  let '(h, w) := shape im in
  let bounds :=
    match bounds with
    | None => detection.detect_content_bounds L im
    | Some b => Some b
    end in
  match bounds with
  | None => im
  | Some b =>
      let x := Z.max 0 (detection.x b - padding) in
      let y := Z.max 0 (detection.y b - padding) in
      let x2 := Z.min w (detection.x b + detection.bwidth b + padding) in
      let y2 := Z.min h (detection.y b + detection.bheight b + padding) in
      geometry.image_window (Some y) (Some y2) (Some x) (Some x2) im
  end.

End WithLib.

Section Normalize.
Variable L : Lib.
(** [cv2.resize(image, (new_w, new_h), interpolation=cv2.INTER_AREA)] on a
    three-channel image. *)
Variable resize_color : color_image -> Z -> Z -> color_image.

Definition normalize_page_size (im : image) (target_width target_height : option Z)
  (background_color : pixel * pixel * pixel) : result image :=
  let '(h, w) := shape im in
  let target_width := match target_width with None => w | Some t => t end in
  let target_height := match target_height with None => h | Some t => t end in
  if (target_height <? 0)%Z || (target_width <? 0)%Z then Raise ValueError
  else
    let output :=
      match im with
      | Color _ => Color (numpy.full target_height target_width background_color)
      | Gray _ =>
          Gray (numpy.full target_height target_width (fst (fst background_color)))
      end in
    if (w =? 0)%Z || (h =? 0)%Z then Raise ZeroDivisionError
    else
      let scale := Qmin (inject_Z target_width / inject_Z w)
                        (inject_Z target_height / inject_Z h) in
      let '(resized, new_w, new_h) :=
        if Qlt_bool scale 1
        then
          let new_w := int (inject_Z w * scale) in
          let new_h := int (inject_Z h * scale) in
          (match im with
           | Gray g => Gray (resize L g new_w new_h)
           | Color c => Color (resize_color c new_w new_h)
           end, new_w, new_h)
        else (im, w, h) in
      let x_offset := ((target_width - new_w) / 2)%Z in
      let y_offset := ((target_height - new_h) / 2)%Z in
      numpy.image_paste output y_offset (y_offset + new_h)
                        x_offset (x_offset + new_w) resized.

End Normalize.
End crop.

(** ** deskew_wrapper.py *)

Module deskew_wrapper.
Section WithLib.
Variable L : Lib.
(** The rotation branch: [cv2.getRotationMatrix2D] about the centre, the
    canvas enlarged to the rotated bounding box, [cv2.warpAffine] with a
    white border. *)
Variable rotate_on_canvas : image -> Q -> image.

Definition deskew_page (im : image) (angle : option Q) : image :=
  let angle :=
    match angle with
    | None => detection.detect_skew_angle L im
    | Some a => a
    end in
  if Qlt_bool (Qabs angle) (1 # 10) then im
  else rotate_on_canvas im angle.

End WithLib.
End deskew_wrapper.

(** ** processor.py: the size normalisation after a split *)

Module processor.

(** [max(int(p.shape[k]) for p in processed_pages)] on a non-empty list. *)
Definition max_of (f : image -> Z) (pages : list image) : Z :=
  match pages with
  | [] => 0%Z
  | p :: t => fold_left (fun m q => Z.max m (f q)) t (f p)
  end.

Fixpoint normalize_each (target_w target_h : Z) (pages : list image)
  : result (list image) :=
  match pages with
  | [] => Ok []
  | page :: rest =>
      let '(ph, pw) := shape page in
      bind (if (pw =? target_w)%Z && (ph =? target_h)%Z then Ok page
            else
              let canvas :=
                match page with
                | Color _ => Color (numpy.full target_h target_w (255, 255, 255)%Z)
                | Gray _ => Gray (numpy.full target_h target_w 255%Z)
                end in
              let x_off := Z.max 0 ((target_w - pw) / 2) in
              let y_off := Z.max 0 ((target_h - ph) / 2) in
              numpy.image_paste canvas y_off (y_off + ph) x_off (x_off + pw) page)
           (fun out =>
              bind (normalize_each target_w target_h rest)
                   (fun outs => Ok (out :: outs)))
  end.

Definition normalize_pages (processed_pages : list image) : result (list image) :=
  if (1 <? length processed_pages)%nat
  then
    let target_w := max_of (fun p => snd (shape p)) processed_pages in
    let target_h := max_of (fun p => fst (shape p)) processed_pages in
    normalize_each target_w target_h processed_pages
  else Ok processed_pages.


Section WithLib.
Variable L : Lib.

(** The crop step of [process]: one page is cropped to its content box;
    after a split the pages share their top and bottom and are cropped on
    their outer edge only. *)
Definition crop_pages (processed_pages : list image) (crop_padding : Z)
  : list image :=
  match processed_pages with
  | [page] =>
      match detection.detect_content_bounds L page with
      | Some bounds => [crop.crop_to_content L page (Some bounds) crop_padding]
      | None => [page]
      end
  | _ =>
      let bounds_list := map (detection.detect_content_bounds L) processed_pages in
      let valid_bounds :=
        flat_map (fun b => match b with Some b => [b] | None => [] end)
                 bounds_list in
      match valid_bounds with
      | [] => processed_pages
      | b0 :: rest =>
          let y1 := fold_left Z.min (map detection.y rest) (detection.y b0) in
          let y2 :=
            fold_left Z.max
                      (map (fun b => (detection.y b + detection.bheight b)%Z) rest)
                      (detection.y b0 + detection.bheight b0)%Z in
          let pad := crop_padding in
          mapi (fun i page =>
                  match nth i bounds_list None with
                  | None => page
                  | Some b =>
                      let '(ph, pw) := shape page in
                      let y1p := Z.max 0 (y1 - pad) in
                      let y2p := Z.min ph (y2 + pad) in
                      let '(x1, x2) :=
                        if (i =? 0)%nat
                        then (Z.max 0 (detection.x b - pad), pw)
                        else (0%Z,
                              Z.min pw (detection.x b + detection.bwidth b + pad)) in
                      if (x2 <=? x1)%Z || (y2p <=? y1p)%Z then page
                      else geometry.image_window (Some y1p) (Some y2p)
                                                 (Some x1) (Some x2) page
                  end)
               processed_pages
      end
  end.

End WithLib.

Section Deskew.
Variable L : Lib.
Variable rotate_on_canvas : image -> Q -> image.

(** The deskew step of [process] on one page: the angle is the one
    [detect_skew_angle] finds on that page. *)
Definition deskew_step (min_skew_angle : Q) (page : image) : image :=
  let page_skew := detection.detect_skew_angle L page in
  if Qle_bool min_skew_angle (Qabs page_skew)
  then deskew_wrapper.deskew_page L rotate_on_canvas page (Some page_skew)
  else page.

End Deskew.

End processor.

(** ** main.py: the [pad] command *)

Module main.

Inductive pad_error := INVALID_TARGET | TARGET_TOO_SMALL.

(** [send_error(..., code); sys.exit(1)] is [Rejected code]. *)
Inductive pad_outcome :=
| Rejected (code : pad_error)
| Padded (canvas : result image).

Definition pad (im : image) (target_w target_h : Z) : pad_outcome :=
  let '(h, w) := shape im in
  if (target_w <=? 0)%Z || (target_h <=? 0)%Z then Rejected INVALID_TARGET
  else if (target_w <? w)%Z || (target_h <? h)%Z then Rejected TARGET_TOO_SMALL
  else
    let canvas :=
      match im with
      | Color _ => Color (numpy.full target_h target_w (255, 255, 255)%Z)
      | Gray _ => Gray (numpy.full target_h target_w 255%Z)
      end in
    let x_off := Z.max 0 ((target_w - w) / 2) in
    let y_off := Z.max 0 ((target_h - h) / 2) in
    Padded (numpy.image_paste canvas y_off (y_off + h) x_off (x_off + w) im).


(** The loop state of [_otsu_threshold]; [stopped] records the [break]. *)
Record otsu_state := {
  sum_b : Z;
  w_b : Z;
  var_max : Q;
  threshold : Z;
  stopped : bool;
}.

Definition otsu_step (hist : list Z) (total sum_total : Z) (st : otsu_state)
  (t : nat) : otsu_state :=
  if stopped st then st
  else
    let w_b := (w_b st + nth t hist 0)%Z in
    if (w_b =? 0)%Z
    then {| sum_b := sum_b st; w_b := w_b; var_max := var_max st;
            threshold := threshold st; stopped := false |}
    else
      let w_f := (total - w_b)%Z in
      if (w_f =? 0)%Z
      then {| sum_b := sum_b st; w_b := w_b; var_max := var_max st;
              threshold := threshold st; stopped := true |}
      else
        let sum_b := (sum_b st + Z.of_nat t * nth t hist 0)%Z in
        let m_b := inject_Z sum_b / inject_Z w_b in
        let m_f := inject_Z (sum_total - sum_b) / inject_Z w_f in
        let var_between :=
          inject_Z w_b * inject_Z w_f * (m_b - m_f) * (m_b - m_f) in
        if Qlt_bool (var_max st) var_between
        then {| sum_b := sum_b; w_b := w_b; var_max := var_between;
                threshold := Z.of_nat t; stopped := false |}
        else {| sum_b := sum_b; w_b := w_b; var_max := var_max st;
                threshold := threshold st; stopped := false |}.

(** [_otsu_threshold], from the histogram [gray.histogram()] on. *)
Definition _otsu_threshold (hist : list Z) : Z :=
  if (length hist <? 256)%nat then 128%Z
  else
    let total := Zsum (firstn 256 hist) in
    if (total <=? 0)%Z then 128%Z
    else
      let sum_total :=
        fold_left (fun s i => (s + Z.of_nat i * nth i hist 0)%Z) (seq 0 256) 0%Z in
      threshold
        (fold_left (otsu_step hist total sum_total) (seq 0 256)
                   {| sum_b := 0; w_b := 0; var_max := - (1);
                      threshold := 128; stopped := false |}).

End main.

(** ** stages/split.py *)

Module stages_split.

Inductive TSplitType := none | vertical | horizontal.

Inductive method := aspect | valley | gutter | symmetry.
Definition methods : list method := [aspect; valley; gutter; symmetry].

Definition weights (m : method) : Q :=
  match m with
  | aspect => 1 # 10
  | valley => 4 # 10
  | gutter => 3 # 10
  | symmetry => 2 # 10
  end.

Record SplitResult := {
  should_split : bool;
  split_type : TSplitType;
  position : Q;
  confidence : Q;
  method_used : method;
}.

(** [ValleyResult], [GutterResult] and [SymmetryResult] have the same two
    fields, [confidence] and [position]. *)
Record ValleyResult := { valley_confidence : Q; valley_position : Q }.
Record GutterResult := { gutter_confidence : Q; gutter_position : Q }.
Record SymmetryResult := { symmetry_confidence : Q; symmetry_position : Q }.

(** [cv2.findNonZero]: the [(x, y)] positions of the non-zero pixels, row
    by row, or [None] when there is none. *)
Definition findNonZero (binary : gray_image) : option contour :=
  let coords :=
    concat (mapi (fun r row =>
                    concat (mapi (fun c p =>
                                    if (p =? 0)%Z then []
                                    else [(Z.of_nat c, Z.of_nat r)]) row))
                 binary) in
  match coords with
  | [] => None
  | _ => Some coords
  end.

(** The sliding-window loop of [detect_gutter_shadow]: the state is
    [(min_avg, min_pos)], where [None] stands for [float('inf')]. *)
Definition darkest_window (column_means : list Q) (window_size : Z)
  : option Q * Z :=
  let n := Z.of_nat (length column_means) in
  fold_left (fun st i =>
               let i := Z.of_nat i in
               let window_avg :=
                 mean (slice (Some i) (Some (i + window_size)%Z) column_means) in
               let better :=
                 match fst st with
                 | None => true
                 | Some min_avg => Qlt_bool window_avg min_avg
                 end in
               if better then (Some window_avg, (i + window_size / 2)%Z) else st)
            (seq 0 (Z.to_nat (n - window_size)))
            (None, (n / 2)%Z).

Definition detect_gutter_shadow (gray : gray_image) : GutterResult :=
  let w := width gray in
  let center_start := int (inject_Z w * (35 # 100)) in
  let center_end := int (inject_Z w * (65 # 100)) in
  let center_region := cols (Some center_start) (Some center_end) gray in
  let column_means := mean_axis0 (to_float center_region) in
  match column_means with
  | [] => {| gutter_confidence := 0; gutter_position := 5 # 10 |}
  | _ =>
      let window_size := Z.max 3 ((center_end - center_start) / 20) in
      let '(min_avg, min_pos) := darkest_window column_means window_size in
      let overall_mean := mean column_means in
      if Qeq_bool overall_mean 0
      then {| gutter_confidence := 0; gutter_position := 5 # 10 |}
      else
        let confidence :=
          match min_avg with
          | Some min_avg =>
              let darkness_ratio := min_avg / overall_mean in
              Qmin 1 (Qmax 0 (1 - darkness_ratio) * (15 # 10))
          | None =>
              (* inf / overall_mean is +inf or -inf *)
              if Qlt_bool overall_mean 0 then 1 else 0
          end in
        let global_position := inject_Z (center_start + min_pos) / inject_Z w in
        {| gutter_confidence := confidence; gutter_position := global_position |}
  end.

Section WithLib.
Variable L : Lib.

(** [np.argmin], [np.max] and [np.mean] of an empty array do not return:
    the first raises [ValueError]. *)
Definition detect_vertical_valley (gray : gray_image) : result ValleyResult :=
  let w := width gray in
  let center_start := int (inject_Z w * (2 # 10)) in
  let center_end := int (inject_Z w * (8 # 10)) in
  let center_region := cols (Some center_start) (Some center_end) gray in
  let inverted := amap (fun p => ((255 - p) mod 256)%Z) center_region in
  let projection := sum_axis0 (to_float inverted) in
  match projection with
  | [] => Ok {| valley_confidence := 0; valley_position := 5 # 10 |}
  | _ =>
      let kernel_size := Z.max 5 (w / 50) in
      let kernel_size :=
        if Z.even kernel_size then (kernel_size + 1)%Z else kernel_size in
      let smoothed := GaussianBlur L projection kernel_size in
      match smoothed with
      | [] => Raise ValueError
      | s0 :: rest =>
          let min_idx := numpy.argmin smoothed in
          let min_val := nth min_idx smoothed 0 in
          let max_val := Qmaximum s0 rest in
          let mean_val := mean smoothed in
          if Qeq_bool max_val 0 || Qeq_bool mean_val 0
          then Ok {| valley_confidence := 0; valley_position := 5 # 10 |}
          else
            let valley_depth := (mean_val - min_val) / mean_val in
            let global_position :=
              inject_Z (center_start + Z.of_nat min_idx) / inject_Z w in
            let confidence := Qmin 1 (valley_depth * 2) in
            Ok {| valley_confidence := confidence;
                  valley_position := global_position |}
      end
  end.

Definition find_content_bounds (binary : gray_image) : option (Z * Z * Z * Z) :=
  match findNonZero binary with
  | None => None
  | Some coords => Some (boundingRect L coords)
  end.

Definition detect_content_symmetry (gray : gray_image) : SymmetryResult :=
  let h := height gray in
  let w := width gray in
  let binary := threshold_binary_inv_otsu L gray in
  let left_half := cols None (Some (w / 2)%Z) binary in
  let right_half := cols (Some (w / 2)%Z) None binary in
  match find_content_bounds left_half, find_content_bounds right_half with
  | Some (lx, ly, lw, lh), Some (rx, ry, rw, rh) =>
      let left_y_center := inject_Z ly + inject_Z lh / 2 in
      let right_y_center := inject_Z ry + inject_Z rh / 2 in
      let y_diff := Qabs (left_y_center - right_y_center) / inject_Z h in
      let height_ratio :=
        if (Z.max lh rh =? 0)%Z then 0
        else inject_Z (Z.min lh rh) / inject_Z (Z.max lh rh) in
      let width_ratio :=
        if (Z.max lw rw =? 0)%Z then 0
        else inject_Z (Z.min lw rw) / inject_Z (Z.max lw rw) in
      let alignment_score := Qmax 0 (1 - y_diff * 10) in
      let height_score := height_ratio in
      let width_score := width_ratio in
      let confidence :=
        alignment_score * (4 # 10) + height_score * (3 # 10)
        + width_score * (3 # 10) in
      {| symmetry_confidence := confidence; symmetry_position := 5 # 10 |}
  | _, _ => {| symmetry_confidence := 0; symmetry_position := 5 # 10 |}
  end.

(** The vote of [detect_split]: [conf m] and [pos m] are the confidence
    and the position of the entry of [methods] named [m]. *)
Definition vote (conf pos : method -> Q) (min_confidence : Q) : SplitResult :=
  let total_confidence :=
    fold_left Qplus (map (fun m => conf m * weights m) methods) 0 in
  let position_votes :=
    map (fun m => (pos m, conf m * weights m))
        (filter (fun m => Qlt_bool (3 # 10) (conf m)) methods) in
  let weighted_position :=
    match position_votes with
    | [] => 5 # 10
    | _ =>
        let total_weight := fold_left Qplus (map snd position_votes) 0 in
        if Qlt_bool 0 total_weight
        then fold_left Qplus (map (fun pw => fst pw * snd pw) position_votes) 0
             / total_weight
        else 5 # 10
    end in
  let method_scores (m : method) : Q := conf m * weights m in
  let best_method := stages_rotation.max_key methods aspect method_scores in
  let should_split := Qle_bool min_confidence total_confidence in
  {| should_split := should_split;
     split_type := if should_split then vertical else none;
     position := weighted_position;
     confidence := Qmin 1 total_confidence;
     method_used := best_method |}.

Definition detect_split (gray : gray_image) (min_confidence : Q)
  : result SplitResult :=
  let h := height gray in
  let w := width gray in
  if (h =? 0)%Z then Raise ZeroDivisionError
  else
    let aspect_ratio := inject_Z w / inject_Z h in
    let aspect_suggests_split :=
      Qlt_bool (115 # 100) aspect_ratio && Qlt_bool aspect_ratio (18 # 10) in
    let aspect_confidence := if aspect_suggests_split then 3 # 10 else 0 in
    bind (detect_vertical_valley gray) (fun valley_result =>
    let gutter_result := detect_gutter_shadow gray in
    let symmetry_result := detect_content_symmetry gray in
    let conf (m : method) : Q :=
      match m with
      | aspect => aspect_confidence
      | valley => valley_confidence valley_result
      | gutter => gutter_confidence gutter_result
      | symmetry => symmetry_confidence symmetry_result
      end in
    let pos (m : method) : Q :=
      match m with
      | aspect => 5 # 10
      | valley => valley_position valley_result
      | gutter => gutter_position gutter_result
      | symmetry => symmetry_position symmetry_result
      end in
    Ok (vote conf pos min_confidence)).

End WithLib.
End stages_split.

(** ** A reference instance of the library interface

    Rational stand-ins for the collaborator, used to run the detectors on
    concrete rasters.  Line and contour extraction replay a recorded
    answer. *)

Module Reference.

Definition ref_cvtColor (c : color_image) : gray_image :=
  amap (fun bgr : Z * Z * Z =>
          let '(b, g, r) := bgr in
          ((b * 1868 + g * 9617 + r * 4899 + 8192) / 16384)%Z) c.

(** Nearest-neighbour sampling to [new_w] columns and [new_h] rows. *)
Definition ref_resize (g : gray_image) (new_w new_h : Z) : gray_image :=
  let h := length g in
  let w := ncols g in
  map (fun i =>
         let row := nth (i * h / Z.to_nat new_h) g [] in
         map (fun j => nth (j * w / Z.to_nat new_w) row 0%Z)
             (seq 0 (Z.to_nat new_w)))
      (seq 0 (Z.to_nat new_h)).

(** A pixel is an edge when the jump to its right and lower neighbours
    exceeds the upper hysteresis threshold. *)
Definition ref_Canny (g : gray_image) : gray_image :=
  mapi (fun r row =>
          mapi (fun c p =>
                  let right := nth (S c) row p in
                  let below := nth c (nth (S r) g row) p in
                  if (150 <? Z.abs (right - p) + Z.abs (below - p))%Z
                  then 255%Z else 0%Z) row) g.

(** Three-tap binomial kernel with replicated border. *)
Definition ref_GaussianBlur (v : list Q) (k : Z) : list Q :=
  mapi (fun i x =>
          let l := nth (Nat.pred i) v x in
          let r := nth (S i) v x in
          Qred ((l + 2 * x + r) / 4)) v.

(** Otsu: the first threshold maximising the between-class variance;
    thresholds leaving a class empty are skipped. *)
Definition ref_otsu (g : gray_image) : Z :=
  let px := flatten g in
  let n := Z.of_nat (length px) in
  let s := Zsum px in
  fst (fold_left
         (fun best t =>
            let low := filter (fun p => p <=? t)%Z px in
            let n0 := Z.of_nat (length low) in
            let n1 := (n - n0)%Z in
            if (n0 =? 0)%Z || (n1 =? 0)%Z then best
            else
              let s0 := Zsum low in
              let s1 := (s - s0)%Z in
              let sigma :=
                Qred (inject_Z ((s0 * n1 - s1 * n0) ^ 2) / inject_Z (n0 * n1)) in
              if Qlt_bool (snd best) sigma then (t, sigma) else best)
         (map Z.of_nat (seq 0 256)) (0%Z, 0)).

(** Window maximum (dilation) and minimum (erosion) along a row. *)
Definition window {A} (k : Z) (c : nat) (row : list A) : list A :=
  let lo := Z.max 0 (Z.of_nat c - k / 2) in
  slice (Some lo) (Some (Z.max lo (Z.of_nat c - k / 2 + Z.max 1 k))) row.
Definition row_dilate (k : Z) (row : list Z) : list Z :=
  mapi (fun c _ => fold_right Z.max 0%Z (window k c row)) row.
Definition row_erode (k : Z) (row : list Z) : list Z :=
  mapi (fun c _ => fold_right Z.min 255%Z (window k c row)) row.

Definition ref_dilate (g : gray_image) (kw : Z) : gray_image :=
  map (row_dilate kw) g.

Definition transpose (g : gray_image) : gray_image := columns 0%Z g.

Definition ref_morph_open (g : gray_image) (kw kh : Z) : gray_image :=
  let g1 := map (fun r => row_dilate kw (row_erode kw r)) g in
  transpose (map (fun c => row_dilate kh (row_erode kh c)) (transpose g1)).

Definition ref_boundingRect (c : contour) : Z * Z * Z * Z :=
  match c with
  | [] => (0, 0, 0, 0)%Z
  | (x0, y0) :: t =>
      let xmin := fold_right Z.min x0 (map fst t) in
      let xmax := fold_right Z.max x0 (map fst t) in
      let ymin := fold_right Z.min y0 (map snd t) in
      let ymax := fold_right Z.max y0 (map snd t) in
      (xmin, ymin, xmax - xmin + 1, ymax - ymin + 1)%Z
  end.

(** Exact least squares for [y = a x^2 + b x + c] (normal equations,
    Cramer's rule); the leading coefficient, or [None] when the system is
    rank deficient. *)
Definition det3 (a b c d e f g h i : Q) : Q :=
  a * (e * i - f * h) - b * (d * i - f * g) + c * (d * h - e * g).

Definition ref_polyfit2 (xs ys : list Q) : option Q :=
  let pw (k : nat) := Qred (Qsum (map (fun x => Qpower x (Z.of_nat k)) xs)) in
  let mo (k : nat) :=
    Qred (Qsum (map (fun p => Qpower (fst p) (Z.of_nat k) * snd p) (combine xs ys))) in
  let s0 := pw 0%nat in let s1 := pw 1%nat in let s2 := pw 2%nat in
  let s3 := pw 3%nat in let s4 := pw 4%nat in
  let t0 := mo 0%nat in let t1 := mo 1%nat in let t2 := mo 2%nat in
  let d := det3 s4 s3 s2 s3 s2 s1 s2 s1 s0 in
  if Qeq_bool d 0 then None
  else Some (Qred (det3 t2 s3 s2 t1 s2 s1 t0 s1 s0 / d)).

(** Square root to six decimals, rounded down. *)
Definition ref_sqrt (q : Q) : Q :=
  Qmake (Z.sqrt (Qnum q * 10 ^ 12 / Zpos (Qden q))) (10 ^ 6).

Definition ref_hypot (dx dy : Q) : Q := ref_sqrt (dx * dx + dy * dy).

Definition ref_pi : Q := 355 # 113.

(** Arctangent on [-1, 1] by its alternating series up to degree 9. *)
Definition atan_series (t : Q) : Q :=
  let t2 := t * t in
  t * (1 - t2 * ((1 # 3) - t2 * ((1 # 5) - t2 * ((1 # 7) - t2 * (1 # 9))))).

Definition atan_deg (t : Q) : Q :=
  let deg r := r * 180 / ref_pi in
  if Qle_bool (Qabs t) 1 then deg (atan_series t)
  else if Qlt_bool 0 t then 90 - deg (atan_series (1 / t))
  else - (90) - deg (atan_series (1 / t)).

Definition ref_arctan2_deg (dy dx : Q) : Q :=
  if Qlt_bool 0 dx then Qred (atan_deg (dy / dx))
  else if Qlt_bool dx 0
       then if Qle_bool 0 dy then Qred (atan_deg (dy / dx) + 180)
            else Qred (atan_deg (dy / dx) - 180)
       else if Qlt_bool 0 dy then 90
            else if Qlt_bool dy 0 then - (90) else 0.

(** Mean with the partial sums kept in lowest terms. *)
Definition ref_mean (l : list Q) : Q :=
  Qred (fold_right (fun x a => Qred (x + a)) 0 l / Qlen l).

Definition ref_var (l : list Q) : Q :=
  let m := ref_mean l in
  ref_mean (map (fun x => (x - m) * (x - m)) l).

Definition ref_std (l : list Q) : Q := ref_sqrt (ref_var l).

(** Linear interpolation between the two closest ranks. *)
Definition ref_percentile90 (l : list Q) : Q :=
  let s := sort l in
  let pos := (9 # 10) * (Qlen s - 1) in
  let lo := Z.to_nat (Qfloor pos) in
  let frac := pos - inject_Z (Qfloor pos) in
  let a := nth lo s 0 in
  let b := nth (S lo) s a in
  Qred (a + frac * (b - a)).

(** Small-angle rotation about the centre column: each column is shifted
    vertically by its distance to the centre times the angle in radians. *)
Definition ref_rotate_binary (g : gray_image) (angle : Q) : gray_image :=
  let w := width g in
  mapi (fun r row =>
          mapi (fun c _ =>
                  let shift :=
                    round (inject_Z (Z.of_nat c - w / 2) * angle * ref_pi / 180) in
                  let r' := (Z.of_nat r + shift)%Z in
                  if (r' <? 0)%Z then 0%Z
                  else nth c (nth (Z.to_nat r') g []) 0%Z) row) g.

(** The instance whose line detector answers [lines] and whose contour
    extractor answers [contours]. *)
Definition replay (lines : option (list segment)) (contours : list contour)
  : Lib :=
  {| cvtColor := ref_cvtColor;
     resize := ref_resize;
     Canny := ref_Canny;
     GaussianBlur := ref_GaussianBlur;
     otsu := ref_otsu;
     dilate := ref_dilate;
     HoughLinesP := fun _ _ _ => lines;
     findContours := fun _ => contours;
     boundingRect := ref_boundingRect;
     polyfit2 := ref_polyfit2;
     arctan2_deg := ref_arctan2_deg;
     hypot := ref_hypot;
     std := ref_std;
     var := ref_var;
     percentile90 := ref_percentile90;
     rotate_binary := ref_rotate_binary;
     morph_open := ref_morph_open |}.

(** Nothing detected: no segment, no contour. *)
Definition ref_lib : Lib := replay None [].

(** A uniform one-channel raster of [h] rows and [w] columns. *)
Definition uniform (v : pixel) (h w : nat) : gray_image := repeat (repeat v w) h.
Definition white (h w : nat) : image := Gray (uniform 255%Z h w).

End Reference.

(** * Vocabulary of the statements

    Quantities the detectors compute on the way to their result, the
    expectations on the collaborator, and the rasters used as examples. *)

Import Reference.
Import stages_rotation.
Unset Implicit Arguments.

(** ** Splitting

    Row-wise concatenation of two rasters of the same height. *)
Definition join_rows {P} (a b : array2 P) : array2 P :=
  map (fun p => fst p ++ snd p) (combine a b).

(** [l] and [r] are the columns [0, g) and [g, w) of [a]. *)
Definition split_of {P} (g : nat) (a l r : array2 P) : Prop :=
  (forall d, columns d l = firstn g (columns d a))
  /\ (forall d, columns d r = skipn g (columns d a))
  /\ ncols l = g
  /\ (ncols l + ncols r = ncols a)%nat
  /\ length l = length a /\ length r = length a
  /\ join_rows l r = a.

(** The split of an image, read on its pixel array. *)
Definition image_split_of (g : Z) (im left right : image) : Prop :=
  match im, left, right with
  | Gray a, Gray l, Gray r => split_of (Z.to_nat g) a l r
  | Color a, Color l, Color r => split_of (Z.to_nat g) a l r
  | _, _, _ => False
  end.

(** ** Skew fusion

    The vote of [detect_deskew], written out: each method counts with
    its confidence times its fixed weight. *)
Definition vote_weight (ch cp : Q) : Q := ch * (55 # 100) + cp * (45 # 100).
Definition vote_angle (ah ch ap cp : Q) : Q :=
  if Qeq_bool (vote_weight ch cp) 0 then 0
  else (ah * ch * (55 # 100) + ap * cp * (45 # 100)) / vote_weight ch cp.

(** ** Rotation vote

    Weighted sum of the three score maps at a rotation, and the share of
    each method in it. *)
Definition combined (t e c : scores) (r : TRotation) : Q :=
  (5 # 10) * t r + (3 # 10) * e r + (2 # 10) * c r.

Definition contribution (t e c : scores) (r : TRotation) (m : method) : Q :=
  match m with
  | text => (5 # 10) * t r
  | edge => (3 # 10) * e r
  | content => (2 # 10) * c r
  end.

(** The score maps in which only method [m] fires, with score [s] at 90. *)
Definition only_at_90 (m : method) (s : Q) (m' : method) : scores :=
  match m, m' with
  | text, text | edge, edge | content, content => mk_scores 0 s 0 0
  | _, _ => mk_scores 0 0 0 0
  end.

(** The score map of each sub-scorer on an image. *)
Definition sub_scores (L : Lib) (gray : gray_image) (m : method) : scores :=
  match m with
  | text => detect_text_orientation L gray
  | edge => detect_edge_orientation L gray
  | content => detect_content_orientation L gray
  end.

(** A white 40 x 40 raster with two isolated dark pixels in its right
    half, one above and one below the middle row. *)
Definition dotted_page : gray_image :=
  map (fun r =>
         map (fun c =>
                if ((r =? 10) && (c =? 30) || (r =? 30) && (c =? 28))%Z
                then 0%Z else 255%Z)
             (map Z.of_nat (seq 0 40)))
      (map Z.of_nat (seq 0 40)).

(** ** Line-based skew estimation

    The segments each variant accepts on [gray]: none when the whole-page
    variant refuses the image (a side below 10 pixels) or when the line
    detector answers nothing. *)
Definition page_accepted (L : Lib) (gray : gray_image) (max_angle : Q)
  : list (Q * Q) :=
  let w := width gray in
  if (height gray <? 10)%Z || (w <? 10)%Z then []
  else
    match HoughLinesP L (dilate L (Canny L gray) (Z.max 10 (w / 30)))
                      (Z.max 30 (w / 8)) (Z.max 10 (w / 20)) with
    | Some lines => detection.accepted_segments L max_angle lines
    | None => []
    end.

Definition stage_accepted (L : Lib) (gray : gray_image) (max_angle : Q)
  : list (Q * Q) :=
  let w := width gray in
  match HoughLinesP L (dilate L (Canny L gray) (w / 30)) (w / 8) (w / 20) with
  | Some lines => stages_deskew.accepted_segments L max_angle lines
  | None => []
  end.

(** The segments the stage variant reads from the line detector. *)
Definition stage_lines (L : Lib) (gray : gray_image) : list segment :=
  let w := width gray in
  match HoughLinesP L (dilate L (Canny L gray) (w / 30)) (w / 8) (w / 20) with
  | Some lines => lines
  | None => []
  end.

(** The stage variant computes [dx**2 + dy**2] on [np.int32] coordinates:
    the result is the sum of the squares as long as that sum is below
    2^31 (beyond, it wraps: the square root is then not the length of the
    segment, and is [nan] when the wrapped sum is negative). *)
Definition squares_fit_int32 (lines : list segment) : Prop :=
  Forall (fun s : segment =>
            let '(x1, y1, x2, y2) := s in
            ((x2 - x1) * (x2 - x1) + (y2 - y1) * (y2 - y1) < 2 ^ 31)%Z)
         lines.

(** Length-weighted mean of the accepted angles. *)
Definition weighted_mean (acc : list (Q * Q)) : Q :=
  Qsum (map (fun al => fst al * snd al) acc) / Qsum (map snd acc).

(** Standard deviation of the accepted angles, 0 for a single one. *)
Definition spread (L : Lib) (acc : list (Q * Q)) : Q :=
  if (1 <? length acc)%nat then std L (map fst acc) else 0.

(** A segment that is not vertical has a positive length. *)
Definition hypot_positive (L : Lib) : Prop :=
  forall dx dy : Q, 1 <= Qabs dx -> 0 < hypot L dx dy.

(** Three dark strokes of slope 1/10 on a white 128 x 64 raster. *)
Definition tilted_page : gray_image :=
  map (fun r =>
         map (fun c =>
                if ((4 <=? c) && (c <=? 124)
                    && ((r =? 10 + (c - 4) / 10) || (r =? 30 + (c - 4) / 10)
                        || (r =? 50 + (c - 4) / 10)))%Z
                then 0%Z else 255%Z)
             (map Z.of_nat (seq 0 128)))
      (map Z.of_nat (seq 0 64)).

Definition tilted_segments : list segment :=
  [(4, 10, 124, 22); (4, 30, 124, 42); (4, 50, 124, 62)]%Z.

Definition tilt_lib : Lib := replay (Some tilted_segments) [].

(** ** Coordinates

    The grayscale conversion keeps the dimensions of the image. *)
Definition gray_keeps_shape (L : Lib) (im : image) : Prop :=
  (height (detection._to_gray L im), width (detection._to_gray L im)) = shape im.

(** A dark 4 x 4 block inside a white 6 x 6 page. *)
Definition framed_block : image :=
  Gray [[255; 255; 255; 255; 255; 255];
        [255; 0; 0; 0; 0; 255];
        [255; 0; 0; 0; 0; 255];
        [255; 0; 0; 0; 0; 255];
        [255; 0; 0; 0; 0; 255];
        [255; 255; 255; 255; 255; 255]]%Z.

(** ** Curvature

    The copy of the page the whole-page detectors analyse (the longer
    side reduced to 1500 pixels), and the per-line curvatures each variant
    averages: none when fewer than three candidate text lines are found. *)
Definition analysis_copy (L : Lib) (im : image) : gray_image :=
  fst (detection._resize_for_analysis L (detection._to_gray L im) 1500).

Definition page_curvatures (L : Lib) (im : image) : list Q :=
  let gray := fst (detection._resize_for_analysis L (detection._to_gray L im) 1500) in
  let h := height gray in
  let w := width gray in
  let lines :=
    detection.text_lines L h w
      (findContours L (dilate L (threshold_binary_inv_otsu L gray) (w / 20))) in
  if (length lines <? 3)%nat then [] else detection.line_curvatures L w lines.

Definition stage_curvatures (L : Lib) (gray : gray_image) : list Q :=
  let h := height gray in
  let w := width gray in
  let lines :=
    stages_dewarp.text_lines L h w
      (findContours L (dilate L (threshold_binary_inv_otsu L gray) (w / 20))) in
  if (length lines <? 3)%nat then [] else stages_dewarp.line_curvatures L w lines.

(** The arc of a text line starting at height [y0]: it sags by
    (x - 50)^2 / 50 pixels, rounded, over the columns 30 to 70. *)
Definition arc (y0 : Z) : contour :=
  map (fun c => let x := (Z.of_nat c + 30)%Z in
                (x, (y0 + ((x - 50) * (x - 50) + 25) / 50)%Z))
      (seq 0 41).

Definition bowed_contours : list contour := [arc 20; arc 50; arc 80].

(** Three such arcs, dark on a white 100 x 100 raster. *)
Definition bowed_gray : gray_image :=
  map (fun r =>
         map (fun x =>
                if existsb (fun y0 =>
                              (30 <=? x) && (x <=? 70)
                              && (r =? y0 + ((x - 50) * (x - 50) + 25) / 50))%Z
                           [20; 50; 80]%Z
                then 0%Z else 255%Z)
             (map Z.of_nat (seq 0 100)))
      (map Z.of_nat (seq 0 100)).

Definition bowed_page : image := Gray bowed_gray.

Definition bow_lib : Lib := replay None bowed_contours.

(** ** Uniform rasters

    Pixel predicates, and what the collaborator is expected to answer on
    uniform rasters. *)
Definition pixels_nonneg (g : gray_image) : Prop :=
  Forall (Forall (fun p => (0 <= p)%Z)) g.

(** The opening and the edge map have no negative pixel. *)
Definition morph_open_nonneg (L : Lib) : Prop :=
  forall (g : gray_image) (kw kh : Z),
    pixels_nonneg g -> pixels_nonneg (morph_open L g kw kh).

Definition canny_nonneg (L : Lib) : Prop :=
  forall g : gray_image, pixels_nonneg (Canny L g).

Definition resize_keeps_uniform (L : Lib) : Prop :=
  forall (v : pixel) (h w : nat) (new_w new_h : Z),
    (0 < h)%nat -> (0 < w)%nat ->
    resize L (uniform v h w) new_w new_h
    = uniform v (Z.to_nat new_h) (Z.to_nat new_w).

Definition otsu_below_white (L : Lib) : Prop :=
  forall h w : nat, (otsu L (uniform 255%Z h w) < 255)%Z.

Definition std_of_constant (L : Lib) : Prop :=
  forall (v : Q) (n : nat), std L (repeat v n) == 0.

Definition dilate_keeps_black (L : Lib) : Prop :=
  forall (h w : nat) (k : Z),
    (1 <= k)%Z -> dilate L (uniform 0%Z h w) k = uniform 0%Z h w.

Definition no_contour_in_black (L : Lib) : Prop :=
  forall h w : nat, findContours L (uniform 0%Z h w) = [].

Definition all_zero (g : gray_image) : Prop := Forall (Forall (eq 0%Z)) g.

Definition canny_of_uniform (L : Lib) : Prop :=
  forall (v : pixel) (h w : nat), Canny L (uniform v h w) = uniform 0%Z h w.

Definition blur_of_constant (L : Lib) : Prop :=
  forall (c : Q) (n : nat) (k : Z),
    length (GaussianBlur L (repeat c n) k) = n
    /\ Forall (fun v => v == c) (GaussianBlur L (repeat c n) k).

Definition percentile_of_constant (L : Lib) : Prop :=
  forall (c : Q) (n : nat), (0 < n)%nat -> percentile90 L (repeat c n) == c.

(** Lists whose values all equal [c] up to [==]. *)
Definition near (c : Q) (l : list Q) : Prop := Forall (fun v => v == c) l.

Definition resize_to_size (L : Lib) : Prop :=
  forall (g : gray_image) (new_w new_h : Z),
    (1 <= new_w)%Z -> (1 <= new_h)%Z ->
    height (resize L g new_w new_h) = new_h
    /\ width (resize L g new_w new_h) = new_w.

Definition std_nonneg (L : Lib) : Prop := forall l : list Q, 0 <= std L l.

Definition image_is_rect (im : image) : Prop :=
  match im with Gray g => rect g | Color c => rect c end.

Definition stack (top bottom : image) : option image :=
  match top, bottom with
  | Gray a, Gray b => Some (Gray (a ++ b))
  | Color a, Color b => Some (Color (a ++ b))
  | _, _ => None
  end.

(** [out] shows the pixels of [a] from row [y1] and column [x1] on. *)
Definition window_of {P} (y1 x1 : nat) (a out : array2 P) : Prop :=
  forall (i j : nat) (d : P),
    (i < length out)%nat -> (j < ncols out)%nat ->
    nth j (nth i out []) d = nth (x1 + j) (nth (y1 + i) a []) d.

Definition image_window_of (y1 x1 : Z) (im out : image) : Prop :=
  match im, out with
  | Gray a, Gray o => window_of (Z.to_nat y1) (Z.to_nat x1) a o
  | Color a, Color o => window_of (Z.to_nat y1) (Z.to_nat x1) a o
  | _, _ => False
  end.

(** Every pixel of [a] outside the window of [h] rows and [w] columns at
    [(y1, x1)] is [bg]. *)
Definition framed_by {P} (bg : P) (y1 x1 h w : nat) (a : array2 P) : Prop :=
  forall (r c : nat) (d : P),
    (r < length a)%nat -> (c < ncols a)%nat ->
    ~ ((y1 <= r < y1 + h)%nat /\ (x1 <= c < x1 + w)%nat) ->
    nth c (nth r a []) d = bg.

(** [out] is a canvas of [th] rows and [tw] columns filled with [bg] that
    shows [page] at row [y] and column [x]. *)
Definition canvas_with {P} (bg : P) (th tw y x : Z) (page out : array2 P) : Prop :=
  height out = th /\ width out = tw /\ rect out
  /\ window_of (Z.to_nat y) (Z.to_nat x) out page
  /\ framed_by bg (Z.to_nat y) (Z.to_nat x) (length page) (ncols page) out.

Definition image_canvas_with (bg : pixel * pixel * pixel) (th tw y x : Z)
  (page out : image) : Prop :=
  match page, out with
  | Gray p, Gray o => canvas_with (fst (fst bg)) th tw y x p o
  | Color p, Color o => canvas_with bg th tw y x p o
  | _, _ => False
  end.

Definition blur_keeps_length (L : Lib) : Prop :=
  forall (v : list Q) (k : Z), length (GaussianBlur L v k) = length v.

Definition bounding_rect_nonneg (L : Lib) : Prop :=
  forall c : contour,
    (0 <= snd (fst (boundingRect L c)))%Z /\ (0 <= snd (boundingRect L c))%Z.

(** The histogram of an image with [ha] pixels of level [a], [hb] pixels
    of level [b] and no other. *)
Definition two_level (a b : nat) (ha hb : Z) : list Z :=
  map (fun i => if (i =? a)%nat then ha else if (i =? b)%nat then hb else 0%Z)
      (seq 0 256).

(** The histogram of a uniform image: [ha] pixels of level [a]. *)
Definition one_level (a : nat) (ha : Z) : list Z :=
  map (fun i => if (i =? a)%nat then ha else 0%Z) (seq 0 256).

(** * Properties *)

(** ** Boolean comparisons *)

Lemma Qlt_bool_true (a b : Q) : Qlt_bool a b = true <-> a < b.
Proof.
  unfold Qlt_bool. rewrite negb_true_iff.
  split; intro H.
  - apply Qnot_le_lt. intro Hle. apply Qle_bool_iff in Hle. congruence.
  - destruct (Qle_bool b a) eqn:E; [|reflexivity].
    apply Qle_bool_iff in E. exfalso. eapply Qlt_not_le; eauto.
Qed.

Lemma Qlt_bool_false (a b : Q) : Qlt_bool a b = false <-> b <= a.
Proof.
  unfold Qlt_bool. rewrite negb_false_iff. apply Qle_bool_iff.
Qed.

Lemma Qle_bool_false (a b : Q) : Qle_bool a b = false <-> b < a.
Proof.
  split; intro H.
  - apply Qnot_le_lt. intro Hle. apply Qle_bool_iff in Hle. congruence.
  - destruct (Qle_bool a b) eqn:E; [|reflexivity].
    apply Qle_bool_iff in E. exfalso. eapply Qlt_not_le; eauto.
Qed.

Ltac qbool :=
  repeat match goal with
  | H : Qlt_bool _ _ = true |- _ => apply Qlt_bool_true in H
  | H : Qlt_bool _ _ = false |- _ => apply Qlt_bool_false in H
  | H : Qle_bool _ _ = true |- _ => apply Qle_bool_iff in H
  | H : Qle_bool _ _ = false |- _ => apply Qle_bool_false in H
  | H : Qeq_bool _ _ = true |- _ => apply Qeq_bool_iff in H
  | H : Qeq_bool _ _ = false |- _ => apply Qeq_bool_neq in H
  end.

(** ** Splitting at a given gutter (split.py) *)

Section Slices.
Context {A : Type}.

Lemma firstn_beyond (n : nat) (l : list A) :
  firstn (Nat.min n (length l)) l = firstn n l.
Proof.
  destruct (Nat.le_ge_cases n (length l)) as [H|H].
  - now rewrite Nat.min_l.
  - rewrite Nat.min_r by exact H.
    now rewrite !firstn_all2 by lia.
Qed.

Lemma skipn_beyond (n : nat) (l : list A) :
  skipn (Nat.min n (length l)) l = skipn n l.
Proof.
  destruct (Nat.le_ge_cases n (length l)) as [H|H].
  - now rewrite Nat.min_l.
  - rewrite Nat.min_r by exact H.
    now rewrite !skipn_all2 by lia.
Qed.

Lemma norm_idx_nonneg (n : nat) (k : Z) :
  (0 <= k)%Z -> norm_idx n k = Nat.min (Z.to_nat k) n.
Proof.
  intro H. unfold norm_idx.
  destruct (Z.ltb_spec k 0); lia.
Qed.

Lemma slice_to (k : Z) (l : list A) :
  (0 <= k)%Z -> slice None (Some k) l = firstn (Z.to_nat k) l.
Proof.
  intro H. unfold slice. rewrite norm_idx_nonneg by exact H.
  cbn. apply firstn_beyond.
Qed.

Lemma slice_from (k : Z) (l : list A) :
  (0 <= k)%Z -> slice (Some k) None l = skipn (Z.to_nat k) l.
Proof.
  intro H. unfold slice. rewrite norm_idx_nonneg by exact H.
  rewrite firstn_all. apply skipn_beyond.
Qed.

End Slices.

Lemma join_firstn_skipn {P} (g : nat) (a : array2 P) :
  join_rows (map (firstn g) a) (map (skipn g) a) = a.
Proof.
  unfold join_rows. induction a as [|row a IH]; cbn; [reflexivity|].
  now rewrite firstn_skipn, IH.
Qed.

Lemma ncols_map_firstn {P} (g : nat) (a : array2 P) :
  (g <= ncols a)%nat -> ncols (map (firstn g) a) = g.
Proof.
  unfold ncols. destruct a as [|row a]; cbn [map hd length]; intro H.
  - lia.
  - rewrite length_firstn. lia.
Qed.

Lemma ncols_map_skipn {P} (g : nat) (a : array2 P) :
  ncols (map (skipn g) a) = (ncols a - g)%nat.
Proof.
  unfold ncols. destruct a as [|row a]; cbn [map hd length].
  - reflexivity.
  - now rewrite length_skipn.
Qed.

Lemma column_firstn {P} (d : P) (g j : nat) (a : array2 P) :
  (j < g)%nat -> column d (map (firstn g) a) j = column d a j.
Proof.
  intro H. unfold column. rewrite map_map. apply map_ext. intro row.
  rewrite <- (firstn_skipn g row) at 2.
  destruct (Nat.lt_ge_cases j (length (firstn g row))) as [Hj|Hj].
  - now rewrite app_nth1.
  - rewrite (nth_overflow (firstn g row)) by exact Hj.
    rewrite length_firstn in Hj.
    rewrite nth_overflow; [reflexivity|].
    rewrite length_app, length_firstn, length_skipn. lia.
Qed.

Lemma column_skipn {P} (d : P) (g j : nat) (a : array2 P) :
  column d (map (skipn g) a) j = column d a (g + j).
Proof.
  unfold column. rewrite map_map. apply map_ext. intro row.
  revert row. induction g as [|g IH]; intro row; [reflexivity|].
  destruct row as [|p row]; cbn.
  - now destruct j.
  - apply IH.
Qed.

Lemma seq_offset (g s n : nat) :
  seq (s + g) n = map (fun j => (g + j)%nat) (seq s n).
Proof.
  revert s. induction n as [|n IH]; intro s; cbn; [reflexivity|].
  f_equal; [lia|]. apply (IH (S s)).
Qed.

Lemma firstn_seq_le (g s n : nat) :
  (g <= n)%nat -> firstn g (seq s n) = seq s g.
Proof.
  revert s n. induction g as [|g IH]; intros s n H; [reflexivity|].
  destruct n as [|n]; [lia|]. cbn. f_equal. apply IH. lia.
Qed.

Lemma split_columns {P} (g : nat) (a : array2 P) :
  (g <= ncols a)%nat -> split_of g a (map (firstn g) a) (map (skipn g) a).
Proof.
  intro Hg. unfold split_of.
  rewrite ncols_map_firstn by exact Hg. rewrite ncols_map_skipn.
  repeat split.
  - intro d. unfold columns. rewrite ncols_map_firstn by exact Hg.
    rewrite firstn_map, firstn_seq_le by exact Hg.
    apply map_ext_in. intros j Hj. apply in_seq in Hj.
    apply column_firstn. lia.
  - intro d. unfold columns. rewrite ncols_map_skipn.
    rewrite skipn_map, skipn_seq, seq_offset, map_map.
    apply map_ext. intro j. apply column_skipn.
  - lia.
  - now rewrite length_map.
  - now rewrite length_map.
  - apply join_firstn_skipn.
Qed.

(** C10. With an explicit gutter [g] in [0, w] and no overlap,
    [split_facing_pages] returns as left page exactly the columns [0, g)
    and as right page exactly the columns [g, w): the two widths sum to w
    and joining the two pages row by row gives the image back. *)
Theorem split_facing_pages_partition :
  forall (L : Lib) (im : image) (g : Z),
    (1 <= snd (shape im))%Z ->
    (0 <= g <= snd (shape im))%Z ->
    let lr := split.split_facing_pages L im (Some g) 0 in
    image_split_of g im (fst lr) (snd lr)
    /\ snd (shape (fst lr)) = g
    /\ (snd (shape (fst lr)) + snd (shape (snd lr)))%Z = snd (shape im).
Proof.
  intros L im g Hw Hg lr. subst lr.
  unfold split.split_facing_pages.
  destruct (shape im) as [h w] eqn:Es. cbn [snd] in Hw, Hg.
  rewrite Z.add_0_r, Z.sub_0_r, Z.min_l, Z.max_l by lia. cbn [fst snd].
  assert (Hsplit : forall P (a : array2 P), width a = w ->
            split_of (Z.to_nat g) a (cols None (Some g) a) (cols (Some g) None a)
            /\ width (cols None (Some g) a) = g
            /\ (width (cols None (Some g) a) + width (cols (Some g) None a))%Z = w).
  { intros P a Ha. unfold width in Ha.
    assert (Hl : cols None (Some g) a = map (firstn (Z.to_nat g)) a).
    { unfold cols. apply map_ext. intro r. apply slice_to. lia. }
    assert (Hr : cols (Some g) None a = map (skipn (Z.to_nat g)) a).
    { unfold cols. apply map_ext. intro r. apply slice_from. lia. }
    rewrite Hl, Hr.
    assert (Hn : (Z.to_nat g <= ncols a)%nat) by lia.
    pose proof (split_columns _ a Hn) as Hs.
    split; [exact Hs|].
    destruct Hs as (_ & _ & Hc & Hsum & _).
    unfold width. rewrite Hc. split; lia. }
  destruct im as [a|a]; cbn in Es; inversion Es; subst h w;
    cbn [split.image_cols image_split_of shape snd]; apply Hsplit; reflexivity.
Qed.

Lemma split_facing_pages_partition_witness :
  let im := Gray [[1; 2; 3; 4]; [5; 6; 7; 8]]%Z in
  split.split_facing_pages ref_lib im (Some 1%Z) 0
  = (Gray [[1]; [5]]%Z, Gray [[2; 3; 4]; [6; 7; 8]]%Z)
  /\ image_split_of 1 im (Gray [[1]; [5]]%Z) (Gray [[2; 3; 4]; [6; 7; 8]]%Z).
Proof.
  intro im. split; [reflexivity|].
  assert (H1 : (1 <= snd (shape im))%Z) by (cbn; lia).
  assert (H2 : (0 <= 1 <= snd (shape im))%Z) by (cbn; lia).
  exact (proj1 (split_facing_pages_partition ref_lib im 1 H1 H2)).
Defined.

(** ** The weak gate of the facing-page classifier (detection.py) *)

(** C6. An image whose aspect ratio width/height is below 1.05 is never a
    spread, whatever its pixels and whatever the library computes. *)
Theorem detect_facing_pages_weak_gate :
  forall (L : Lib) (im : image),
    (0 < fst (shape im))%Z ->
    inject_Z (snd (shape im)) / inject_Z (fst (shape im)) < 105 # 100 ->
    detection.detect_facing_pages L im = Ok false.
Proof.
  intros L im Hh Hr. unfold detection.detect_facing_pages.
  destruct (shape im) as [h w]. cbn [fst snd] in Hh, Hr.
  destruct (Z.eqb_spec h 0) as [E|_]; [lia|].
  apply Qlt_bool_true in Hr. now rewrite Hr.
Qed.

Lemma detect_facing_pages_weak_gate_witness :
  detection.detect_facing_pages ref_lib
    (Gray [[0; 255; 0]; [255; 0; 255]; [0; 255; 0]]%Z) = Ok false.
Proof.
  apply detect_facing_pages_weak_gate.
  - cbn. lia.
  - reflexivity.
Defined.

(** ** Guardrails of the whole-page skew detector (detection.py) *)

(** C4. [detect_skew_angle] answers 0 as soon as one guardrail fires (low
    contrast, confidence below 0.40, an angle beyond 5 degrees with
    confidence below 0.70, an angle beyond 10 degrees) and the estimated
    angle otherwise; its answer never exceeds 10 degrees in magnitude. *)
Theorem detect_skew_angle_guardrails :
  forall (L : Lib) (im : image),
    let gray_small :=
      fst (detection._resize_for_analysis L (detection._to_gray L im) 1500) in
    let contrast := std L (map inject_Z (flatten gray_small)) in
    let estimate := detection._detect_skew_hough L gray_small 15 in
    let angle := fst estimate in
    let conf := snd estimate in
    let guardrail :=
      contrast < 5 \/ conf < 40 # 100
      \/ (5 < Qabs angle /\ conf < 70 # 100) \/ 10 < Qabs angle in
    (guardrail -> detection.detect_skew_angle L im = 0)
    /\ (~ guardrail -> detection.detect_skew_angle L im = angle)
    /\ Qabs (detection.detect_skew_angle L im) <= 10.
Proof.
  intros L im gray_small contrast estimate angle conf guardrail.
  unfold detection.detect_skew_angle.
  fold gray_small. fold contrast. fold estimate.
  subst angle conf guardrail.
  destruct estimate as [angle conf]. cbn [fst snd].
  destruct (Qlt_bool contrast 5) eqn:E1;
    [|destruct (Qlt_bool conf (40 # 100)) eqn:E2;
      [|destruct (Qlt_bool 5 (Qabs angle)) eqn:E3;
        destruct (Qlt_bool conf (70 # 100)) eqn:E4;
        destruct (Qlt_bool 10 (Qabs angle)) eqn:E5]];
    cbn [andb]; qbool;
    (split; [|split]);
    try reflexivity; try (intros _; reflexivity); try (cbn; discriminate);
    try assumption;
    try (intro H; exfalso; apply H; clear H; tauto);
    try (intros [H|[H|[[H H']|H]]]; exfalso;
         first [ apply (Qlt_not_le _ _ H); assumption
               | apply (Qlt_not_le _ _ H'); assumption ]).
Qed.

Lemma detect_skew_angle_guardrails_witness :
  detection.detect_skew_angle ref_lib (white 12 12) = 0
  /\ Qabs (detection.detect_skew_angle ref_lib (white 12 12)) <= 10.
Proof.
  pose proof (detect_skew_angle_guardrails ref_lib (white 12 12)) as (H0 & _ & H10).
  split; [|exact H10].
  apply H0. left. reflexivity.
Defined.

(** ** Fusion in the stage skew detector (stages/deskew.py) *)

Lemma sign_compat (a b : Q) : a == b -> sign a = sign b.
Proof.
  intro H. unfold sign.
  destruct (Qlt_bool 0 a) eqn:Ea, (Qlt_bool 0 b) eqn:Eb;
  destruct (Qlt_bool a 0) eqn:Fa, (Qlt_bool b 0) eqn:Fb;
    qbool; try reflexivity; exfalso; lra.
Qed.

Lemma fuse_unclamped (ah ch ap cp max_angle : Q) :
  let f := stages_deskew.fuse (ah, ch) (ap, cp) max_angle in
  fst f == (if Qlt_bool max_angle (Qabs (vote_angle ah ch ap cp))
            then sign (vote_angle ah ch ap cp) * max_angle
            else vote_angle ah ch ap cp)
  /\ snd f == (if Qlt_bool max_angle (Qabs (vote_angle ah ch ap cp))
               then vote_weight ch cp * (1 # 2)
               else vote_weight ch cp).
Proof.
  cbv zeta. unfold stages_deskew.fuse, vote_angle, vote_weight.
  cbn [map fst snd Qsum fold_right stages_deskew.weight].
  set (tw := ch * (55 # 100) + (cp * (45 # 100) + 0)).
  set (tw' := ch * (55 # 100) + cp * (45 # 100)).
  assert (Htw : tw == tw') by (subst tw tw'; ring).
  destruct (Qeq_bool tw 0) eqn:E; destruct (Qeq_bool tw' 0) eqn:E'; qbool;
    try (exfalso; rewrite Htw in E; contradiction);
    try (exfalso; rewrite <- Htw in E'; contradiction).
  - destruct (Qlt_bool max_angle (Qabs 0)); cbn [fst snd]; split;
      try reflexivity; rewrite <- Htw, E; ring.
  - set (a := (ah * ch * (55 # 100) + (ap * cp * (45 # 100) + 0)) / tw).
    set (a' := (ah * ch * (55 # 100) + ap * cp * (45 # 100)) / tw').
    assert (Ha : a == a').
    { subst a a'. rewrite Htw. apply Qdiv_comp; [ring|reflexivity]. }
    assert (Hb : Qlt_bool max_angle (Qabs a) = Qlt_bool max_angle (Qabs a')).
    { destruct (Qlt_bool max_angle (Qabs a)) eqn:B,
               (Qlt_bool max_angle (Qabs a')) eqn:B'; qbool;
        try reflexivity; exfalso; rewrite Ha in B; lra. }
    rewrite Hb.
    destruct (Qlt_bool max_angle (Qabs a')); cbn [fst snd]; split.
    + rewrite (sign_compat _ _ Ha). reflexivity.
    + lra.
    + exact Ha.
    + lra.
Qed.

(** C8, as the code has it.  In [detect_deskew] each sub-estimator votes
    with its confidence times its fixed weight (0.55 line-based, 0.45
    projection): the fused angle is the average of the two angles under
    these products (0 when both are 0), the fused confidence is the
    fixed-weight sum of the two confidences; when the fused angle exceeds
    [max_angle] in magnitude it becomes sign(angle) * max_angle and the
    confidence is halved.  The result carries the angle rounded to three
    decimals and the confidence capped at 1. *)
Theorem detect_deskew_fusion :
  forall (L : Lib) (gray : gray_image) (min_angle max_angle : Q),
    let h := stages_deskew.detect_skew_hough L gray max_angle in
    let p := stages_deskew.detect_skew_projection L gray max_angle in
    let ah := stages_deskew.hough_angle h in
    let ch := stages_deskew.hough_confidence h in
    let ap := fst p in
    let cp := snd p in
    let fused := stages_deskew.fuse (ah, ch) p max_angle in
    let res := stages_deskew.detect_deskew L gray min_angle max_angle in
    fst fused == (if Qlt_bool max_angle (Qabs (vote_angle ah ch ap cp))
                  then sign (vote_angle ah ch ap cp) * max_angle
                  else vote_angle ah ch ap cp)
    /\ snd fused == (if Qlt_bool max_angle (Qabs (vote_angle ah ch ap cp))
                     then vote_weight ch cp * (1 # 2)
                     else vote_weight ch cp)
    /\ stages_deskew.angle res = round3 (fst fused)
    /\ stages_deskew.confidence res = Qmin 1 (snd fused).
Proof.
  intros L gray min_angle max_angle h p ah ch ap cp fused res.
  assert (Hp : p = (ap, cp)) by (subst ap cp; now destruct p).
  pose proof (fuse_unclamped ah ch ap cp max_angle) as [Ha Hc].
  cbv zeta in Ha, Hc. rewrite <- Hp in Ha, Hc. fold fused in Ha, Hc.
  split; [exact Ha|]. split; [exact Hc|].
  subst res. unfold stages_deskew.detect_deskew.
  fold h. fold p. fold ah. fold ch. fold fused.
  destruct fused as [fa fc]. split; reflexivity.
Qed.

(** The fused angle is not the fixed-weight average: with line-based
    (4 degrees, confidence 0.8) and projection (2 degrees, confidence 0.4)
    it is 2.12/0.62, not 0.55 * 4 + 0.45 * 2 = 3.1. *)
Lemma fuse_not_fixed_weight_average :
  ~ fst (stages_deskew.fuse (4, 8 # 10) (2, 4 # 10) 15)
    == (55 # 100) * 4 + (45 # 100) * 2.
Proof.
  intro H. apply Qeq_bool_iff in H. vm_compute in H. discriminate.
Qed.

(** ** The weighted vote of the rotation classifier (stages/rotation.py) *)

(** Case analysis on the innermost comparison of the goal. *)
Ltac case_Qlt :=
  match goal with
  | |- context [Qlt_bool ?a ?b] =>
      lazymatch a with context [Qlt_bool] => fail | _ => idtac end;
      lazymatch b with context [Qlt_bool] => fail | _ => idtac end;
      let E := fresh "E" in
      destruct (Qlt_bool a b) eqn:E; qbool;
      cbn [only_at_90 mk_scores weights]
  end.

Section MaxKey.
Context {K : Type} (f : K -> Q).

Lemma max_key_fold_ge (l : list K) (k0 : K) :
  let best := fold_left (fun b k' => if Qlt_bool (f b) (f k') then k' else b) l k0 in
  f k0 <= f best /\ forall k, In k l -> f k <= f best.
Proof.
  revert k0. induction l as [|k l IH]; intro k0; cbn.
  - split; [apply Qle_refl|]. intros k [].
  - destruct (Qlt_bool (f k0) (f k)) eqn:E; qbool.
    + destruct (IH k) as [H1 H2]. split.
      * apply Qle_trans with (f k); [apply Qlt_le_weak; exact E|exact H1].
      * intros k' [<-|Hin]; [exact H1|apply H2, Hin].
    + destruct (IH k0) as [H1 H2]. split; [exact H1|].
      intros k' [<-|Hin]; [apply Qle_trans with (f k0); assumption|apply H2, Hin].
Qed.

Lemma max_key_ge (keys : list K) (d k : K) :
  In k keys -> f k <= f (max_key keys d f).
Proof.
  destruct keys as [|k0 l]; [intros []|].
  intros [<-|Hin]; unfold max_key;
    destruct (max_key_fold_ge l k0) as [H1 H2]; [exact H1|apply H2, Hin].
Qed.

End MaxKey.

(** The vote over arbitrary score maps: its combined scores are the
    weighted sums, the rotation maximises them, the confidence is the
    winning sum capped at 1, and [method_used] has the largest weighted
    share at the winner. *)
Lemma vote_spec (t e c : scores) :
  let res := vote t e c in
  (forall r, combined_scores res r == combined t e c r)
  /\ (forall r, combined t e c r <= combined t e c (rotation res))
  /\ confidence res == Qmin 1 (combined t e c (rotation res))
  /\ (forall m, contribution t e c (rotation res) m
                <= contribution t e c (rotation res) (method_used res)).
Proof.
  intros res.
  assert (Hc : forall r, combined_scores res r == combined t e c r).
  { intro r. subst res. unfold vote, combined. cbn. ring. }
  assert (Hall : forall r : TRotation, In r rotations)
    by (intros []; cbn; tauto).
  split; [exact Hc|]. split; [|split].
  - intro r. rewrite <- !Hc.
    subst res. cbn [vote combined_scores rotation].
    apply (max_key_ge (fun r => 0 + t r * weights text + e r * weights edge
                                + c r * weights content)).
    apply Hall.
  - rewrite <- Hc. subst res. cbn [vote confidence rotation combined_scores].
    reflexivity.
  - intro m. subst res. cbn [vote method_used rotation].
    set (best := max_key rotations R0 _).
    set (g := fun m0 : method =>
                match m0 with
                | text => t best * weights text
                | edge => e best * weights edge
                | content => c best * weights content
                end).
    assert (Hg : forall m0, contribution t e c best m0 == g m0).
    { intros []; cbn; ring. }
    rewrite !Hg. apply (max_key_ge g).
    destruct m; cbn; tauto.
Qed.

(** The vote when a single score map is non-zero, at 90 degrees only. *)
Lemma vote_single_signal (t e c : scores) (m : method) (s : Q) :
  0 < s -> s <= 1 ->
  (forall m' r,
      match m' with text => t | edge => e | content => c end r
      == only_at_90 m s m' r) ->
  rotation (vote t e c) = R90
  /\ confidence (vote t e c) == s * weights m
  /\ method_used (vote t e c) = m.
Proof.
  intros Hs0 Hs1 H.
  pose proof (H text R0) as Ht0. pose proof (H text R90) as Ht1.
  pose proof (H text R180) as Ht2. pose proof (H text R270) as Ht3.
  pose proof (H edge R0) as He0. pose proof (H edge R90) as He1.
  pose proof (H edge R180) as He2. pose proof (H edge R270) as He3.
  pose proof (H content R0) as Hc0. pose proof (H content R90) as Hc1.
  pose proof (H content R180) as Hc2. pose proof (H content R270) as Hc3.
  clear H. cbn beta iota in *.
  unfold vote. cbn [rotation confidence method_used].
  unfold max_key, rotations, methods. cbn [fold_left]. cbv beta.
  destruct m; cbn [only_at_90 mk_scores weights] in *.
  all: repeat (case_Qlt; cbv beta).
  all: try (exfalso; lra).
  all: repeat split; try reflexivity.
  all: try (rewrite Q.min_r by lra; lra).
Qed.

(** C5. On an image of at least 20 x 20 pixels (smaller ones make the
    sub-scorers raise), [detect_rotation] adds the score maps of its three
    sub-scorers with weights 0.5 (text), 0.3 (edge) and 0.2 (content); the
    rotation it returns maximises the weighted sum, the confidence is that
    sum capped at 1.0, and [method_used] has the largest weighted share at
    the winner.  When a single sub-scorer fires on the image, with a score
    [s] in (0, 1] at 90 degrees and 0 elsewhere, the result is rotation 90
    with confidence [s] times the weight of that sub-scorer. *)
Theorem detect_rotation_weighted_argmax :
  forall (L : Lib) (gray : gray_image),
    (20 <= height gray)%Z -> (20 <= width gray)%Z ->
    let t := sub_scores L gray text in
    let e := sub_scores L gray edge in
    let c := sub_scores L gray content in
    let res := detect_rotation L gray in
    (forall r, combined_scores res r == combined t e c r)
    /\ (forall r, combined t e c r <= combined t e c (rotation res))
    /\ confidence res == Qmin 1 (combined t e c (rotation res))
    /\ (forall m, contribution t e c (rotation res) m
                  <= contribution t e c (rotation res) (method_used res))
    /\ (forall (m : method) (s : Q),
          0 < s -> s <= 1 ->
          (forall m' r, sub_scores L gray m' r == only_at_90 m s m' r) ->
          rotation res = R90
          /\ confidence res == s * weights m
          /\ method_used res = m).
Proof.
  intros L gray _ _ t e c res.
  assert (E : res = vote t e c) by reflexivity.
  rewrite E. clear E res.
  destruct (vote_spec t e c) as (H1 & H2 & H3 & H4).
  repeat (split; [assumption|]).
  intros m s Hs0 Hs1 H.
  apply vote_single_signal; [exact Hs0|exact Hs1|].
  intros [] r; apply (H _ r).
Qed.

(** On the dotted page only the content scorer fires, at 90 degrees with
    score 51/80: the classifier answers 90 with confidence 0.2 * 51/80. *)
Lemma detect_rotation_weighted_argmax_witness :
  rotation (detect_rotation ref_lib dotted_page) = R90
  /\ confidence (detect_rotation ref_lib dotted_page) == (51 # 80) * weights content
  /\ method_used (detect_rotation ref_lib dotted_page) = content.
Proof.
  assert (Hh : (20 <= height dotted_page)%Z) by (apply Z.leb_le; reflexivity).
  assert (Hw : (20 <= width dotted_page)%Z) by (apply Z.leb_le; reflexivity).
  assert (H0 : 0 < 51 # 80) by reflexivity.
  assert (H1 : 51 # 80 <= 1) by discriminate.
  refine (proj2 (proj2 (proj2 (proj2
            (detect_rotation_weighted_argmax ref_lib dotted_page Hh Hw))))
            content (51 # 80) H0 H1 _).
  intros [] []; apply Qeq_bool_iff; vm_compute; reflexivity.
Defined.

(** The classifier is the vote over its three sub-scorers. *)
Lemma detect_rotation_is_vote (L : Lib) (gray : gray_image) :
  detect_rotation L gray
  = vote (detect_text_orientation L gray) (detect_edge_orientation L gray)
         (detect_content_orientation L gray).
Proof. reflexivity. Qed.

(** ** Range of the content-distribution scores (stages/rotation.py) *)

Section ForallSlices.
Context {A : Type} (P : A -> Prop).

Lemma Forall_firstn (n : nat) (l : list A) : Forall P l -> Forall P (firstn n l).
Proof.
  intro H. revert n. induction H as [|v l Hv Hl IH]; intros [|n]; cbn;
    constructor; auto.
Qed.

Lemma Forall_skipn (n : nat) (l : list A) : Forall P l -> Forall P (skipn n l).
Proof.
  intro H. revert n. induction H as [|v l Hv Hl IH]; intros [|n]; cbn;
    try constructor; auto.
Qed.

Lemma Forall_slice (lo hi : option Z) (l : list A) :
  Forall P l -> Forall P (slice lo hi l).
Proof. intro H. unfold slice. now apply Forall_skipn, Forall_firstn. Qed.

End ForallSlices.

Lemma binary_nonneg (L : Lib) (g : gray_image) :
  pixels_nonneg (threshold_binary_inv_otsu L g).
Proof.
  unfold pixels_nonneg, threshold_binary_inv_otsu, amap.
  apply Forall_map, Forall_forall. intros row _.
  apply Forall_map, Forall_forall. intros p _.
  destruct (_ <? _)%Z; lia.
Qed.

Lemma Zsum_nonneg (l : list Z) : Forall (fun p => (0 <= p)%Z) l -> (0 <= Zsum l)%Z.
Proof.
  induction 1 as [|p l Hp Hl IH]; [reflexivity|].
  change (0 <= p + Zsum l)%Z. lia.
Qed.

Lemma total_nonneg (g : gray_image) : pixels_nonneg g -> 0 <= total g.
Proof.
  intro H. unfold total, Qle. cbn [Qnum Qden inject_Z].
  assert (0 <= Zsum (flatten g))%Z; [|lia].
  apply Zsum_nonneg. unfold flatten. apply Forall_concat. exact H.
Qed.

Lemma rows_nonneg (lo hi : option Z) (g : gray_image) :
  pixels_nonneg g -> pixels_nonneg (slice lo hi g).
Proof. apply Forall_slice. Qed.

Lemma cols_nonneg (lo hi : option Z) (g : gray_image) :
  pixels_nonneg g -> pixels_nonneg (cols lo hi g).
Proof.
  intro H. unfold pixels_nonneg, cols. apply Forall_map.
  eapply Forall_impl; [|exact H]. intros row Hrow. now apply Forall_slice.
Qed.

Lemma Qdiv_nonneg (a b : Q) : 0 <= a -> 0 <= b -> 0 <= a / b.
Proof.
  intros Ha Hb. apply Qmult_le_0_compat; [exact Ha|].
  now apply Qinv_le_0_compat.
Qed.

Lemma unit_share (a m : Q) : 0 <= a -> a <= m -> 1 <= m -> 0 <= a / m <= 1.
Proof.
  intros Ha Ham Hm. split.
  - apply Qdiv_nonneg; lra.
  - apply Qle_shift_div_r; lra.
Qed.

Lemma unit_gap (a b : Q) : 0 <= a <= 1 -> 0 <= b <= 1 -> 0 <= Qabs (a - b) <= 1.
Proof.
  intros Ha Hb. split; [apply Qabs_nonneg|].
  apply Qabs_Qle_condition. lra.
Qed.

(** Every score of the content-distribution sub-scorer lies in [0, 1]:
    this is the range in which the single-signal case of the vote is
    stated. *)
Lemma detect_content_orientation_unit (L : Lib) (gray : gray_image) (r : TRotation) :
  0 <= detect_content_orientation L gray r <= 1.
Proof.
  unfold detect_content_orientation. cbv zeta.
  set (binary := threshold_binary_inv_otsu L gray).
  set (half_area := inject_Z (height gray * width gray / 2)).
  assert (Hb : pixels_nonneg binary) by apply binary_nonneg.
  assert (Ha : 0 <= half_area).
  { subst half_area. unfold Qle. cbn [Qnum Qden inject_Z].
    assert (0 <= height gray * width gray / 2)%Z; [|lia].
    apply Z.div_pos; [|lia]. unfold height, width. lia. }
  set (tc := total (slice None (Some (height gray / 2)%Z) binary) / half_area).
  set (bc := total (slice (Some (height gray / 2)%Z) None binary) / half_area).
  set (lc := total (cols None (Some (width gray / 2)%Z) binary) / half_area).
  set (rc := total (cols (Some (width gray / 2)%Z) None binary) / half_area).
  assert (Htc : 0 <= tc)
    by (apply Qdiv_nonneg; [apply total_nonneg, rows_nonneg, Hb|exact Ha]).
  assert (Hbc : 0 <= bc)
    by (apply Qdiv_nonneg; [apply total_nonneg, rows_nonneg, Hb|exact Ha]).
  assert (Hlc : 0 <= lc)
    by (apply Qdiv_nonneg; [apply total_nonneg, cols_nonneg, Hb|exact Ha]).
  assert (Hrc : 0 <= rc)
    by (apply Qdiv_nonneg; [apply total_nonneg, cols_nonneg, Hb|exact Ha]).
  set (m := Qmaximum tc [bc; lc; rc; 1]).
  assert (Hm : tc <= m /\ bc <= m /\ lc <= m /\ rc <= m /\ 1 <= m).
  { subst m. unfold Qmaximum. cbn [fold_left].
    pose proof (Q.le_max_l tc bc). pose proof (Q.le_max_r tc bc).
    pose proof (Q.le_max_l (Qmax tc bc) lc).
    pose proof (Q.le_max_r (Qmax tc bc) lc).
    pose proof (Q.le_max_l (Qmax (Qmax tc bc) lc) rc).
    pose proof (Q.le_max_r (Qmax (Qmax tc bc) lc) rc).
    pose proof (Q.le_max_l (Qmax (Qmax (Qmax tc bc) lc) rc) 1).
    pose proof (Q.le_max_r (Qmax (Qmax (Qmax tc bc) lc) rc) 1).
    repeat split; lra. }
  destruct Hm as (H1 & H2 & H3 & H4 & H5).
  pose proof (unit_gap _ _ (unit_share tc m Htc H1 H5) (unit_share bc m Hbc H2 H5)).
  pose proof (unit_gap _ _ (unit_share lc m Hlc H3 H5) (unit_share rc m Hrc H4 H5)).
  destruct (Qle_bool _ _); destruct (Qle_bool _ _); destruct r;
    cbn [mk_scores]; try assumption; split; discriminate.
Qed.

(** ** The line-based skew sub-estimator, in its two variants *)

Lemma page_lengths_positive (L : Lib) (max_angle : Q) (lines : list segment) :
  hypot_positive L ->
  Forall (fun al => 0 < snd al) (detection.accepted_segments L max_angle lines).
Proof.
  intro HL. induction lines as [|[[[x1 y1] x2] y2] rest IH];
    cbn [detection.accepted_segments]; [constructor|].
  destruct (Qlt_bool (Qabs (inject_Z (x2 - x1))) 1) eqn:E1; [exact IH|].
  destruct (Qlt_bool max_angle _) eqn:E2; [exact IH|].
  constructor; [|exact IH]. cbn [snd]. apply HL. now apply Qlt_bool_false.
Qed.

Lemma stage_lengths_positive (L : Lib) (max_angle : Q) (lines : list segment) :
  hypot_positive L ->
  Forall (fun al => 0 < snd al) (stages_deskew.accepted_segments L max_angle lines).
Proof.
  intro HL. induction lines as [|[[[x1 y1] x2] y2] rest IH];
    cbn [stages_deskew.accepted_segments]; [constructor|].
  destruct (Qlt_bool (Qabs (inject_Z (x2 - x1))) 1) eqn:E1; [exact IH|].
  destruct (Qle_bool _ max_angle) eqn:E2; [|exact IH].
  constructor; [|exact IH]. cbn [snd]. apply HL. now apply Qlt_bool_false.
Qed.

Lemma Qsum_positive (l : list Q) :
  l <> [] -> Forall (fun x => 0 < x) l -> 0 < Qsum l.
Proof.
  intros Hne H. induction H as [|x l Hx Hl IH]; [congruence|].
  change (0 < x + Qsum l). destruct l as [|y l].
  - change (0 < x + 0). lra.
  - assert (0 < Qsum (y :: l)) by (apply IH; discriminate). lra.
Qed.

Lemma total_length_positive (acc : list (Q * Q)) :
  acc <> [] -> Forall (fun al => 0 < snd al) acc -> 0 < Qsum (map snd acc).
Proof.
  intros Hne H. apply Qsum_positive.
  - destruct acc; [congruence|discriminate].
  - apply Forall_map. exact H.
Qed.

Lemma page_estimate_unfold (L : Lib) (gray : gray_image) (max_angle : Q) :
  page_accepted L gray max_angle <> [] ->
  detection._detect_skew_hough L gray max_angle
  = detection.hough_estimate L (page_accepted L gray max_angle).
Proof.
  unfold page_accepted, detection._detect_skew_hough.
  destruct ((height gray <? 10)%Z || (width gray <? 10)%Z); [congruence|].
  destruct (HoughLinesP L _ _ _) as [[|l ls]|]; cbn [detection.accepted_segments];
    congruence.
Qed.

Lemma stage_estimate_unfold (L : Lib) (gray : gray_image) (max_angle : Q) :
  stage_accepted L gray max_angle <> [] ->
  exists n,
    stages_deskew.detect_skew_hough L gray max_angle
    = stages_deskew.hough_estimate L n (stage_accepted L gray max_angle).
Proof.
  unfold stage_accepted, stages_deskew.detect_skew_hough.
  destruct (HoughLinesP L _ _ _) as [[|l ls]|];
    cbn [stages_deskew.accepted_segments]; try congruence.
  intros _. eexists. reflexivity.
Qed.

(** C2, as the code has it.  When at least one segment is accepted, the
    whole-page variant returns the negation of the length-weighted mean
    angle.  The stage variant returns the length-weighted mean angle
    itself, without negation; this is stated where the stage variant
    returns a number: on an image of at least 30 columns (below, the
    dilation kernel [w // 30] is empty and [cv2] raises) whose segments
    have squared lengths that fit [np.int32]. *)
Theorem hough_angle_weighted_mean :
  forall (L : Lib) (gray : gray_image) (max_angle : Q),
    hypot_positive L ->
    (page_accepted L gray max_angle <> [] ->
     fst (detection._detect_skew_hough L gray max_angle)
     == - weighted_mean (page_accepted L gray max_angle))
    /\ ((1 <= height gray)%Z -> (30 <= width gray)%Z ->
        squares_fit_int32 (stage_lines L gray) ->
        stage_accepted L gray max_angle <> [] ->
        stages_deskew.hough_angle
          (stages_deskew.detect_skew_hough L gray max_angle)
        == weighted_mean (stage_accepted L gray max_angle)).
Proof.
  intros L gray max_angle HL. split; [intro Hne|intros _ _ _ Hne].
  - rewrite (page_estimate_unfold _ _ _ Hne).
    assert (Hpos : 0 < Qsum (map snd (page_accepted L gray max_angle))).
    { apply total_length_positive; [exact Hne|].
      unfold page_accepted.
      destruct ((height gray <? 10)%Z || (width gray <? 10)%Z); [constructor|].
      destruct (HoughLinesP L _ _ _); [|constructor].
      now apply page_lengths_positive. }
    destruct (page_accepted L gray max_angle) as [|al acc]; [congruence|].
    unfold detection.hough_estimate, weighted_mean.
    cbn [map]. cbn [map] in Hpos.
    destruct (Qle_bool _ 0) eqn:E; qbool; [exfalso; lra|].
    cbn [fst]. reflexivity.
  - destruct (stage_estimate_unfold _ _ _ Hne) as [n Hn]. rewrite Hn.
    assert (Hpos : 0 < Qsum (map snd (stage_accepted L gray max_angle))).
    { apply total_length_positive; [exact Hne|].
      unfold stage_accepted.
      destruct (HoughLinesP L _ _ _); [|constructor].
      now apply stage_lengths_positive. }
    destruct (stage_accepted L gray max_angle) as [|al acc]; [congruence|].
    unfold stages_deskew.hough_estimate, weighted_mean.
    cbn [map]. cbn [map] in Hpos.
    destruct (Qeq_bool _ 0) eqn:E; qbool; [exfalso; lra|].
    cbn [stages_deskew.hough_angle]. reflexivity.
Qed.

(** C3, as the code has it.  With n accepted angles of spread s, the
    whole-page variant reports 0.7 * max(0, 1 - s/4) + 0.3 * min(1, n/15)
    clamped to [0, 1]; the stage variant reports
    0.7 * max(0, 1 - s/5) + 0.3 * min(1, n/20). *)
Theorem hough_confidence_blend :
  forall (L : Lib) (gray : gray_image) (max_angle : Q),
    (page_accepted L gray max_angle <> [] ->
     let acc := page_accepted L gray max_angle in
     snd (detection._detect_skew_hough L gray max_angle)
     == Qmin 1 (Qmax 0 ((7 # 10) * Qmax 0 (1 - spread L acc / 4)
                        + (3 # 10) * Qmin 1 (Qlen acc / 15))))
    /\ (stage_accepted L gray max_angle <> [] ->
        let acc := stage_accepted L gray max_angle in
        stages_deskew.hough_confidence
          (stages_deskew.detect_skew_hough L gray max_angle)
        == (7 # 10) * Qmax 0 (1 - spread L acc / 5)
           + (3 # 10) * Qmin 1 (Qlen acc / 20)).
Proof.
  intros L gray max_angle. split; intros Hne acc; subst acc.
  - rewrite (page_estimate_unfold _ _ _ Hne).
    destruct (page_accepted L gray max_angle) as [|al acc]; [congruence|].
    unfold detection.hough_estimate, spread, Qlen.
    cbn [map snd length]. rewrite !length_map.
    set (s := if (1 <? S (length acc))%nat then _ else 0).
    set (n := inject_Z (Z.of_nat (S (length acc))) / 15).
    apply Q.min_compat; [reflexivity|].
    apply Q.max_compat; [reflexivity|]. ring.
  - destruct (stage_estimate_unfold _ _ _ Hne) as [k Hk]. rewrite Hk.
    destruct (stage_accepted L gray max_angle) as [|al acc]; [congruence|].
    unfold stages_deskew.hough_estimate, spread, Qlen.
    cbn [map stages_deskew.hough_confidence length]. rewrite !length_map.
    set (s := if (1 <? S (length acc))%nat then _ else 0).
    set (n := inject_Z (Z.of_nat (S (length acc))) / 20).
    ring.
Qed.

(** *** A tilted page and the segments a line detector reports on it *)

Lemma ref_sqrt_positive (q : Q) : 1 <= q -> 0 < ref_sqrt q.
Proof.
  intro H. unfold ref_sqrt, Qlt. cbn [Qnum Qden].
  unfold Qle in H. cbn [Qnum Qden] in H.
  rewrite Z.mul_1_r, Z.mul_1_l in *.
  apply Z.sqrt_pos.
  assert (Hd : (0 < Zpos (Qden q))%Z) by reflexivity.
  apply Z.lt_le_trans with (1 * 1)%Z; [reflexivity|].
  rewrite Z.mul_1_l.
  apply Z.div_le_lower_bound; [exact Hd|]. nia.
Qed.

Lemma ref_hypot_positive (lines : option (list segment)) (cs : list contour) :
  hypot_positive (replay lines cs).
Proof.
  intros dx dy H. cbn [hypot replay]. unfold ref_hypot.
  apply ref_sqrt_positive.
  assert (Hsq : 1 <= dx * dx).
  { destruct (Qlt_le_dec dx 0) as [Hn|Hp].
    - rewrite (Qabs_neg dx) in H by lra. nra.
    - rewrite (Qabs_pos dx) in H by exact Hp. nra. }
  assert (0 <= dy * dy) by nra. lra.
Qed.

Lemma hough_angle_weighted_mean_witness :
  fst (detection._detect_skew_hough tilt_lib tilted_page 15)
  == - weighted_mean (page_accepted tilt_lib tilted_page 15)
  /\ stages_deskew.hough_angle
       (stages_deskew.detect_skew_hough tilt_lib tilted_page 15)
     == weighted_mean (stage_accepted tilt_lib tilted_page 15).
Proof.
  pose proof (hough_angle_weighted_mean tilt_lib tilted_page 15
                (ref_hypot_positive _ _)) as [Hp Hs].
  split; [apply Hp; vm_compute; discriminate|apply Hs].
  - apply Z.leb_le. reflexivity.
  - apply Z.leb_le. reflexivity.
  - repeat constructor.
  - vm_compute. discriminate.
Defined.

(** The stage variant does not negate: on the tilted page (128 columns,
    three segments of 120 by 12 pixels) it returns the mean angle (about
    +5.7 degrees), not its negation. *)
Lemma stage_hough_angle_not_negated :
  (30 <= width tilted_page)%Z
  /\ squares_fit_int32 (stage_lines tilt_lib tilted_page)
  /\ stage_accepted tilt_lib tilted_page 15 <> []
  /\ ~ stages_deskew.hough_angle
         (stages_deskew.detect_skew_hough tilt_lib tilted_page 15)
       == - weighted_mean (stage_accepted tilt_lib tilted_page 15).
Proof.
  split; [apply Z.leb_le; reflexivity|].
  split; [repeat constructor|].
  split; [vm_compute; discriminate|].
  intro H. apply Qeq_bool_iff in H. vm_compute in H. discriminate.
Qed.

Lemma hough_confidence_blend_witness :
  snd (detection._detect_skew_hough tilt_lib tilted_page 15)
  == Qmin 1 (Qmax 0 ((7 # 10)
                     * Qmax 0 (1 - spread tilt_lib
                                     (page_accepted tilt_lib tilted_page 15) / 4)
                     + (3 # 10)
                       * Qmin 1 (Qlen (page_accepted tilt_lib tilted_page 15) / 15)))
  /\ stages_deskew.hough_confidence
       (stages_deskew.detect_skew_hough tilt_lib tilted_page 15)
     == (7 # 10) * Qmax 0 (1 - spread tilt_lib
                                (stage_accepted tilt_lib tilted_page 15) / 5)
        + (3 # 10) * Qmin 1 (Qlen (stage_accepted tilt_lib tilted_page 15) / 20).
Proof.
  pose proof (hough_confidence_blend tilt_lib tilted_page 15) as [Hp Hs].
  split; [apply Hp|apply Hs]; vm_compute; discriminate.
Defined.

(** The stage variant blends with other constants: with three accepted
    angles of spread 0 it reports 0.7 + 0.3 * 3/20 = 0.745, not
    0.7 + 0.3 * 3/15 = 0.76. *)
Lemma stage_hough_confidence_differs :
  let acc := stage_accepted tilt_lib tilted_page 15 in
  acc <> []
  /\ ~ stages_deskew.hough_confidence
         (stages_deskew.detect_skew_hough tilt_lib tilted_page 15)
       == Qmin 1 (Qmax 0 ((7 # 10) * Qmax 0 (1 - spread tilt_lib acc / 4)
                          + (3 # 10) * Qmin 1 (Qlen acc / 15))).
Proof.
  split; [vm_compute; discriminate|].
  intro H. apply Qeq_bool_iff in H. vm_compute in H. discriminate.
Qed.

(** ** Coordinate bounds (detection.py, split.py) *)

Lemma clamp_between (a b v : Z) :
  (a <= b)%Z -> (a <= Z.max a (Z.min b v) <= b)%Z.
Proof. lia. Qed.

Lemma int_scaled (w a : Z) (b : positive) :
  (0 <= w)%Z -> (0 <= a)%Z -> int (inject_Z w * (a # b)) = (w * a / Zpos b)%Z.
Proof.
  intros Hw Ha. unfold int.
  assert (H : 0 <= inject_Z w * (a # b)).
  { apply Qmult_le_0_compat; unfold Qle; cbn [Qnum Qden inject_Z]; lia. }
  apply Qle_bool_iff in H. rewrite H. reflexivity.
Qed.

Lemma width_nonneg (im : image) : (0 <= snd (shape im))%Z.
Proof. destruct im; cbn; unfold width; lia. Qed.

Lemma find_gutter_position_range (L : Lib) (im : image) :
  (snd (shape im) * 3 / 100 <= split.find_gutter_position L im
   <= snd (shape im) * 97 / 100)%Z.
Proof.
  pose proof (width_nonneg im) as Hw.
  unfold split.find_gutter_position.
  destruct (shape im) as [h w]. cbn [snd] in *.
  destruct (split._resize_for_analysis L (split._to_gray L im) 1500)
    as [gray_small scale].
  cbv zeta.
  destruct (_ <=? _)%Z.
  - Z.div_mod_to_equations. lia.
  - rewrite (int_scaled w 3 100), (int_scaled w 97 100) by lia.
    match goal with
    | |- context [if ?c then (20 # 100, _, _) else _] => destruct c
    end;
    match goal with
    | |- context [split._band_edges ?c ?i] => destruct (split._band_edges c i)
    end;
    apply clamp_between; apply Z.div_le_mono; lia.
Qed.

Lemma ref_gray_keeps_shape (lines : option (list segment)) (cs : list contour)
  (im : image) :
  gray_keeps_shape (replay lines cs) im.
Proof.
  destruct im as [g|c]; [reflexivity|].
  unfold gray_keeps_shape. cbn [detection._to_gray cvtColor replay shape].
  unfold ref_cvtColor, amap, height, width, ncols.
  rewrite length_map. destruct c as [|row c]; [reflexivity|].
  cbn [map hd]. now rewrite length_map.
Qed.

(** C7. On an image of positive width w and height h, a box returned by
    [detect_content_bounds] lies inside the image: 0 <= x, 0 <= y,
    width and height at least 1, x + width <= w and y + height <= h.
    [find_gutter_position] always returns x with
    floor(0.03 w) <= x <= floor(0.97 w), hence 0 <= x <= w.  Neither
    depends on whether the analysis copy was downscaled. *)
Theorem results_in_original_coordinates :
  forall (L : Lib) (im : image),
    let h := fst (shape im) in
    let w := snd (shape im) in
    (forall b : detection.bounds,
        gray_keeps_shape L im -> (1 <= h)%Z -> (1 <= w)%Z ->
        detection.detect_content_bounds L im = Some b ->
        (0 <= detection.x b /\ 0 <= detection.y b
         /\ 1 <= detection.bwidth b /\ 1 <= detection.bheight b
         /\ detection.x b + detection.bwidth b <= w
         /\ detection.y b + detection.bheight b <= h)%Z)
    /\ (w * 3 / 100 <= split.find_gutter_position L im <= w * 97 / 100)%Z
    /\ (0 <= split.find_gutter_position L im <= w)%Z.
Proof.
  intros L im h w. split; [|split].
  - intros b Hshape Hh Hw. subst h w. rewrite <- Hshape in Hh, Hw.
    rewrite <- Hshape. cbn [fst snd] in *.
    unfold detection.detect_content_bounds.
    destruct (detection._resize_for_analysis L (detection._to_gray L im) 1500)
      as [gray_small scale].
    cbv zeta.
    destruct (detection.flatnonzero (map detection.reduce_max _)) as [|y0 ys];
      [discriminate|].
    destruct (detection.flatnonzero (map detection.reduce_max _)) as [|x0 xs];
      [discriminate|].
    destruct (_ || _); [discriminate|].
    intro Hb. inversion Hb; subst b; clear Hb.
    cbn [detection.x detection.y detection.bwidth detection.bheight]. lia.
  - apply find_gutter_position_range.
  - pose proof (find_gutter_position_range L im) as Hr.
    pose proof (width_nonneg im) as Hw. fold w in Hr, Hw.
    revert Hr. generalize (split.find_gutter_position L im). intros g Hr.
    Z.div_mod_to_equations. lia.
Qed.

Lemma results_in_original_coordinates_witness :
  detection.detect_content_bounds ref_lib framed_block
  = Some {| detection.x := 1; detection.y := 1;
            detection.bwidth := 4; detection.bheight := 4 |}
  /\ (1 + 4 <= snd (shape framed_block))%Z
  /\ (0 <= split.find_gutter_position ref_lib framed_block
      <= snd (shape framed_block))%Z.
Proof.
  pose proof (results_in_original_coordinates ref_lib framed_block) as (Hb & _ & Hg).
  assert (E : detection.detect_content_bounds ref_lib framed_block
              = Some {| detection.x := 1; detection.y := 1;
                        detection.bwidth := 4; detection.bheight := 4 |})
    by reflexivity.
  assert (Hs : gray_keeps_shape ref_lib framed_block) by reflexivity.
  assert (H1 : (1 <= fst (shape framed_block))%Z) by (cbn; lia).
  assert (H2 : (1 <= snd (shape framed_block))%Z) by (cbn; lia).
  split; [exact E|]. split; [|exact Hg].
  exact (proj1 (proj2 (proj2 (proj2 (proj2 (Hb _ Hs H1 H2 E))))) ).
Defined.

(** ** The curvature score, in its two variants *)

Lemma Qsum_nonneg (l : list Q) : Forall (fun v => 0 <= v) l -> 0 <= Qsum l.
Proof.
  induction 1 as [|v l Hv Hl IH].
  - apply Qle_refl.
  - change (0 <= v + Qsum l). lra.
Qed.

Lemma mean_nonneg (l : list Q) : Forall (fun v => 0 <= v) l -> 0 <= mean l.
Proof.
  intro H. unfold mean, Qdiv.
  apply Qmult_le_0_compat; [now apply Qsum_nonneg|].
  apply Qinv_le_0_compat. unfold Qlen, Qle. cbn [Qnum Qden inject_Z]. lia.
Qed.

Lemma stage_line_curvatures_nonneg (L : Lib) (w : Z) (lines : list contour) :
  (0 <= w)%Z -> Forall (fun v => 0 <= v) (stages_dewarp.line_curvatures L w lines).
Proof.
  intro Hw. induction lines as [|c rest IH];
    cbn [stages_dewarp.line_curvatures]; [constructor|].
  destruct (length c <? 10)%nat; [exact IH|].
  destruct (polyfit2 L _ _) as [c0|]; [|exact IH].
  constructor; [|exact IH].
  apply Qmult_le_0_compat; [apply Qabs_nonneg|].
  unfold Qle. cbn [Qnum Qden inject_Z]. lia.
Qed.

Lemma page_line_curvatures_nonneg (L : Lib) (w : Z) (lines : list contour) :
  (0 <= w)%Z -> Forall (fun v => 0 <= v) (detection.line_curvatures L w lines).
Proof.
  intro Hw. induction lines as [|c rest IH];
    cbn [detection.line_curvatures]; [constructor|].
  destruct (length c <? 10)%nat; [exact IH|].
  destruct (polyfit2 L _ _) as [c0|]; [|exact IH].
  constructor; [|exact IH].
  apply Qmult_le_0_compat; [apply Qabs_nonneg|].
  unfold Qle. cbn [Qnum Qden inject_Z]. lia.
Qed.

Lemma width_array_nonneg {P} (a : array2 P) : (0 <= width a)%Z.
Proof. unfold width. lia. Qed.

(** C1, as the code has it.  Both scorers return only on at least 20
    columns (below, the dilation kernel [w // 20] is empty and [cv2]
    raises): the stage scorer on the image it is given, the whole-page
    scorer on its analysis copy.  There, the stage scorer
    ([detect_curvature_lines], whose score [detect_dewarp] reports)
    returns the mean per-line curvature divided by 10 and capped at 1, a
    value in [0, 1], and 0 when no line is usable.  The whole-page scorer
    [detect_curvature] returns the mean per-line curvature itself, neither
    divided nor capped; it is non-negative, and 0 when no line is
    usable. *)
Theorem curvature_scores :
  forall (L : Lib) (available : bool) (im : image) (gray : gray_image)
         (min_curvature : Q),
    (1 <= height gray)%Z -> (20 <= width gray)%Z ->
    (1 <= height (analysis_copy L im))%Z ->
    (20 <= width (analysis_copy L im))%Z ->
    let stage := stages_dewarp.detect_curvature_lines L gray in
    stages_dewarp.score stage
    = match stage_curvatures L gray with
      | [] => 0
      | _ => Qmin 1 (mean (stage_curvatures L gray) / 10)
      end
    /\ 0 <= stages_dewarp.score stage <= 1
    /\ stages_dewarp.curvature_score
         (stages_dewarp.detect_dewarp L available gray min_curvature)
       = stages_dewarp.score stage
    /\ detection.detect_curvature L im
       = match page_curvatures L im with
         | [] => 0
         | _ => mean (page_curvatures L im)
         end
    /\ 0 <= detection.detect_curvature L im.
Proof.
  intros L available im gray min_curvature _ _ _ _ stage.
  assert (Hs : stages_dewarp.score stage
               = match stage_curvatures L gray with
                 | [] => 0
                 | _ => Qmin 1 (mean (stage_curvatures L gray) / 10)
                 end).
  { subst stage. unfold stages_dewarp.detect_curvature_lines, stage_curvatures.
    cbv zeta. destruct (_ <? 3)%nat; [reflexivity|].
    destruct (stages_dewarp.line_curvatures L _ _); reflexivity. }
  assert (Hp : detection.detect_curvature L im
               = match page_curvatures L im with
                 | [] => 0
                 | _ => mean (page_curvatures L im)
                 end).
  { unfold detection.detect_curvature, page_curvatures.
    cbv zeta. destruct (_ <? 3)%nat; [reflexivity|].
    destruct (detection.line_curvatures L _ _); reflexivity. }
  split; [exact Hs|]. split; [|split; [reflexivity|split; [exact Hp|]]].
  - rewrite Hs.
    assert (Hn : 0 <= mean (stage_curvatures L gray)).
    { apply mean_nonneg. unfold stage_curvatures. cbv zeta.
      destruct (_ <? 3)%nat; [constructor|].
      apply stage_line_curvatures_nonneg, width_array_nonneg. }
    destruct (stage_curvatures L gray); [split; discriminate|].
    split; [|apply Q.le_min_l].
    apply Q.min_glb; [discriminate|].
    apply Qmult_le_0_compat; [exact Hn|discriminate].
  - rewrite Hp.
    assert (Hn : 0 <= mean (page_curvatures L im)).
    { apply mean_nonneg. unfold page_curvatures. cbv zeta.
      destruct (_ <? 3)%nat; [constructor|].
      apply page_line_curvatures_nonneg, width_array_nonneg. }
    destruct (page_curvatures L im); [apply Qle_refl|exact Hn].
Qed.

(** *** A bowed page and the contours a contour extractor reports on it *)

(** On the bowed page (100 x 100) both scorers return: the stage score
    is in [0, 1] and the whole-page score is non-negative. *)
Lemma curvature_scores_witness :
  0 <= stages_dewarp.score
         (stages_dewarp.detect_curvature_lines bow_lib bowed_gray) <= 1
  /\ 0 <= detection.detect_curvature bow_lib bowed_page.
Proof.
  assert (H1 : (1 <= height bowed_gray)%Z) by (apply Z.leb_le; reflexivity).
  assert (H2 : (20 <= width bowed_gray)%Z) by (apply Z.leb_le; reflexivity).
  assert (H3 : (1 <= height (analysis_copy bow_lib bowed_page))%Z)
    by (apply Z.leb_le; reflexivity).
  assert (H4 : (20 <= width (analysis_copy bow_lib bowed_page))%Z)
    by (apply Z.leb_le; reflexivity).
  pose proof (curvature_scores bow_lib true bowed_page bowed_gray 0
                H1 H2 H3 H4) as (_ & Hs & _ & _ & Hp).
  split; [exact Hs|exact Hp].
Defined.

(** The whole-page scorer does not normalise: on the bowed page (100
    columns, so that the scorer returns) the mean curvature is about 2,
    and that is what it returns, neither 2/10 nor a value capped at 1. *)
Lemma detect_curvature_exceeds_one :
  (20 <= width (analysis_copy bow_lib bowed_page))%Z
  /\ 1 < detection.detect_curvature bow_lib bowed_page
  /\ ~ detection.detect_curvature bow_lib bowed_page
       == Qmin 1 (mean (page_curvatures bow_lib bowed_page) / 10).
Proof.
  split; [apply Z.leb_le; reflexivity|]. split.
  - vm_compute. reflexivity.
  - intro H. apply Qeq_bool_iff in H. vm_compute in H. discriminate.
Qed.

(** ** Blank pages: contrast, content and curvature *)

Lemma height_uniform (v : pixel) (h w : nat) : height (uniform v h w) = Z.of_nat h.
Proof. unfold height, uniform. now rewrite repeat_length. Qed.

Lemma width_uniform (v : pixel) (h w : nat) :
  (0 < h)%nat -> width (uniform v h w) = Z.of_nat w.
Proof.
  intro H. unfold width, ncols, uniform.
  destruct h as [|h]; [lia|]. cbn [repeat hd]. now rewrite repeat_length.
Qed.

Lemma flatten_uniform (v : pixel) (h w : nat) :
  flatten (uniform v h w) = repeat v (h * w).
Proof.
  unfold flatten, uniform. induction h as [|h IH]; [reflexivity|].
  cbn [repeat concat Nat.mul]. now rewrite IH, repeat_app.
Qed.

Lemma amap_uniform (f : pixel -> pixel) (v : pixel) (h w : nat) :
  amap f (uniform v h w) = uniform (f v) h w.
Proof. unfold amap, uniform. now rewrite !map_repeat. Qed.

(** The analysis copy of a uniform raster is uniform. *)
Lemma analysis_of_uniform (L : Lib) (v : pixel) (h w : nat) :
  resize_keeps_uniform L -> (0 < h)%nat -> (0 < w)%nat ->
  exists h' w' : nat,
    (0 < h')%nat /\ (0 < w')%nat
    /\ fst (detection._resize_for_analysis L (uniform v h w) 1500)
       = uniform v h' w'.
Proof.
  intros HL Hh Hw. unfold detection._resize_for_analysis.
  destruct (_ <=? 1500)%Z.
  - exists h, w. auto.
  - cbn [fst]. rewrite HL by assumption.
    eexists _, _. split; [|split; [|reflexivity]]; lia.
Qed.

Lemma threshold_white (L : Lib) (h w : nat) :
  otsu_below_white L ->
  threshold_binary_inv_otsu L (uniform 255%Z h w) = uniform 0%Z h w.
Proof.
  intro HL. unfold threshold_binary_inv_otsu. rewrite amap_uniform.
  specialize (HL h w). destruct (Z.ltb_spec (otsu L (uniform 255%Z h w)) 255);
    [reflexivity|lia].
Qed.

(** A white page has no contrast: the skew detector answers 0. *)
Lemma blank_skew_angle (L : Lib) (h w : nat) :
  resize_keeps_uniform L -> std_of_constant L ->
  (0 < h)%nat -> (0 < w)%nat ->
  detection.detect_skew_angle L (white h w) = 0.
Proof.
  intros HR HS Hh Hw. unfold detection.detect_skew_angle, white.
  cbn [detection._to_gray].
  destruct (analysis_of_uniform L 255%Z h w HR Hh Hw) as (h' & w' & _ & _ & E).
  rewrite E, flatten_uniform, map_repeat.
  assert (Hlt : std L (repeat (inject_Z 255) (h' * w')) < 5)
    by (pose proof (HS (inject_Z 255) (h' * w')%nat); lra).
  apply Qlt_bool_true in Hlt. now rewrite Hlt.
Qed.

Lemma mapi_length {A B} (f : nat -> A -> B) (l : list A) :
  length (mapi f l) = length l.
Proof.
  unfold mapi. rewrite length_map, length_combine, length_seq. lia.
Qed.

Lemma mapi_Forall {A B} (P : B -> Prop) (f : nat -> A -> B) (l : list A) :
  (forall i a, In a l -> P (f i a)) -> Forall P (mapi f l).
Proof.
  intro H. unfold mapi. apply Forall_map, Forall_forall.
  intros [i a] Hin. apply in_combine_r in Hin. cbn. now apply H.
Qed.

Lemma uniform_all_zero (h w : nat) : all_zero (uniform 0%Z h w).
Proof.
  unfold all_zero, uniform. apply Forall_forall. intros row Hrow.
  apply repeat_spec in Hrow. subst row.
  apply Forall_forall. intros p Hp. apply repeat_spec in Hp. now subst p.
Qed.

Lemma zero_border_all_zero (border : nat) (g : gray_image) :
  all_zero g -> all_zero (detection.zero_border border g).
Proof.
  intro H. unfold detection.zero_border. apply mapi_Forall.
  intros r row Hrow. apply mapi_Forall. intros c p Hp.
  destruct (_ || _); [reflexivity|].
  unfold all_zero in H. rewrite Forall_forall in H.
  specialize (H row Hrow). rewrite Forall_forall in H. now apply H.
Qed.

Lemma reduce_max_zero (l : list Z) : Forall (eq 0%Z) l -> detection.reduce_max l = 0%Z.
Proof.
  induction 1 as [|p l Hp Hl IH]; [reflexivity|].
  subst p. change (Z.max 0 (detection.reduce_max l) = 0%Z). rewrite IH. reflexivity.
Qed.

Lemma flatnonzero_zero (l : list Z) : Forall (eq 0%Z) l -> detection.flatnonzero l = [].
Proof.
  intro H. unfold detection.flatnonzero.
  generalize 0%nat. induction H as [|p l Hp Hl IH]; intro s; [reflexivity|].
  subst p. cbn. apply IH.
Qed.

(** A white page has no content: the bounds locator answers absent. *)
Lemma blank_content_bounds (L : Lib) (h w : nat) :
  resize_keeps_uniform L -> otsu_below_white L ->
  (0 < h)%nat -> (0 < w)%nat ->
  detection.detect_content_bounds L (white h w) = None.
Proof.
  intros HR HO Hh Hw. unfold detection.detect_content_bounds, white.
  cbn [detection._to_gray].
  destruct (analysis_of_uniform L 255%Z h w HR Hh Hw) as (h' & w' & _ & _ & E).
  destruct (detection._resize_for_analysis L (uniform 255%Z h w) 1500)
    as [gray_small scale].
  cbn [fst] in E. subst gray_small. cbv zeta.
  rewrite (threshold_white L h' w' HO).
  set (binary := if (0 <? _)%Z then _ else _).
  assert (Hz : all_zero binary).
  { subst binary. destruct (0 <? _)%Z;
      [apply zero_border_all_zero|]; apply uniform_all_zero. }
  assert (Hrows : detection.flatnonzero (map detection.reduce_max binary) = []).
  { apply flatnonzero_zero, Forall_map.
    eapply Forall_impl; [|exact Hz]. intros row Hrow. cbn.
    symmetry. now apply reduce_max_zero. }
  now rewrite Hrows.
Qed.

(** A white page has no text line: where the curvature scorer returns
    (an analysis copy of at least 20 columns), it answers 0. *)
Lemma blank_curvature (L : Lib) (h w : nat) :
  resize_keeps_uniform L -> otsu_below_white L ->
  dilate_keeps_black L -> no_contour_in_black L ->
  (0 < h)%nat -> (0 < w)%nat ->
  (20 <= width (analysis_copy L (white h w)))%Z ->
  detection.detect_curvature L (white h w) = 0.
Proof.
  intros HR HO HD HC Hh Hw. unfold analysis_copy, detection.detect_curvature, white.
  cbn [detection._to_gray].
  destruct (analysis_of_uniform L 255%Z h w HR Hh Hw) as (h' & w' & Hh' & _ & E).
  rewrite E. cbv zeta. intro H20.
  rewrite (threshold_white L h' w' HO), HD, HC; [reflexivity|].
  revert H20. generalize (width (uniform 255%Z h' w')). intros n Hn.
  Z.div_mod_to_equations. lia.
Qed.

(** ** Blank pages: the facing-page classifier on rasters at least 10
    pixels wide *)

Section Uniform.
Context {A : Type}.

Lemma slice_repeat (lo hi : option Z) (v : A) (n : nat) :
  slice lo hi (repeat v n) = repeat v (length (slice lo hi (repeat v n))).
Proof.
  apply Forall_eq_repeat, Forall_slice, Forall_forall.
  intros p Hp. now apply repeat_spec in Hp.
Qed.

Lemma every_from_repeat (k c : nat) (v : A) (n : nat) :
  every_from k c (repeat v n) = repeat v (length (every_from k c (repeat v n))).
Proof.
  apply Forall_eq_repeat.
  revert c. induction n as [|n IH]; intro c; cbn; [constructor|].
  destruct c; [constructor; [reflexivity|]|]; apply IH.
Qed.

End Uniform.

Lemma rows_step_repeat {A} (lo hi : option Z) (k : nat) (v : list A) (n : nat) :
  rows_step lo hi k (repeat v n)
  = repeat v (length (rows_step lo hi k (repeat v n))).
Proof.
  unfold rows_step, every. rewrite (slice_repeat lo hi v n).
  apply every_from_repeat.
Qed.

Lemma cols_repeat {A} (lo hi : option Z) (v : A) (h w : nat) :
  cols lo hi (repeat (repeat v w) h)
  = repeat (repeat v (length (slice lo hi (repeat v w)))) h.
Proof.
  unfold cols. rewrite map_repeat. f_equal. apply slice_repeat.
Qed.

Lemma columns_repeat {A} (d v : A) (h w : nat) :
  (0 < h)%nat -> columns d (repeat (repeat v w) h) = repeat (repeat v h) w.
Proof.
  intro Hh. unfold columns, ncols.
  destruct h as [|h]; [lia|]. cbn [repeat hd]. rewrite repeat_length.
  change (repeat v w :: repeat (repeat v w) h) with (repeat (repeat v w) (S h)).
  rewrite <- (length_seq w 0) at 3. rewrite <- map_const.
  apply map_ext_in. intros j Hj. apply in_seq in Hj.
  unfold column. rewrite map_repeat, nth_repeat_lt by lia. reflexivity.
Qed.

Lemma Qsum_near (c : Q) (l : list Q) : near c l -> Qsum l == Qlen l * c.
Proof.
  unfold Qlen. induction 1 as [|v l Hv Hl IH].
  - cbn. ring.
  - change (v + Qsum l == inject_Z (Z.of_nat (S (length l))) * c).
    rewrite IH, Hv, Nat2Z.inj_succ. unfold Z.succ. rewrite inject_Z_plus. ring.
Qed.

Lemma repeat_near (c : Q) (n : nat) : near c (repeat c n).
Proof.
  apply Forall_forall. intros v Hv. apply repeat_spec in Hv. now subst.
Qed.

Lemma near_trans (c d : Q) (l : list Q) : c == d -> near c l -> near d l.
Proof.
  intros E H. eapply Forall_impl; [|exact H]. cbn. intros v Hv.
  now rewrite Hv.
Qed.

Lemma mean_near_zero (l : list Q) : near 0 l -> mean l == 0.
Proof.
  intro H. unfold mean. rewrite (Qsum_near 0 l H). unfold Qdiv. ring.
Qed.

Lemma mean_near (c : Q) (l : list Q) : l <> [] -> near c l -> mean l == c.
Proof.
  intros Hne H. unfold mean. rewrite (Qsum_near c l H).
  assert (Hn : ~ Qlen l == 0).
  { unfold Qlen, Qeq. cbn [Qnum Qden inject_Z].
    destruct l; [congruence|]. cbn [length]. lia. }
  field. exact Hn.
Qed.

Lemma Qminimum_near (c x : Q) (t : list Q) :
  x == c -> near c t -> Qminimum x t == c.
Proof.
  unfold Qminimum. intros Hx Ht. revert x Hx.
  induction Ht as [|v t Hv Ht IH]; intros x Hx; cbn [fold_left]; [exact Hx|].
  apply IH. rewrite Hx, Hv. apply Q.min_id.
Qed.

Lemma Qmaximum_near (c x : Q) (t : list Q) :
  x == c -> near c t -> Qmaximum x t == c.
Proof.
  unfold Qmaximum. intros Hx Ht. revert x Hx.
  induction Ht as [|v t Hv Ht IH]; intros x Hx; cbn [fold_left]; [exact Hx|].
  apply IH. rewrite Hx, Hv. apply Q.max_id.
Qed.

Lemma nth_near (c : Q) (l : list Q) (i : nat) (d : Q) :
  near c l -> (i < length l)%nat -> nth i l d == c.
Proof.
  intros H Hi. unfold near in H. rewrite Forall_forall in H.
  apply H, nth_In, Hi.
Qed.

(** The saddle search finds nothing on a flat zero curve. *)
Lemma accumulate_from_near (m : Q) (l : list Q) :
  m == 0 -> near 0 l -> near 0 (detection.accumulate_from m l).
Proof.
  intros Hm H. revert m Hm. induction H as [|v l Hv Hl IH]; intros m Hm;
    cbn [detection.accumulate_from]; [constructor|].
  assert (E : Qmax m v == 0) by (rewrite Hm, Hv; apply Q.max_id).
  constructor; [exact E|]. apply IH, E.
Qed.

Lemma maximum_accumulate_near (l : list Q) :
  near 0 l -> near 0 (detection.maximum_accumulate l).
Proof.
  intro H. destruct H as [|v l Hv Hl]; cbn [detection.maximum_accumulate];
    [constructor|].
  constructor; [exact Hv|]. now apply accumulate_from_near.
Qed.

Lemma near_rev (c : Q) (l : list Q) : near c l -> near c (rev l).
Proof. apply Forall_rev. Qed.

Lemma near_removelast (c : Q) (l : list Q) : near c l -> near c (removelast l).
Proof.
  induction 1 as [|v l Hv Hl IH]; cbn [removelast]; [constructor|].
  destruct l; [constructor|]. constructor; assumption.
Qed.

Lemma near_tl (c : Q) (l : list Q) : near c l -> near c (tl l).
Proof. destruct 1; [constructor|assumption]. Qed.

Lemma near_combine (c d : Q) (f : Q * Q -> Q) (a b : list Q) (e : Q) :
  (forall u v, u == c -> v == d -> f (u, v) == e) ->
  near c a -> near d b -> near e (map f (combine a b)).
Proof.
  intros Hf Ha Hb. apply Forall_map, Forall_forall. intros [u v] Hin.
  unfold near in Ha, Hb. rewrite Forall_forall in Ha, Hb.
  apply Hf; [eapply Ha, in_combine_l, Hin|eapply Hb, in_combine_r, Hin].
Qed.

Lemma mask_ends_values (pad : nat) (score : list Q) (i : nat) :
  near 0 score ->
  match nth i (mask_ends pad score) NegInf with
  | NegInf => True
  | Fin q => q == 0
  end.
Proof.
  intro H. unfold mask_ends.
  destruct (Nat.lt_ge_cases i (length score)) as [Hi|Hi].
  - rewrite (nth_indep _ NegInf (if (0 <? pad)%nat || (length score - pad <=? 0)%nat
                                 then NegInf else Fin (nth 0 score 0)))
      by (rewrite length_map, length_seq; exact Hi).
    rewrite (map_nth (fun j => if (j <? pad)%nat || (length score - pad <=? j)%nat
                               then NegInf else Fin (nth j score 0))).
    rewrite seq_nth by exact Hi. cbn [Nat.add].
    destruct (_ || _); [exact I|]. now apply nth_near.
  - rewrite nth_overflow; [exact I|]. now rewrite length_map, length_seq.
Qed.

Lemma saddle_of_zero_curve (curve : list Q) :
  near 0 curve -> snd (detection._best_saddle_valley curve) = 0.
Proof.
  intro H. unfold detection._best_saddle_valley. cbv zeta.
  destruct (_ <? 3)%Z; [reflexivity|].
  set (min_peak := map _ (combine (0 :: _) _)).
  set (score := map _ (combine min_peak curve)).
  assert (Hmp : near 0 min_peak).
  { subst min_peak.
    apply (near_combine 0 0).
    - intros u v Hu Hv. cbn [fst snd]. rewrite Hu, Hv. apply Q.min_id.
    - constructor; [reflexivity|].
      now apply near_removelast, maximum_accumulate_near.
    - apply Forall_app. split; [|constructor; [reflexivity|constructor]].
      now apply near_tl, near_rev, maximum_accumulate_near, near_rev. }
  assert (Hsc : near 0 score).
  { subst score. apply (near_combine 0 0); [|exact Hmp|exact H].
    intros u v Hu Hv. cbn [fst snd]. rewrite Hu, Hv. ring. }
  match goal with
  | |- context [nth ?i (mask_ends ?p score) NegInf] =>
      pose proof (mask_ends_values p score i Hsc) as Hv;
      destruct (nth i (mask_ends p score) NegInf) as [|q]
  end; [reflexivity|].
  assert (Hq : Qle_bool q 0 = true) by (apply Qle_bool_iff; lra).
  now rewrite Hq.
Qed.

Lemma amap_repeat {P R} (f : P -> R) (v : P) (h w : nat) :
  amap f (repeat (repeat v w) h) = repeat (repeat (f v) w) h.
Proof. unfold amap. now rewrite !map_repeat. Qed.

Lemma sum_axis0_repeat (c : Q) (h w : nat) :
  (0 < h)%nat ->
  sum_axis0 (repeat (repeat c w) h) = repeat (Qsum (repeat c h)) w.
Proof.
  intro H. unfold sum_axis0. now rewrite columns_repeat, map_repeat.
Qed.

Lemma mean_axis0_repeat (c : Q) (h w : nat) :
  (0 < h)%nat ->
  mean_axis0 (repeat (repeat c w) h) = repeat (mean (repeat c h)) w.
Proof.
  intro H. unfold mean_axis0. now rewrite columns_repeat, map_repeat.
Qed.

Lemma Qsum_repeat_zero (n : nat) : Qsum (repeat 0 n) == 0.
Proof. rewrite (Qsum_near 0); [ring|apply repeat_near]. Qed.

Lemma mean_repeat (c : Q) (n : nat) : (0 < n)%nat -> mean (repeat c n) == c.
Proof.
  intro H. apply mean_near; [|apply repeat_near].
  destruct n; [lia|discriminate].
Qed.

Section BlankWindow.
Variable L : Lib.
Hypothesis HB : blur_of_constant L.
Hypothesis HP : percentile_of_constant L.

Lemma smooth_near (c : Q) (n : nat) (k : Z) :
  length (detection._smooth_1d L (repeat c n) k) = n
  /\ near c (detection._smooth_1d L (repeat c n) k).
Proof.
  unfold detection._smooth_1d.
  destruct n as [|n]; [split; [reflexivity|constructor]|].
  cbn [repeat]. change (c :: repeat c n) with (repeat c (S n)). apply HB.
Qed.

Lemma smooth_near_of (c d : Q) (n : nat) (k : Z) :
  c == d -> near d (detection._smooth_1d L (repeat c n) k).
Proof.
  intro E. apply (near_trans c d); [exact E|]. apply smooth_near.
Qed.

(** On a white window without edges the three confidences are 0. *)
Lemma window_confidences_blank (h w : nat) (h_s start end_ : Z) :
  (0 < h)%nat ->
  let '(valley_conf, edge_conf, shadow_conf) :=
    detection.window_confidences L (uniform 255%Z h w) (uniform 0%Z h w)
                                 h_s start end_ in
  valley_conf = 0 /\ edge_conf = 0 /\ shadow_conf == 0.
Proof.
  intro Hh. unfold detection.window_confidences, uniform, detection.invert, to_float.
  cbv zeta. rewrite !cols_repeat.
  set (rw := length (slice (Some start) (Some end_) (repeat 255%Z w))).
  set (rw' := length (slice (Some start) (Some end_) (repeat 0%Z w))).
  rewrite !amap_repeat. rewrite !sum_axis0_repeat by exact Hh.
  split; [|split].
  - apply saddle_of_zero_curve.
    apply smooth_near_of. apply Qsum_repeat_zero.
  - apply saddle_of_zero_curve.
    apply smooth_near_of. apply Qsum_repeat_zero.
  - match goal with
    | |- context [amap inject_Z ?s] => set (sample := amap inject_Z s)
    end.
    assert (Hs : exists m, (0 < m)%nat
                           /\ sample = repeat (repeat (inject_Z 255) rw) m).
    { subst sample. destruct (4 <? h_s)%Z.
      - rewrite rows_step_repeat, amap_repeat. eexists. split; [|reflexivity].
        unfold rows_step, every. rewrite slice_repeat.
        destruct h as [|h']; [lia|].
        unfold slice. rewrite repeat_length, firstn_all. cbn. lia.
      - rewrite amap_repeat. exists h. auto. }
    destruct Hs as (m & Hm & ->).
    rewrite columns_repeat, map_repeat by exact Hm.
    set (p := percentile90 L (repeat (inject_Z 255) m)).
    assert (Hp : p == 255) by (apply HP; exact Hm).
    match goal with
    | |- context [detection._smooth_1d L (repeat p rw) ?k0] => set (k := k0)
    end.
    pose proof (smooth_near_of p 255 rw k Hp) as Hn.
    destruct (detection._smooth_1d L (repeat p rw) k) as [|b bs] eqn:E.
    + reflexivity.
    + assert (Hmean : mean (b :: bs) == 255)
        by (apply mean_near; [discriminate|exact Hn]).
      assert (Hmin : Qminimum b bs == 255).
      { inversion Hn; subst. now apply Qminimum_near. }
      destruct (Qlt_bool 0 (mean (b :: bs))); [|reflexivity].
      rewrite Hmean, Hmin. reflexivity.
Qed.

End BlankWindow.

Lemma every_from_nonempty {A} (k : nat) (l : list A) :
  l <> [] -> (0 < length (every k l))%nat.
Proof.
  intro H. destruct l as [|a l]; [congruence|]. cbn. lia.
Qed.

Lemma asize_repeat {A} (row : list A) (m : nat) :
  detection.asize (repeat row m) = (m * length row)%nat.
Proof.
  unfold detection.asize, flatten. induction m as [|m IH]; [reflexivity|].
  cbn [repeat concat]. rewrite length_app, IH. reflexivity.
Qed.

Lemma slice_length {A} (a b : Z) (l : list A) :
  (0 <= a <= b)%Z -> (b <= Z.of_nat (length l))%Z ->
  length (slice (Some a) (Some b) l) = Z.to_nat (b - a).
Proof.
  intros Hab Hb. unfold slice.
  rewrite !norm_idx_nonneg by lia.
  rewrite length_skipn, length_firstn. lia.
Qed.

Lemma slice_to_length {A} (b : Z) (l : list A) :
  (0 <= b <= Z.of_nat (length l))%Z ->
  length (slice None (Some b) l) = Z.to_nat b.
Proof.
  intro Hb. rewrite slice_to by lia. rewrite length_firstn. lia.
Qed.

Lemma slice_tail_length {A} (b : Z) (l : list A) :
  (0 < b <= Z.of_nat (length l))%Z ->
  length (slice (Some (- b)%Z) None l) = Z.to_nat b.
Proof.
  intro Hb. unfold slice, norm_idx.
  destruct (Z.ltb_spec (- b) 0); [|lia].
  rewrite firstn_all, length_skipn. lia.
Qed.

Lemma density_black (h w : nat) :
  detection.density (repeat (repeat 0%Z w) h) == 0.
Proof.
  unfold detection.density.
  change (repeat (repeat 0%Z w) h) with (uniform 0%Z h w).
  rewrite flatten_uniform, map_repeat. cbn [Z.ltb Z.compare].
  apply mean_near_zero, repeat_near.
Qed.

Lemma mean_all_white (h w : nat) :
  (0 < h)%nat -> (0 < w)%nat ->
  detection.mean_all (repeat (repeat 255%Z w) h) == 255.
Proof.
  intros Hh Hw. unfold detection.mean_all.
  change (repeat (repeat 255%Z w) h) with (uniform 255%Z h w).
  rewrite flatten_uniform, map_repeat. apply mean_repeat. nia.
Qed.

Section BlankFallback.
Variable L : Lib.
Hypothesis HB : blur_of_constant L.

(** The gutter-based fallback finds neither an ink valley nor a shadow
    dip on a white raster without edges, wherever the gutter is put. *)
Lemma gutter_fallback_blank (im : image) (w0 : Z) (h w : nat) :
  (0 < h)%nat -> (0 < w)%nat ->
  detection.gutter_fallback L im (uniform 255%Z h w) (uniform 0%Z h w)
                            w0 (Z.of_nat h) (Z.of_nat w) = false.
Proof.
  intros Hh Hw. unfold detection.gutter_fallback, uniform, detection.invert, to_float.
  cbv zeta.
  generalize (split.find_gutter_position L im). intro gutter_x.
  set (gx := Z.max 0 (Z.min (Z.of_nat w - 1) _)).
  assert (Hgx : (Z.to_nat gx < w)%nat) by lia.
  clearbody gx.
  rewrite !amap_repeat, sum_axis0_repeat by exact Hh.
  match goal with
  | |- context [detection._smooth_1d L (repeat (Qsum ?z) w) ?k0] =>
      pose proof (smooth_near_of L HB (Qsum z) 0 w k0 (Qsum_repeat_zero h)) as Hpf;
      set (pf := detection._smooth_1d L (repeat (Qsum z) w) k0) in *
  end.
  assert (Hink : Qlt_bool 0 (match pf with [] => 0 | _ => mean pf end) = false).
  { apply Qlt_bool_false. destruct pf; [apply Qle_refl|].
    rewrite (mean_near_zero _ Hpf). apply Qle_refl. }
  rewrite Hink.
  change (Qle_bool (12 # 100) 0) with false.
  change (Qle_bool (20 # 100) 0) with false.
  cbn [andb].
  apply andb_false_intro2, Qle_bool_false.
  match goal with
  | |- context [mean_axis0 (amap inject_Z ?s)] => set (sample := amap inject_Z s)
  end.
  assert (Hs : exists m, (0 < m)%nat
                         /\ sample = repeat (repeat (inject_Z 255) w) m).
  { subst sample.
    match goal with
    | |- context [rows_step None None 4 (repeat ?r h)] => set (row := r)
    end.
    assert (Hrow : length row = w) by apply repeat_length.
    assert (Htop : forall lo hi k,
               exists m, rows_step lo hi k (repeat row h) = repeat row m)
      by (intros; eexists; apply rows_step_repeat).
    match goal with
    | |- context [rows_step None (Some ?b) 4 (repeat row h)] =>
        destruct (Htop None (Some b) 4%nat) as [mt Et]; rewrite !Et
    end.
    match goal with
    | |- context [rows_step (Some ?b) None 4 (repeat row h)] =>
        destruct (Htop (Some b) None 4%nat) as [mb Eb]; rewrite !Eb
    end.
    destruct (Htop None None 4%nat) as [ma Ea].
    assert (Hma : (0 < ma)%nat).
    { apply (f_equal (@length _)) in Ea. rewrite repeat_length in Ea.
      rewrite <- Ea. unfold rows_step. apply every_from_nonempty.
      unfold slice. rewrite firstn_all. cbn [skipn].
      destruct h; [lia|discriminate]. }
    rewrite !Ea. rewrite !asize_repeat, Hrow. subst row.
    assert (Hb : forall m, (0 <? m * w)%nat = (0 <? m)%nat).
    { intros [|m0]; [reflexivity|]. apply Nat.ltb_lt. nia. }
    rewrite !Hb.
    destruct mt as [|mt], mb as [|mb]; cbn [Nat.ltb Nat.leb andb].
    - destruct (4 <? Z.of_nat h)%Z; rewrite amap_repeat; eauto.
    - rewrite amap_repeat. exists (S mb). split; [lia|reflexivity].
    - rewrite amap_repeat. exists (S mt). split; [lia|reflexivity].
    - rewrite <- repeat_app, amap_repeat. eexists. split; [|reflexivity]. lia. }
  destruct Hs as (m & Hm & ->).
  rewrite mean_axis0_repeat by exact Hm.
  match goal with
  | |- context [detection._smooth_1d L (repeat ?c w) ?k0] =>
      pose proof (smooth_near_of L HB c 255 w k0
                    (mean_repeat (inject_Z 255) m Hm)) as Hsc;
      pose proof (proj1 (smooth_near L HB c w k0)) as Hlen;
      set (sc := detection._smooth_1d L (repeat c w) k0) in *
  end.
  destruct sc as [|b bs] eqn:E; [cbn in Hlen; lia|].
  rewrite <- E in *.
  assert (Hne : sc <> []) by (rewrite E; discriminate).
  pose proof (mean_near 255 sc Hne Hsc) as Hmean.
  assert (Hat : nth (Z.to_nat gx) sc 0 == 255)
    by (apply nth_near; [exact Hsc|lia]).
  destruct (Qlt_bool 0 (mean sc)); [|reflexivity].
  rewrite Hmean, Hat. reflexivity.
Qed.

End BlankFallback.

Lemma round_of_integer (q : Q) (z : Z) : q == inject_Z z -> round q = z.
Proof.
  intro H. unfold round. rewrite (Qfloor_comp _ _ H), Qfloor_Z.
  assert (E : (q - inject_Z z ?= 1 # 2) = Lt).
  { apply Qlt_alt. setoid_replace (q - inject_Z z) with 0 by (rewrite H; ring).
    reflexivity. }
  now rewrite E.
Qed.

Lemma np_max_repeat (c : Q) (m : nat) :
  (0 < m)%nat -> exists v, np_max (repeat c m) = Ok v /\ v == c.
Proof.
  intro H. destruct m as [|m]; [lia|]. cbn [repeat np_max].
  eexists. split; [reflexivity|].
  apply Qmaximum_near; [reflexivity|apply repeat_near].
Qed.

Section BlankFacing.
Variable L : Lib.
Hypothesis HR : resize_keeps_uniform L.
Hypothesis HC : canny_of_uniform L.
Hypothesis HB : blur_of_constant L.
Hypothesis HP : percentile_of_constant L.

(** The analysis copy of a wide white page is white and still at least
    10 pixels wide. *)
Lemma analysis_of_wide_white (h w : nat) :
  (0 < h)%nat -> (10 <= w)%nat ->
  105 # 100 <= inject_Z (Z.of_nat w) / inject_Z (Z.of_nat h) ->
  exists h' w' : nat,
    (0 < h')%nat /\ (10 <= w')%nat
    /\ fst (detection._resize_for_analysis L (uniform 255%Z h w) 1500)
       = uniform 255%Z h' w'.
Proof.
  intros Hh Hw Hr. unfold detection._resize_for_analysis.
  rewrite height_uniform, width_uniform by exact Hh.
  destruct (_ <=? 1500)%Z eqn:E.
  - exists h, w. auto.
  - cbn [fst]. rewrite HR by lia.
    assert (Hlt : (Z.of_nat h < Z.of_nat w)%Z).
    { assert (Hhq : 0 < inject_Z (Z.of_nat h))
        by (unfold Qlt; cbn [Qnum Qden inject_Z]; lia).
      assert (Hm : (105 # 100) * inject_Z (Z.of_nat h) <= inject_Z (Z.of_nat w)).
      { revert Hr Hhq.
        generalize (inject_Z (Z.of_nat w)), (inject_Z (Z.of_nat h)).
        intros wq hq Hr Hhq.
        apply (Qmult_le_compat_r _ _ hq) in Hr; [|lra].
        assert (Hd : wq / hq * hq == wq) by (field; lra).
        lra. }
      unfold Qle in Hm. cbn [Qnum Qden inject_Z Qmult] in Hm. lia. }
    rewrite (Z.max_r (Z.of_nat h) (Z.of_nat w)) by lia.
    assert (Hw1500 : round (inject_Z (Z.of_nat w)
                            * (inject_Z 1500 / inject_Z (Z.of_nat w))) = 1500%Z).
    { apply round_of_integer.
      assert (Hwq : ~ inject_Z (Z.of_nat w) == 0)
        by (unfold Qeq; cbn [Qnum Qden inject_Z]; lia).
      field. exact Hwq. }
    rewrite Hw1500.
    eexists _, _. split; [|split; [|reflexivity]]; lia.
Qed.

(** Away from the failing widths: a white single-channel page at least 10
    pixels wide is not a spread. *)
Lemma blank_facing_pages_wide (h w : nat) :
  (0 < h)%nat -> (10 <= w)%nat ->
  detection.detect_facing_pages L (white h w) = Ok false.
Proof.
  intros Hh Hw. unfold detection.detect_facing_pages, white.
  cbn [shape detection._to_gray].
  rewrite height_uniform, width_uniform by exact Hh.
  destruct (Z.eqb_spec (Z.of_nat h) 0); [lia|].
  destruct (Qlt_bool _ (105 # 100)) eqn:Ea; [reflexivity|].
  apply Qlt_bool_false in Ea.
  destruct (analysis_of_wide_white h w Hh Hw Ea) as (h' & w' & Hh' & Hw' & E).
  rewrite E. cbv zeta.
  rewrite HC, height_uniform, width_uniform by exact Hh'.
  set (ladder := if (_ <? _)%Z then _ else false).
  assert (Hl : ladder = false).
  { subst ladder. destruct (_ <? _)%Z; [|reflexivity].
    match goal with
    | |- context [detection.window_confidences L ?g ?e ?hs ?s ?t] =>
        pose proof (window_confidences_blank L HB HP h' w' hs s t Hh') as Hwc;
        destruct (detection.window_confidences L g e hs s t) as [[vc ec] sc]
    end.
    destruct Hwc as (-> & -> & Hsc).
    assert (Hs : Qle_bool (45 # 100) sc = false)
      by (apply Qle_bool_false; rewrite Hsc; reflexivity).
    rewrite Hs. reflexivity. }
  rewrite Hl.
  set (cw := (Z.of_nat w' / 5)%Z).
  set (cx := (Z.of_nat w' / 2)%Z).
  assert (Hcw : (2 <= cw)%Z) by (subst cw; apply Z.div_le_lower_bound; lia).
  assert (Hcw2 : (1 <= cw / 2)%Z) by (apply Z.div_le_lower_bound; lia).
  assert (Hcwx : (cw / 2 <= cx)%Z /\ (cx + cw / 2 <= Z.of_nat w')%Z /\ (cw <= Z.of_nat w')%Z).
  { subst cw cx. Z.div_mod_to_equations. lia. }
  unfold uniform, to_float. rewrite !cols_repeat, amap_repeat.
  rewrite !slice_length, !slice_to_length, !slice_tail_length
    by (rewrite ?repeat_length; lia).
  rewrite mean_axis0_repeat by exact Hh'.
  destruct (np_max_repeat (mean (repeat (inject_Z 255) h'))
              (Z.to_nat (cx + cw / 2 - (cx - cw / 2)))) as (cb & Ecb & Hcb);
    [lia|].
  rewrite Ecb. cbn [bind].
  assert (Hcb' : cb == 255) by (rewrite Hcb; apply mean_repeat; exact Hh').
  match goal with
  | |- context [Qlt_bool 20 ?d] => assert (Hbright : Qlt_bool 20 d = false)
  end.
  { apply Qlt_bool_false.
    rewrite Hcb', !mean_all_white by lia. discriminate. }
  rewrite Hbright.
  match goal with
  | |- context [Qlt_bool 0 ?d && _] => assert (Hed : Qlt_bool 0 d = false)
  end.
  { apply Qlt_bool_false. rewrite !density_black. discriminate. }
  rewrite Hed. cbn [andb].
  pose proof (gutter_fallback_blank L HB (Gray (uniform 255%Z h w))
                (Z.of_nat w) h' w' Hh') as Hf.
  unfold uniform in Hf. rewrite Hf by lia. reflexivity.
Qed.

End BlankFacing.

(** The failing widths: a white page narrower than 10 pixels that passes
    the weak gate makes the classifier raise. *)
Lemma blank_facing_pages_narrow (L : Lib) (h w : nat) :
  (0 < h)%nat -> (w < 10)%nat ->
  105 # 100 <= inject_Z (Z.of_nat w) / inject_Z (Z.of_nat h) ->
  detection.detect_facing_pages L (white h w) = Raise ValueError.
Proof.
  intros Hh Hw Hr. unfold detection.detect_facing_pages, white.
  cbn [shape detection._to_gray].
  rewrite height_uniform, width_uniform by exact Hh.
  destruct (Z.eqb_spec (Z.of_nat h) 0); [lia|].
  apply Qlt_bool_false in Hr. rewrite Hr.
  unfold detection._resize_for_analysis.
  rewrite height_uniform, width_uniform by exact Hh.
  assert (Hh10 : (h < 10)%nat).
  { apply Qlt_bool_false in Hr.
    destruct (Nat.lt_ge_cases h 10) as [|Hge]; [assumption|exfalso].
    assert (Hq : inject_Z (Z.of_nat w) / inject_Z (Z.of_nat h) <= 1).
    { apply Qle_shift_div_r; unfold Qlt, Qle; cbn [Qnum Qden inject_Z Qmult]; lia. }
    revert Hr Hq. generalize (inject_Z (Z.of_nat w) / inject_Z (Z.of_nat h)).
    intros q Hr Hq. lra. }
  destruct (Z.leb_spec (Z.max (Z.of_nat h) (Z.of_nat w)) 1500); [|lia].
  cbn [fst]. cbv zeta.
  rewrite height_uniform, width_uniform by exact Hh.
  rewrite (int_scaled (Z.of_nat w) 5 100), (int_scaled (Z.of_nat w) 95 100) by lia.
  assert (Hwin : (Z.of_nat w * 5 / 100 + 10 <? Z.of_nat w * 95 / 100)%Z = false).
  { apply Z.ltb_ge. Z.div_mod_to_equations. lia. }
  rewrite Hwin.
  assert (Hcw : (Z.of_nat w / 5 / 2 = 0)%Z).
  { Z.div_mod_to_equations. lia. }
  rewrite Hcw, Z.add_0_r, Z.sub_0_r.
  unfold uniform, to_float. rewrite cols_repeat.
  rewrite slice_length by (rewrite ?repeat_length; Z.div_mod_to_equations; lia).
  rewrite Z.sub_diag, amap_repeat. cbn [Z.to_nat repeat].
  unfold mean_axis0, columns, ncols.
  destruct h as [|h0]; [lia|]. reflexivity.
Qed.

(** *** The reference instance answers as expected on uniform rasters *)

Lemma mapi_constant {A B} (f : nat -> A -> B) (c : B) (l : list A) :
  (forall i a, In a l -> f i a = c) -> mapi f l = repeat c (length l).
Proof.
  intro H. rewrite <- (mapi_length f l).
  apply Forall_eq_repeat, mapi_Forall. intros i a Hin. symmetry. now apply H.
Qed.

Lemma nth_uniform_row (v : pixel) (h w : nat) (r : nat) (d : list pixel) :
  d = repeat v w -> nth r (repeat (repeat v w) h) d = repeat v w.
Proof.
  intros ->. apply nth_repeat.
Qed.

Lemma ref_canny_of_uniform (lines : option (list segment)) (cs : list contour) :
  canny_of_uniform (replay lines cs).
Proof.
  intros v h w. cbn [Canny replay]. unfold ref_Canny, uniform.
  rewrite (mapi_constant _ (repeat 0%Z w)); [now rewrite repeat_length|].
  intros r row Hrow. apply repeat_spec in Hrow. subst row.
  rewrite (mapi_constant _ 0%Z); [now rewrite repeat_length|].
  intros c p Hp. apply repeat_spec in Hp. subst p.
  rewrite nth_uniform_row by reflexivity. rewrite !nth_repeat.
  rewrite Z.sub_diag. reflexivity.
Qed.

Lemma ref_blur_of_constant (lines : option (list segment)) (cs : list contour) :
  blur_of_constant (replay lines cs).
Proof.
  intros c n k. cbn [GaussianBlur replay]. unfold ref_GaussianBlur. split.
  - now rewrite mapi_length, repeat_length.
  - apply mapi_Forall. intros i a Ha. apply repeat_spec in Ha. subst a.
    rewrite !nth_repeat, Qred_correct. field.
Qed.

Lemma insert_sorted_repeat (c : Q) (n : nat) :
  insert_sorted c (repeat c n) = c :: repeat c n.
Proof.
  destruct n as [|n]; [reflexivity|]. cbn [repeat insert_sorted].
  assert (E : Qle_bool c c = true) by (apply Qle_bool_iff, Qle_refl).
  now rewrite E.
Qed.

Lemma sort_repeat (c : Q) (n : nat) : sort (repeat c n) = repeat c n.
Proof.
  unfold sort. induction n as [|n IH]; [reflexivity|].
  cbn [repeat fold_right]. rewrite IH. apply insert_sorted_repeat.
Qed.

Lemma ref_percentile_of_constant (lines : option (list segment)) (cs : list contour) :
  percentile_of_constant (replay lines cs).
Proof.
  intros c n Hn. cbn [percentile90 replay]. unfold ref_percentile90.
  rewrite sort_repeat. cbv zeta.
  set (lo := Z.to_nat _).
  assert (Ha : nth lo (repeat c n) 0 = c).
  { apply nth_repeat_lt. subst lo. unfold Qlen. rewrite repeat_length.
    assert (Hf : (Qfloor ((9 # 10) * (inject_Z (Z.of_nat n) - 1)) < Z.of_nat n)%Z).
    { apply Z.le_lt_trans with (Z.of_nat n - 1)%Z; [|lia].
      rewrite <- (Qfloor_Z (Z.of_nat n - 1)).
      apply Qfloor_resp_le.
      unfold Z.sub. rewrite inject_Z_plus. cbn [inject_Z Z.opp].
      assert (H0 : 1 <= inject_Z (Z.of_nat n))
        by (unfold Qle; cbn [Qnum Qden inject_Z]; lia).
      revert H0. generalize (inject_Z (Z.of_nat n)). intros q H0.
      change (inject_Z (-1)) with (- (1)). lra. }
    lia. }
  rewrite Ha.
  assert (Hb : nth (S lo) (repeat c n) c = c) by apply nth_repeat.
  rewrite Hb, Qred_correct. ring.
Qed.

Lemma ref_resize_keeps_uniform (lines : option (list segment)) (cs : list contour) :
  resize_keeps_uniform (replay lines cs).
Proof.
  intros v h w new_w new_h Hh Hw. cbn [resize replay]. unfold ref_resize, uniform.
  assert (Hn : ncols (repeat (repeat v w) h) = w).
  { unfold ncols. destruct h; [lia|]. cbn [repeat hd]. apply repeat_length. }
  rewrite Hn, repeat_length.
  rewrite <- (length_seq (Z.to_nat new_h) 0) at 2. rewrite <- map_const.
  apply map_ext_in. intros i Hi. apply in_seq in Hi.
  rewrite (nth_repeat_lt (repeat v w))
    by (apply Nat.Div0.div_lt_upper_bound; nia).
  rewrite <- (length_seq (Z.to_nat new_w) 0) at 2. rewrite <- map_const.
  apply map_ext_in. intros j Hj. apply in_seq in Hj.
  apply nth_repeat_lt. apply Nat.Div0.div_lt_upper_bound. nia.
Qed.

Lemma filter_repeat {A} (f : A -> bool) (v : A) (n : nat) :
  filter f (repeat v n) = if f v then repeat v n else [].
Proof.
  induction n as [|n IH]; cbn [repeat filter]; [now destruct (f v)|].
  rewrite IH. now destruct (f v).
Qed.

Lemma fold_left_fixed {A B} (f : A -> B -> A) (l : list B) (a : A) :
  (forall b, In b l -> f a b = a) -> fold_left f l a = a.
Proof.
  induction l as [|b l IH]; intro H; [reflexivity|].
  cbn [fold_left]. rewrite (H b) by (left; reflexivity).
  apply IH. intros b' Hb'. apply H. now right.
Qed.

Lemma ref_otsu_below_white (lines : option (list segment)) (cs : list contour) :
  otsu_below_white (replay lines cs).
Proof.
  intros h w. cbn [otsu replay]. unfold ref_otsu.
  rewrite flatten_uniform. cbv zeta.
  rewrite fold_left_fixed; [reflexivity|].
  intros t _. rewrite filter_repeat.
  destruct (255 <=? t)%Z.
  - rewrite Z.sub_diag. cbn [Z.eqb]. now rewrite orb_true_r.
  - reflexivity.
Qed.

Lemma rsum_near (c : Q) (l : list Q) :
  near c l -> fold_right (fun v a => Qred (v + a)) 0 l == Qlen l * c.
Proof.
  unfold Qlen. induction 1 as [|v l Hv Hl IH].
  - cbn. ring.
  - cbn [fold_right length]. rewrite Qred_correct, IH, Hv, Nat2Z.inj_succ.
    unfold Z.succ. rewrite inject_Z_plus. ring.
Qed.

Lemma ref_mean_near_zero (l : list Q) : near 0 l -> ref_mean l == 0.
Proof.
  intro H. unfold ref_mean. rewrite Qred_correct, (rsum_near 0 l H).
  unfold Qdiv. ring.
Qed.

Lemma ref_mean_repeat (c : Q) (n : nat) : (0 < n)%nat -> ref_mean (repeat c n) == c.
Proof.
  intro H. unfold ref_mean.
  rewrite Qred_correct, (rsum_near c _ (repeat_near c n)).
  assert (Hn : ~ Qlen (repeat c n) == 0).
  { unfold Qlen, Qeq. rewrite repeat_length. cbn [Qnum Qden inject_Z]. lia. }
  field. exact Hn.
Qed.

Lemma ref_sqrt_zero (q : Q) : q == 0 -> ref_sqrt q == 0.
Proof.
  intro H. unfold Qeq in H. cbn [Qnum Qden] in H.
  assert (E : Qnum q = 0%Z) by lia.
  unfold ref_sqrt. rewrite E. reflexivity.
Qed.

Lemma ref_std_of_constant (lines : option (list segment)) (cs : list contour) :
  std_of_constant (replay lines cs).
Proof.
  intros v n. cbn [std replay]. unfold ref_std. apply ref_sqrt_zero.
  unfold ref_var. cbv zeta. apply ref_mean_near_zero.
  rewrite map_repeat.
  destruct n as [|n]; [constructor|].
  apply (near_trans ((v - ref_mean (repeat v (S n))) * (v - ref_mean (repeat v (S n))))).
  - rewrite ref_mean_repeat by lia. ring.
  - apply repeat_near.
Qed.

Lemma ref_dilate_keeps_black (lines : option (list segment)) (cs : list contour) :
  dilate_keeps_black (replay lines cs).
Proof.
  intros h w k _. cbn [dilate replay]. unfold ref_dilate, uniform.
  rewrite map_repeat. f_equal. unfold row_dilate.
  rewrite (mapi_constant _ 0%Z); [now rewrite repeat_length|].
  intros c p _. apply (reduce_max_zero (window k c (repeat 0%Z w))).
  unfold window. apply Forall_slice, Forall_forall.
  intros q Hq. apply repeat_spec in Hq. now subst.
Qed.

Lemma ref_no_contour_in_black : no_contour_in_black ref_lib.
Proof. intros h w. reflexivity. Qed.

(** With the reference instance: a white single-channel page at least 10
    pixels wide gets the neutral answer of the four detectors (of the
    curvature scorer when its analysis copy has at least 20 columns). *)
Lemma blank_page_reference (h w : nat) :
  (0 < h)%nat -> (10 <= w)%nat ->
  detection.detect_content_bounds ref_lib (white h w) = None
  /\ detection.detect_facing_pages ref_lib (white h w) = Ok false
  /\ detection.detect_skew_angle ref_lib (white h w) = 0
  /\ ((20 <= width (analysis_copy ref_lib (white h w)))%Z ->
      detection.detect_curvature ref_lib (white h w) = 0).
Proof.
  intros Hh Hw. unfold ref_lib. split; [|split; [|split]].
  - apply blank_content_bounds;
      [apply ref_resize_keeps_uniform|apply ref_otsu_below_white| |]; lia.
  - apply blank_facing_pages_wide;
      [apply ref_resize_keeps_uniform|apply ref_canny_of_uniform
      |apply ref_blur_of_constant|apply ref_percentile_of_constant| |]; lia.
  - apply blank_skew_angle;
      [apply ref_resize_keeps_uniform|apply ref_std_of_constant| |]; lia.
  - intro H20. apply blank_curvature;
      [apply ref_resize_keeps_uniform|apply ref_otsu_below_white
      |apply ref_dilate_keeps_black|apply ref_no_contour_in_black| | |];
      (lia || exact H20).
Qed.

(** ** Range of the text and edge scores (stages/rotation.py) *)

Lemma unit_fraction (a m : Q) : 0 <= a -> a <= m -> 0 <= a / m <= 1.
Proof.
  intros Ha Ham. destruct (Qlt_le_dec 0 m) as [Hm|Hm].
  - split; [apply Qdiv_nonneg; lra|apply Qle_shift_div_r; lra].
  - assert (E : m == 0) by lra.
    assert (E' : a / m == 0)
      by (rewrite E; unfold Qdiv; change (/ 0) with 0; ring).
    rewrite E'. split; discriminate.
Qed.

Lemma unit_scaled (a k : Q) : 0 <= a <= 1 -> 0 <= k <= 1 -> 0 <= a * k <= 1.
Proof. intros Ha Hk. split; nra. Qed.

(** With a non-negative opening, every score of the text-orientation
    sub-scorer lies in [0, 1]. *)
Lemma detect_text_orientation_unit (L : Lib) (gray : gray_image) (r : TRotation) :
  morph_open_nonneg L ->
  0 <= detect_text_orientation L gray r <= 1.
Proof.
  intro HL. unfold detect_text_orientation. cbv zeta.
  set (binary := threshold_binary_inv_otsu L gray).
  assert (Hb : pixels_nonneg binary) by apply binary_nonneg.
  set (hc := total (morph_open L binary (width gray / 20) 1) / 255).
  set (vc := total (morph_open L binary 1 (height gray / 20)) / 255).
  assert (Hhc : 0 <= hc)
    by (apply Qdiv_nonneg; [apply total_nonneg, HL, Hb|discriminate]).
  assert (Hvc : 0 <= vc)
    by (apply Qdiv_nonneg; [apply total_nonneg, HL, Hb|discriminate]).
  assert (Hh : 0 <= hc / (hc + vc) <= 1) by (apply unit_fraction; lra).
  assert (Hv : 0 <= vc / (hc + vc) <= 1) by (apply unit_fraction; lra).
  assert (U : forall k, 0 <= k <= 1 ->
                        0 <= hc / (hc + vc) * k <= 1 /\ 0 <= vc / (hc + vc) * k <= 1)
    by (intros k Hk; split; apply unit_scaled; assumption).
  destruct (U (3 # 10)) as [U3 V3]; [split; discriminate|].
  destruct (U (5 # 10)) as [U5 V5]; [split; discriminate|].
  destruct (U (7 # 10)) as [U7 V7]; [split; discriminate|].
  destruct (Qeq_bool _ 0); [destruct r; split; discriminate|].
  destruct (Qlt_bool _ _); destruct (Qle_bool _ _); destruct r;
    cbn [mk_scores]; try assumption; split; discriminate.
Qed.

(** With non-negative edge maps, every score of the edge-orientation
    sub-scorer lies in [0, 1]. *)
Lemma detect_edge_orientation_unit (L : Lib) (gray : gray_image) (r : TRotation) :
  canny_nonneg L ->
  0 <= detect_edge_orientation L gray r <= 1.
Proof.
  intro HL. unfold detect_edge_orientation. cbv zeta.
  set (edges := Canny L gray).
  assert (He : pixels_nonneg edges) by apply HL.
  set (margin := int _).
  assert (Hmargin : (0 <= margin)%Z).
  { subst margin. rewrite int_scaled by (unfold height, width; lia).
    apply Z.div_pos; unfold height, width; lia. }
  assert (Hmw : 0 <= inject_Z (margin * width gray)).
  { unfold Qle. cbn [Qnum Qden inject_Z].
    assert (0 <= margin * width gray)%Z by (unfold width; nia). lia. }
  assert (Hmh : 0 <= inject_Z (margin * height gray)).
  { unfold Qle. cbn [Qnum Qden inject_Z].
    assert (0 <= margin * height gray)%Z by (unfold height; nia). lia. }
  set (td := total (slice None (Some margin) edges) / inject_Z (margin * width gray)).
  set (bd := total (slice (Some (- margin)%Z) None edges) / inject_Z (margin * width gray)).
  set (ld := total (cols None (Some margin) edges) / inject_Z (margin * height gray)).
  set (rd := total (cols (Some (- margin)%Z) None edges) / inject_Z (margin * height gray)).
  assert (Htd : 0 <= td)
    by (apply Qdiv_nonneg; [apply total_nonneg, rows_nonneg, He|assumption]).
  assert (Hbd : 0 <= bd)
    by (apply Qdiv_nonneg; [apply total_nonneg, rows_nonneg, He|assumption]).
  assert (Hld : 0 <= ld)
    by (apply Qdiv_nonneg; [apply total_nonneg, cols_nonneg, He|assumption]).
  assert (Hrd : 0 <= rd)
    by (apply Qdiv_nonneg; [apply total_nonneg, cols_nonneg, He|assumption]).
  set (m := Qmaximum td [bd; ld; rd; 1]).
  assert (Hm : td <= m /\ bd <= m /\ ld <= m /\ rd <= m /\ 1 <= m).
  { subst m. unfold Qmaximum. cbn [fold_left].
    pose proof (Q.le_max_l td bd). pose proof (Q.le_max_r td bd).
    pose proof (Q.le_max_l (Qmax td bd) ld).
    pose proof (Q.le_max_r (Qmax td bd) ld).
    pose proof (Q.le_max_l (Qmax (Qmax td bd) ld) rd).
    pose proof (Q.le_max_r (Qmax (Qmax td bd) ld) rd).
    pose proof (Q.le_max_l (Qmax (Qmax (Qmax td bd) ld) rd) 1).
    pose proof (Q.le_max_r (Qmax (Qmax (Qmax td bd) ld) rd) 1).
    repeat split; lra. }
  destruct Hm as (H1 & H2 & H3 & H4 & H5).
  pose proof (unit_share td m Htd H1 H5) as Ut.
  pose proof (unit_share bd m Hbd H2 H5) as Ub.
  pose proof (unit_share ld m Hld H3 H5) as Ul.
  pose proof (unit_share rd m Hrd H4 H5) as Ur.
  revert Ut Ub Ul Ur.
  generalize (td / m), (bd / m), (ld / m), (rd / m). intros t b l r0 Ut Ub Ul Ur.
  assert (Hs : 0 <= (t + b) / 2 <= 1) by (split; [apply Qle_shift_div_l|apply Qle_shift_div_r]; lra).
  assert (Vs : 0 <= (l + r0) / 2 <= 1) by (split; [apply Qle_shift_div_l|apply Qle_shift_div_r]; lra).
  revert Hs Vs. generalize ((t + b) / 2), ((l + r0) / 2). intros hs vs Hs Vs.
  assert (U : forall k, 0 <= k <= 1 -> 0 <= hs * k <= 1 /\ 0 <= vs * k <= 1)
    by (intros k Hk; split; apply unit_scaled; assumption).
  destruct (U (4 # 10)) as [U4 V4]; [split; discriminate|].
  destruct (U (5 # 10)) as [U5 V5]; [split; discriminate|].
  destruct (U (7 # 10)) as [U7 V7]; [split; discriminate|].
  destruct (Qlt_bool _ _); destruct (Qle_bool _ _); destruct r;
    cbn [mk_scores]; try assumption; split; discriminate.
Qed.

Lemma ref_canny_nonneg (lines : option (list segment)) (cs : list contour) :
  canny_nonneg (replay lines cs).
Proof.
  intro g. cbn [Canny replay]. unfold ref_Canny, pixels_nonneg.
  apply mapi_Forall. intros r row _. apply mapi_Forall. intros c p _.
  destruct (_ <? _)%Z; lia.
Qed.

Lemma fold_max_nonneg (l : list Z) : (0 <= fold_right Z.max 0 l)%Z.
Proof. induction l as [|p l IH]; cbn [fold_right]; lia. Qed.

Lemma nth_nonneg (l : list Z) (j : nat) :
  Forall (fun p => (0 <= p)%Z) l -> (0 <= nth j l 0)%Z.
Proof.
  intro H. destruct (nth_in_or_default j l 0%Z) as [Hin|E].
  - rewrite Forall_forall in H. now apply H.
  - rewrite E. lia.
Qed.

Lemma ref_morph_open_nonneg (lines : option (list segment)) (cs : list contour) :
  morph_open_nonneg (replay lines cs).
Proof.
  intros g kw kh _. cbn [morph_open replay].
  unfold ref_morph_open, transpose, pixels_nonneg, columns.
  apply Forall_map, Forall_forall. intros j _.
  unfold column. apply Forall_map, Forall_forall. intros row Hrow.
  apply in_map_iff in Hrow. destruct Hrow as (col & <- & _).
  apply nth_nonneg. unfold row_dilate. apply mapi_Forall.
  intros c p _. apply fold_max_nonneg.
Qed.

(** ** Blank pages: the failing input *)

(** C9. On an all-white raster 9 pixels wide and 8 pixels high the
    facing-page classifier does not answer false: the aspect ratio 9/8
    passes the weak gate, the window [0:8] is too narrow for the first
    heuristic, the centre strip [4:4] is empty, and [np.max] of its empty
    column means raises [ValueError].  This holds whatever the library
    computes. *)
Theorem detect_facing_pages_blank_9x8_raises :
  forall L : Lib,
    detection.detect_facing_pages L (white 8 9) = Raise ValueError.
Proof.
  intro L. reflexivity.
Qed.

(** * Further properties of the pipeline *)

(** ** The saddle valley of a projection curve (detection.py) *)

Lemma argmax_from_bound (l : list ext) (i best : nat) (bv : ext) :
  (best < i)%nat -> (argmax_from l i best bv < i + length l)%nat.
Proof.
  revert i best bv. induction l as [|x t IH]; intros i best bv H; cbn [argmax_from length].
  - lia.
  - destruct (ext_lt bv x).
    + specialize (IH (S i) i x). lia.
    + specialize (IH (S i) best bv). lia.
Qed.

Lemma argmax_bound (l : list ext) : l <> [] -> (argmax l < length l)%nat.
Proof.
  destruct l as [|x t]; [congruence|]. intros _. unfold argmax.
  pose proof (argmax_from_bound t 1 0 x). cbn [length]. lia.
Qed.

Lemma mask_ends_length (pad : nat) (score : list Q) :
  length (mask_ends pad score) = length score.
Proof. unfold mask_ends. now rewrite length_map, length_seq. Qed.

Lemma mask_ends_nth (pad : nat) (score : list Q) (i : nat) :
  (i < length score)%nat ->
  nth i (mask_ends pad score) NegInf
  = if (i <? pad)%nat || (length score - pad <=? i)%nat
    then NegInf else Fin (nth i score 0).
Proof.
  intro Hi. unfold mask_ends.
  rewrite (nth_indep _ NegInf (if (0 <? pad)%nat || (length score - pad <=? 0)%nat
                                 then NegInf else Fin (nth 0 score 0)))
      by (rewrite length_map, length_seq; exact Hi).
  rewrite (map_nth (fun j => if (j <? pad)%nat || (length score - pad <=? j)%nat
                               then NegInf else Fin (nth j score 0))).
  rewrite seq_nth by exact Hi. reflexivity.
Qed.

Lemma accumulate_from_length (m : Q) (l : list Q) :
  length (detection.accumulate_from m l) = length l.
Proof. revert m. induction l; intro m; cbn; [reflexivity|now rewrite IHl]. Qed.

Lemma maximum_accumulate_length (l : list Q) :
  length (detection.maximum_accumulate l) = length l.
Proof. destruct l; cbn; [reflexivity|now rewrite accumulate_from_length]. Qed.

Lemma Qmax_cases (a b : Q) : Qmax a b == a \/ Qmax a b == b.
Proof.
  destruct (Q.max_spec a b) as [[_ H]|[_ H]]; [right|left]; exact H.
Qed.

Lemma accumulate_from_attained (m : Q) (l : list Q) (k : nat) :
  (k < length l)%nat ->
  nth k (detection.accumulate_from m l) 0 == m
  \/ exists i, (i <= k)%nat /\ nth k (detection.accumulate_from m l) 0 == nth i l 0.
Proof.
  revert m k. induction l as [|x t IH]; intros m k Hk; cbn [length] in Hk; [lia|].
  cbn [detection.accumulate_from]. destruct k as [|k].
  - cbn [nth]. destruct (Qmax_cases m x) as [H|H]; [left; exact H|].
    right. exists 0%nat. split; [lia|exact H].
  - cbn [nth]. destruct (IH (Qmax m x) k) as [H|(i & Hi & H)]; [lia| |].
    + destruct (Qmax_cases m x) as [H'|H'].
      * left. now rewrite H.
      * right. exists 0%nat. split; [lia|]. now rewrite H.
    + right. exists (S i). split; [lia|exact H].
Qed.

Lemma maximum_accumulate_attained (l : list Q) (k : nat) :
  (k < length l)%nat ->
  exists i, (i <= k)%nat /\ nth k (detection.maximum_accumulate l) 0 == nth i l 0.
Proof.
  destruct l as [|x t]; cbn [length]; [lia|]. intro Hk.
  cbn [detection.maximum_accumulate]. destruct k as [|k].
  - exists 0%nat. split; [lia|reflexivity].
  - cbn [nth]. destruct (accumulate_from_attained x t k) as [H|(i & Hi & H)]; [lia| |].
    + exists 0%nat. split; [lia|exact H].
    + exists (S i). split; [lia|exact H].
Qed.

Lemma nth_map_combine {A B C} (f : A * B -> C) (a : list A) (b : list B)
  (i : nat) (da : A) (db : B) (dc : C) :
  (i < length a)%nat -> length a = length b ->
  nth i (map f (combine a b)) dc = f (nth i a da, nth i b db).
Proof.
  intros Hi Hl.
  rewrite (nth_indep _ dc (f (da, db)))
    by (rewrite length_map, length_combine; lia).
  rewrite map_nth. now rewrite combine_nth.
Qed.

Lemma nth_removelast {A} (l : list A) (i : nat) (d : A) :
  (S i < length l)%nat -> nth i (removelast l) d = nth i l d.
Proof.
  revert i. induction l as [|x t IH]; intros i Hi; cbn [length] in Hi; [lia|].
  destruct t as [|y t]; [cbn in Hi; lia|].
  change (removelast (x :: y :: t)) with (x :: removelast (y :: t)).
  destruct i as [|i]; [reflexivity|]. cbn [nth]. apply IH. cbn [length] in *. lia.
Qed.

Lemma nth_tl {A} (l : list A) (i : nat) (d : A) :
  nth i (tl l) d = nth (S i) l d.
Proof. destruct l; [now destruct i|reflexivity]. Qed.

(** X1. The saddle search _best_saddle_valley returns a confidence between 0
    and 1. When the confidence is 0 the returned index is the middle of
    the curve (size // 2). When the confidence is positive the returned
    index lies strictly between two positions of the curve whose values
    are both strictly higher than the value at the index: the valley sits
    between two peaks. *)
Theorem best_saddle_valley_between_peaks :
  forall curve : list Q,
    let size := Z.of_nat (length curve) in
    let idx := fst (detection._best_saddle_valley curve) in
    let conf := snd (detection._best_saddle_valley curve) in
    0 <= conf <= 1
    /\ (conf == 0 -> idx = (size / 2)%Z)
    /\ (0 < conf ->
        exists i j : nat,
          (Z.of_nat i < idx < Z.of_nat j)%Z /\ (j < length curve)%nat
          /\ nth (Z.to_nat idx) curve 0 < nth i curve 0
          /\ nth (Z.to_nat idx) curve 0 < nth j curve 0).
Proof.
  intros curve size idx conf. subst idx conf.
  unfold detection._best_saddle_valley. fold size. cbv zeta.
  assert (Hzero : forall z : Z,
            0 <= snd (z, 0) <= 1 /\ (snd (z, 0) == 0 -> fst (z, 0) = z)
            /\ (0 < snd (z, 0) -> exists i j : nat,
                  (Z.of_nat i < fst (z, 0) < Z.of_nat j)%Z /\ (j < length curve)%nat
                  /\ nth (Z.to_nat (fst (z, 0))) curve 0 < nth i curve 0
                  /\ nth (Z.to_nat (fst (z, 0))) curve 0 < nth j curve 0)).
  { intro z. cbn [fst snd]. split; [split; discriminate|].
    split; [reflexivity|]. intro H. exfalso. revert H. apply Qlt_irrefl. }
  destruct (Z.ltb_spec size 3) as [Hs|Hs]; [apply Hzero|].
  set (pad := Z.to_nat (if (size <=? Z.max 5 (size / 20) * 2 + 1)%Z
                        then 1%Z else Z.max 5 (size / 20))).
  assert (Hpad : (1 <= pad)%nat).
  { subst pad. destruct (_ <=? _)%Z; lia. }
  set (lm := detection.maximum_accumulate curve).
  set (rm := rev (detection.maximum_accumulate (rev curve))).
  set (left_peak := 0 :: removelast lm).
  set (right_peak := tl rm ++ [0]).
  set (min_peak := map (fun p : Q * Q => Qmin (fst p) (snd p))
                       (combine left_peak right_peak)).
  set (score0 := map (fun p : Q * Q => fst p - snd p) (combine min_peak curve)).
  set (n := length curve) in *.
  assert (Hn : (3 <= n)%nat) by (subst size; lia).
  assert (Hlm : length lm = n) by (subst lm; apply maximum_accumulate_length).
  assert (Hrm : length rm = n).
  { subst rm. now rewrite length_rev, maximum_accumulate_length, length_rev. }
  assert (Hlp : length left_peak = n).
  { subst left_peak. cbn [length].
    rewrite removelast_firstn_len, length_firstn, Hlm. lia. }
  assert (Hrp : length right_peak = n).
  { subst right_peak. rewrite length_app. cbn [length].
    destruct rm as [|r0 rm']; cbn [length tl] in *; lia. }
  assert (Hmp : length min_peak = n).
  { subst min_peak. rewrite length_map, length_combine. lia. }
  assert (Hsc : length score0 = n).
  { subst score0. rewrite length_map, length_combine. lia. }
  set (idx := argmax (mask_ends pad score0)).
  assert (Hidx : (idx < n)%nat).
  { subst idx. rewrite <- Hsc, <- (mask_ends_length pad score0).
    apply argmax_bound. intro E.
    apply (f_equal (@length ext)) in E. rewrite mask_ends_length, Hsc in E.
    cbn in E. lia. }
  rewrite (mask_ends_nth pad score0 idx) by lia. rewrite Hsc.
  destruct ((idx <? pad)%nat || (n - pad <=? idx)%nat) eqn:Emask; [apply Hzero|].
  apply orb_false_iff in Emask. destruct Emask as [E1 E2].
  apply Nat.ltb_ge in E1. apply Nat.leb_gt in E2.
  destruct (Qle_bool (nth idx score0 0) 0 || Qle_bool (nth idx min_peak 0) 0)
    eqn:Eb; [apply Hzero|].
  apply orb_false_iff in Eb. destruct Eb as [Eb1 Eb2]. qbool.
  cbn [fst snd].
  set (c := nth idx score0 0 / (nth idx min_peak 0 + (1 # 1000000000))).
  assert (Hc : 0 < c).
  { subst c. apply Qlt_shift_div_l; lra. }
  assert (Hconf : 0 < Qmin 1 (Qmax 0 c) <= 1).
  { split; [|apply Q.le_min_l].
    apply Q.min_glb_lt; [reflexivity|].
    eapply Qlt_le_trans; [exact Hc|apply Q.le_max_r]. }
  split; [split; [apply Qlt_le_weak|]; apply Hconf|].
  split; [intro H; exfalso; destruct Hconf as [H0 _]; rewrite H in H0;
          revert H0; apply Qlt_irrefl|].
  intros _. rewrite Nat2Z.id.
  (* the score at idx *)
  assert (Hs0 : nth idx score0 0 = nth idx min_peak 0 - nth idx curve 0).
  { subst score0.
    rewrite (nth_map_combine _ min_peak curve idx 0 0 0) by lia. reflexivity. }
  assert (Hm0 : nth idx min_peak 0
                = Qmin (nth idx left_peak 0) (nth idx right_peak 0)).
  { subst min_peak.
    rewrite (nth_map_combine _ left_peak right_peak idx 0 0 0) by lia.
    reflexivity. }
  assert (Hl0 : nth idx left_peak 0 = nth (idx - 1) lm 0).
  { subst left_peak. destruct idx as [|k]; [lia|]. cbn [nth].
    rewrite Nat.sub_1_r. cbn [Nat.pred]. apply nth_removelast. lia. }
  assert (Hr0 : nth idx right_peak 0 = nth (n - S (S idx)) (detection.maximum_accumulate (rev curve)) 0).
  { subst right_peak. rewrite app_nth1
      by (destruct rm; cbn [length tl] in *; lia).
    rewrite nth_tl. subst rm. rewrite rev_nth
      by (rewrite maximum_accumulate_length, length_rev; fold n; lia).
    rewrite maximum_accumulate_length, length_rev. reflexivity. }
  destruct (maximum_accumulate_attained curve (idx - 1)) as (i & Hi & Hiv);
    [fold n; lia|].
  destruct (maximum_accumulate_attained (rev curve) (n - S (S idx)))
    as (j' & Hj & Hjv); [rewrite length_rev; fold n; lia|].
  rewrite rev_nth in Hjv by (fold n; lia). fold n in Hjv.
  fold lm in Hiv.
  pose proof (Q.le_min_l (nth idx left_peak 0) (nth idx right_peak 0)) as Hle1.
  pose proof (Q.le_min_r (nth idx left_peak 0) (nth idx right_peak 0)) as Hle2.
  rewrite Hs0, Hm0 in Eb1.
  exists i, (n - S j')%nat.
  split; [lia|]. split; [lia|].
  rewrite <- Hiv, <- Hjv, <- Hl0, <- Hr0. split; lra.
Qed.

(** ** The low band around a gutter (split.py) *)

Lemma grow_left_spec (mask : list bool) (left : nat) :
  let l := split.grow_left mask left in
  (l <= left)%nat
  /\ (forall k, (l <= k < left)%nat -> nth k mask false = true)
  /\ ((0 < l)%nat -> nth (l - 1) mask false = false).
Proof.
  induction left as [|l' IH]; cbn [split.grow_left].
  - split; [lia|]. split; [intros k Hk; lia|intro H; lia].
  - destruct (nth l' mask false) eqn:E.
    + destruct IH as (H1 & H2 & H3). split; [lia|]. split; [|exact H3].
      intros k Hk. destruct (Nat.eq_dec k l') as [->|Hne]; [exact E|].
      apply H2. lia.
    + split; [lia|]. split; [intros k Hk; lia|].
      intros _. now rewrite Nat.sub_1_r.
Qed.

Lemma grow_right_spec (mask : list bool) (fuel right : nat) :
  let r := split.grow_right mask fuel right in
  (right <= r <= right + fuel)%nat
  /\ (forall k, (right < k <= r)%nat -> nth k mask false = true)
  /\ ((r < right + fuel)%nat -> nth (S r) mask false = false).
Proof.
  revert right. induction fuel as [|f IH]; intro right; cbn [split.grow_right].
  - split; [lia|]. split; [intros k Hk; lia|intro H; lia].
  - destruct (nth (S right) mask false) eqn:E.
    + destruct (IH (S right)) as (H1 & H2 & H3). split; [lia|].
      split; [|intro H; apply H3; lia].
      intros k Hk. destruct (Nat.eq_dec k (S right)) as [->|Hne]; [exact E|].
      apply H2. lia.
    + split; [lia|]. split; [intros k Hk; lia|]. intros _. exact E.
Qed.

Lemma nth_mask (curve : list Q) (t : Q) (k : nat) :
  (k < length curve)%nat ->
  nth k (map (fun x => Qle_bool x t) curve) false = Qle_bool (nth k curve 0) t.
Proof.
  intro Hk.
  rewrite (nth_indep _ false (Qle_bool 0 t)) by (now rewrite length_map).
  apply (map_nth (fun x => Qle_bool x t)).
Qed.

(** X2. For a non-empty curve, _band_edges(curve, idx) returns a band [left,
    right] that lies inside the curve and contains the index clamped to
    the curve. With v the value at the clamped index and thresh = v +
    (mean - v) * 0.35, every value in the band is at most max(v, thresh).
    When the mean is positive and above v, the band is maximal: the value
    just left of it and the value just right of it (where they exist) are
    above thresh. *)
Theorem band_edges_low_run :
  forall (curve : list Q) (idx : Z),
    curve <> [] ->
    let n := Z.of_nat (length curve) in
    let c := Z.max 0 (Z.min (n - 1) idx) in
    let v := nth (Z.to_nat c) curve 0 in
    let thresh := v + (mean curve - v) * (35 # 100) in
    let l := fst (split._band_edges curve idx) in
    let r := snd (split._band_edges curve idx) in
    (0 <= l <= c)%Z /\ (c <= r <= n - 1)%Z
    /\ (forall k, (l <= k <= r)%Z -> nth (Z.to_nat k) curve 0 <= Qmax v thresh)
    /\ (0 < mean curve -> v < mean curve ->
        ((0 < l)%Z -> thresh < nth (Z.to_nat (l - 1)) curve 0)
        /\ ((r < n - 1)%Z -> thresh < nth (Z.to_nat (r + 1)) curve 0)).
Proof.
  intros curve idx Hne n c v thresh l r. subst l r.
  unfold split._band_edges.
  assert (Hn : (1 <= n)%Z) by (subst n; destruct curve; [congruence|cbn [length]; lia]).
  destruct curve as [|x0 t]; [congruence|]. cbv beta iota.
  set (curve := x0 :: t) in *.
  fold n. fold c. cbv zeta. fold v. fold thresh.
  assert (Hc : (0 <= c <= n - 1)%Z) by (subst c; lia).
  assert (Htriv :
    (0 <= fst (c, c) <= c)%Z /\ (c <= snd (c, c) <= n - 1)%Z
    /\ (forall k, (fst (c, c) <= k <= snd (c, c))%Z ->
                  nth (Z.to_nat k) curve 0 <= Qmax v thresh)).
  { cbn [fst snd]. split; [lia|]. split; [lia|].
    intros k Hk. assert (k = c) by lia. subst k. apply Q.le_max_l. }
  destruct (Qle_bool (mean curve) 0) eqn:E1; cbn [orb].
  { destruct Htriv as (H1 & H2 & H3). repeat (split; [assumption|]).
    intros H. qbool. exfalso. lra. }
  destruct (Qle_bool (mean curve) v) eqn:E2.
  { destruct Htriv as (H1 & H2 & H3). repeat (split; [assumption|]).
    intros _ H. qbool. exfalso. lra. }
  qbool.
  set (mask := map (fun x => Qle_bool x thresh) curve).
  assert (Hv : v <= thresh) by (subst thresh; nra).
  assert (Hmc : nth (Z.to_nat c) mask false = true).
  { subst mask. rewrite nth_mask by lia. apply Qle_bool_iff. exact Hv. }
  rewrite Hmc. cbn [negb fst snd].
  pose proof (grow_left_spec mask (Z.to_nat c)) as (L1 & L2 & L3).
  pose proof (grow_right_spec mask (length curve - 1 - Z.to_nat c) (Z.to_nat c))
    as (R1 & R2 & R3).
  cbv zeta in L1, L2, L3, R1, R2, R3.
  set (gl := split.grow_left mask (Z.to_nat c)) in *.
  set (gr := split.grow_right mask (length curve - 1 - Z.to_nat c) (Z.to_nat c)) in *.
  split; [lia|]. split; [lia|]. split.
  - intros k Hk.
    eapply Qle_trans; [|apply Q.le_max_r].
    assert (Hm : nth (Z.to_nat k) mask false = true).
    { destruct (Z_lt_le_dec k c) as [Hlt|Hge].
      - apply L2. lia.
      - destruct (Z.eq_dec k c) as [->|Hne2]; [exact Hmc|]. apply R2. lia. }
    subst mask. rewrite nth_mask in Hm by lia. now apply Qle_bool_iff.
  - intros _ _. split; intro H.
    + assert (Hm : nth (gl - 1) mask false = false) by (apply L3; lia).
      replace (Z.to_nat (Z.of_nat gl - 1)) with (gl - 1)%nat by lia.
      subst mask. rewrite nth_mask in Hm by lia. now apply Qle_bool_false.
    + assert (Hm : nth (S gr) mask false = false) by (apply R3; lia).
      replace (Z.to_nat (Z.of_nat gr + 1)) with (S gr) by lia.
      subst mask. rewrite nth_mask in Hm by lia. now apply Qle_bool_false.
Qed.

Lemma band_edges_low_run_witness :
  split._band_edges [9; 8; 1; 2; 9; 9] 2 = (2%Z, 3%Z)
  /\ (2 <= 3 <= 6 - 1)%Z.
Proof.
  assert (Hne : [9; 8; 1; 2; 9; 9] <> @nil Q) by discriminate.
  pose proof (band_edges_low_run [9; 8; 1; 2; 9; 9] 2 Hne) as (_ & H & _).
  split; [reflexivity|exact H].
Defined.

(** ** Normalised scores of the gutter search (split.py) *)

Lemma Qminimum_le_init (x : Q) (l : list Q) : Qminimum x l <= x.
Proof.
  unfold Qminimum. revert x. induction l as [|y t IH]; intro x; cbn [fold_left].
  - apply Qle_refl.
  - eapply Qle_trans; [apply IH|apply Q.le_min_l].
Qed.

Lemma Qminimum_le_In (x : Q) (l : list Q) (c : Q) : In c l -> Qminimum x l <= c.
Proof.
  unfold Qminimum. revert x. induction l as [|y t IH]; intros x Hin; [destruct Hin|].
  cbn [fold_left]. destruct Hin as [->|Hin].
  - eapply Qle_trans; [apply (Qminimum_le_init (Qmin x c) t)|apply Q.le_min_r].
  - now apply IH.
Qed.

Lemma Qmaximum_ge_init (x : Q) (l : list Q) : x <= Qmaximum x l.
Proof.
  unfold Qmaximum. revert x. induction l as [|y t IH]; intro x; cbn [fold_left].
  - apply Qle_refl.
  - eapply Qle_trans; [apply Q.le_max_l|apply IH].
Qed.

Lemma Qmaximum_ge_In (x : Q) (l : list Q) (c : Q) : In c l -> c <= Qmaximum x l.
Proof.
  unfold Qmaximum. revert x. induction l as [|y t IH]; intros x Hin; [destruct Hin|].
  cbn [fold_left]. destruct Hin as [->|Hin].
  - eapply Qle_trans; [apply Q.le_max_r|apply (Qmaximum_ge_init (Qmax x c) t)].
  - now apply IH.
Qed.

Lemma Qextrema_bound (x : Q) (t : list Q) (c : Q) :
  In c (x :: t) -> Qminimum x t <= c <= Qmaximum x t.
Proof.
  intros [<-|Hin].
  - split; [apply Qminimum_le_init|apply Qmaximum_ge_init].
  - split; [now apply Qminimum_le_In|now apply Qmaximum_ge_In].
Qed.

Lemma nth_map_in {A B} (f : A -> B) (l : list A) (i : nat) (da : A) (db : B) :
  (i < length l)%nat -> nth i (map f l) db = f (nth i l da).
Proof.
  intro Hi. rewrite (nth_indep _ db (f da)) by (now rewrite length_map).
  apply map_nth.
Qed.

(** X3. The helper norm_low of find_gutter_position returns region_w zeros for
    an empty curve and otherwise an array as long as the curve; every
    score is between 0 and 1; and the order is reversed: a position with a
    lower curve value never gets a lower score. *)
Theorem norm_low_unit_antitone :
  forall (region_w : nat) (curve : list Q),
    let s := split.norm_low region_w curve in
    length s = match curve with [] => region_w | _ => length curve end
    /\ Forall (fun v => 0 <= v <= 1) s
    /\ (forall i j : nat,
          (i < length curve)%nat -> (j < length curve)%nat ->
          nth i curve 0 <= nth j curve 0 -> nth j s 0 <= nth i s 0).
Proof.
  intros region_w curve s. subst s. unfold split.norm_low.
  destruct curve as [|x t].
  - split; [apply repeat_length|]. split.
    + apply Forall_forall. intros v Hv. apply repeat_spec in Hv. subst v.
      split; discriminate.
    + intros i j Hi. cbn in Hi. lia.
  - set (curve := x :: t). set (mn := Qminimum x t). set (mx := Qmaximum x t).
    destruct (Qlt_bool (mx - mn) (1 # 1000000000)) eqn:E; qbool.
    + split; [apply length_map|]. split.
      * apply Forall_map, Forall_forall. intros v _. split; discriminate.
      * intros i j Hi Hj _.
        rewrite (nth_map_in _ curve i 0 0), (nth_map_in _ curve j 0 0) by assumption.
        apply Qle_refl.
    + assert (Hd : 0 < mx - mn) by lra.
      split; [apply length_map|]. split.
      * apply Forall_map, Forall_forall. intros c Hc.
        destruct (Qextrema_bound x t c Hc) as [H1 H2]. fold mn mx in H1, H2.
        split; [apply Qle_shift_div_l; lra|apply Qle_shift_div_r; lra].
      * intros i j Hi Hj Hij.
        rewrite (nth_map_in _ curve i 0 0), (nth_map_in _ curve j 0 0) by assumption.
        apply Qle_shift_div_l; [exact Hd|].
        unfold Qdiv. rewrite <- Qmult_assoc, (Qmult_comm (/ _)), Qmult_inv_r by lra.
        lra.
Qed.

(** ** Valley confidence (split.py) *)

(** X4. For an index inside the curve, _confidence_from_valley returns a value
    between 0 and 1; it is 0 when the mean of the curve is not positive;
    with a positive mean it is 0 exactly when the value at the index is at
    least the mean, and 1 exactly when that value is at most half the
    mean. *)
Theorem confidence_from_valley_depth :
  forall (curve : list Q) (idx : nat),
    (idx < length curve)%nat ->
    let m := mean curve in
    let v := nth idx curve 0 in
    let c := split._confidence_from_valley curve idx in
    0 <= c <= 1
    /\ (m <= 0 -> c = 0)
    /\ (0 < m -> (c == 0 <-> m <= v) /\ (c == 1 <-> v <= m / 2)).
Proof.
  intros curve idx Hidx m v c. subst c. unfold split._confidence_from_valley.
  destruct curve as [|x t]; [cbn in Hidx; lia|]. cbv beta iota.
  set (curve := x :: t) in *. fold m. cbv zeta. fold v.
  destruct (Qle_bool m 0) eqn:E; qbool.
  - split; [split; discriminate|]. split; [reflexivity|]. intro H. exfalso. lra.
  - set (d := (m - v) / m * 2).
    assert (Hq : forall k : Q, (0 < k -> ((m - v) / m <= k <-> m - v <= k * m))
                               /\ (k <= (m - v) / m <-> k * m <= m - v)).
    { intro k. split; [intro Hk|]; split; intro H.
      - destruct (Qlt_le_dec (k * m) (m - v)) as [Hlt|Hge]; [|exact Hge].
        exfalso. apply (Qlt_shift_div_l _ _ _ E) in Hlt.
        revert H Hlt. generalize ((m - v) / m). intros q H1 H2. lra.
      - apply Qle_shift_div_r; assumption.
      - destruct (Qlt_le_dec (m - v) (k * m)) as [Hlt|Hge]; [|exact Hge].
        exfalso. apply (Qlt_shift_div_r _ _ _ E) in Hlt.
        revert H Hlt. generalize ((m - v) / m). intros q H1 H2. lra.
      - apply Qle_shift_div_l; assumption. }
    assert (Hd0 : d <= 0 <-> m <= v).
    { subst d. destruct (Qlt_le_dec v m) as [Hlt|Hge].
      - split; intro H; [exfalso|lra].
        assert (H3 : 0 * m < m - v) by lra.
        apply (Qlt_shift_div_l _ _ _ E) in H3.
        revert H H3. generalize ((m - v) / m). intros q H1 H2. lra.
      - split; intro H; [exact Hge|].
        assert (H3 : m - v <= 0 * m) by lra.
        apply (Qle_shift_div_r _ _ _ E) in H3.
        revert H3. generalize ((m - v) / m). intros q H1. lra. }
    assert (Hd1 : 1 <= d <-> v <= m / 2).
    { subst d. change (m / 2) with (m * (1 # 2)).
      destruct (Hq (1 # 2)) as [_ [H1 H2]]. split; intro H.
      - assert (H' : (1 # 2) * m <= m - v).
        { apply H1. revert H. generalize ((m - v) / m). intros q H. lra. }
        lra.
      - assert (H' : 1 # 2 <= (m - v) / m) by (apply H2; lra).
        revert H'. generalize ((m - v) / m). intros q H'. lra. }
    clearbody d. clear Hq.
    split; [|split; [intro H; exfalso; lra|intros _]].
    + split; [apply Q.min_glb; [discriminate|apply Q.le_max_l]|apply Q.le_min_l].
    + destruct (Q.max_spec 0 d) as [[Hlt Hmax]|[Hge Hmax]];
        destruct (Q.min_spec 1 (Qmax 0 d)) as [[Hlt' Hmin]|[Hge' Hmin]];
        rewrite Hmin; rewrite ?Hmax in *; split; split; intro H; lra.
Qed.

Lemma confidence_from_valley_depth_witness :
  split._confidence_from_valley [4; 1; 4] 1 == 1.
Proof.
  assert (H : (1 < length [4; 1; 4])%nat) by (cbn; lia).
  pose proof (confidence_from_valley_depth [4; 1; 4] 1%nat H) as (_ & _ & H1).
  assert (Hm : 0 < mean [4; 1; 4]) by reflexivity.
  destruct (H1 Hm) as [_ [_ H2]]. apply H2.
  apply Qle_bool_iff. reflexivity.
Defined.

(** ** The analysis copy (detection.py, split.py, stages/image_utils.py) *)

Lemma round_bounds (q : Q) : (Qfloor q <= round q <= Qfloor q + 1)%Z.
Proof.
  unfold round. cbv zeta.
  destruct (Qcompare _ _); [destruct (Z.even _)| |]; lia.
Qed.

Lemma round_le_integer (q : Q) (m : Z) : q <= inject_Z m -> (round q <= m)%Z.
Proof.
  intro H. pose proof (round_bounds q) as [_ Hr].
  pose proof (Qfloor_le q) as Hf.
  assert (Hfm : (Qfloor q <= m)%Z).
  { rewrite Zle_Qle. lra. }
  destruct (Z.eq_dec (Qfloor q) m) as [E|Hne]; [|lia].
  unfold round. cbv zeta.
  assert (Hlt : q - inject_Z (Qfloor q) < 1 # 2) by (rewrite E; lra).
  assert (Hc : Qcompare (q - inject_Z (Qfloor q)) (1 # 2) = Lt)
    by (apply Qlt_alt; exact Hlt).
  rewrite Hc. lia.
Qed.

Lemma round_ge_integer (q : Q) (m : Z) : inject_Z m <= q -> (m <= round q)%Z.
Proof.
  intro H. pose proof (round_bounds q) as [Hr _].
  assert (Hfm : (m <= Qfloor q)%Z).
  { rewrite <- (Qfloor_Z m). now apply Qfloor_resp_le. }
  lia.
Qed.

Lemma ref_resize_to_size (lines : option (list segment)) (cs : list contour) :
  resize_to_size (replay lines cs).
Proof.
  intros g new_w new_h Hw Hh. cbn [resize replay]. unfold ref_resize.
  unfold height, width, ncols. rewrite length_map, length_seq. split; [lia|].
  destruct (Z.to_nat new_h) as [|k] eqn:E; [lia|].
  cbn [seq map hd]. rewrite length_map, length_seq. lia.
Qed.

(** X5. When cv2.resize returns an image of the requested size and max_dim is
    at least 1: the copies of _resize_for_analysis in detection.py and
    split.py give the same result; an image whose larger side is at most
    max_dim is returned unchanged with scale 1; a larger image is resized
    so that its larger side is exactly max_dim and both sides are between
    1 and max_dim, and the returned scale is max_dim / max(h, w), strictly
    between 0 and 1. *)
Theorem resize_for_analysis_fits :
  forall (L : Lib) (gray : gray_image) (max_dim : Z),
    resize_to_size L -> (1 <= max_dim)%Z ->
    let h := height gray in
    let w := width gray in
    let r := detection._resize_for_analysis L gray max_dim in
    split._resize_for_analysis L gray max_dim = r
    /\ ((Z.max h w <= max_dim)%Z -> r = (gray, 1))
    /\ ((max_dim < Z.max h w)%Z ->
        (1 <= height (fst r) <= max_dim)%Z /\ (1 <= width (fst r) <= max_dim)%Z
        /\ Z.max (height (fst r)) (width (fst r)) = max_dim
        /\ snd r == inject_Z max_dim / inject_Z (Z.max h w)
        /\ 0 < snd r < 1).
Proof.
  intros L gray max_dim HL Hmax h w r. subst r.
  split; [reflexivity|].
  unfold detection._resize_for_analysis. fold h. fold w. cbv zeta.
  destruct (Z.leb_spec (Z.max h w) max_dim) as [Hle|Hgt].
  - split; [reflexivity|]. intro H. lia.
  - split; [intro H; lia|]. intros _. cbn [fst snd].
    set (m := Z.max h w) in *.
    set (scale := inject_Z max_dim / inject_Z m).
    assert (Hh0 : (0 <= h)%Z) by (subst h; unfold height; lia).
    assert (Hw0 : (0 <= w)%Z) by (subst w; unfold width; lia).
    assert (Hm : 0 < inject_Z m)
      by (change 0 with (inject_Z 0); rewrite <- Zlt_Qlt; lia).
    assert (Hs : 0 < scale < 1).
    { subst scale. split.
      - apply Qlt_shift_div_l; [exact Hm|]. rewrite Qmult_0_l.
        change 0 with (inject_Z 0). rewrite <- Zlt_Qlt. lia.
      - apply Qlt_shift_div_r; [exact Hm|]. rewrite Qmult_1_l.
        rewrite <- Zlt_Qlt. lia. }
    assert (Hside : forall s : Z, (0 <= s <= m)%Z ->
              (1 <= Z.max 1 (round (inject_Z s * scale)) <= max_dim)%Z
              /\ (s = m -> Z.max 1 (round (inject_Z s * scale)) = max_dim)).
    { intros s Hsm.
      assert (Hq : inject_Z s * scale <= inject_Z max_dim).
      { assert (inject_Z s <= inject_Z m) by (rewrite <- Zle_Qle; lia).
        assert (0 <= inject_Z s)
          by (change 0 with (inject_Z 0); rewrite <- Zle_Qle; lia).
        assert (0 < inject_Z max_dim)
          by (change 0 with (inject_Z 0); rewrite <- Zlt_Qlt; lia).
        assert (E : inject_Z max_dim == scale * inject_Z m).
        { subst scale. field. lra. }
        rewrite E. destruct Hs. nra. }
      split.
      - pose proof (round_le_integer _ _ Hq). lia.
      - intros ->.
        assert (E : inject_Z m * scale == inject_Z max_dim).
        { subst scale. field. lra. }
        rewrite (round_of_integer _ _ E). lia. }
    destruct (HL gray (Z.max 1 (round (inject_Z w * scale)))
                 (Z.max 1 (round (inject_Z h * scale)))) as [Eh Ew]; [lia|lia|].
    rewrite Eh, Ew.
    destruct (Hside h) as [Hh1 Hh2]; [lia|].
    destruct (Hside w) as [Hw1 Hw2]; [lia|].
    split; [exact Hh1|]. split; [exact Hw1|]. split.
    + destruct (Z.max_spec h w) as [[_ E]|[_ E]]; fold m in E.
      * rewrite Hw2 by (symmetry; exact E). lia.
      * rewrite Hh2 by (symmetry; exact E). lia.
    + split; [reflexivity|exact Hs].
Qed.

Lemma resize_for_analysis_fits_witness :
  let gray := uniform 7%Z 3 8 in
  (height (fst (detection._resize_for_analysis ref_lib gray 4)) = 2)%Z
  /\ Z.max (height (fst (detection._resize_for_analysis ref_lib gray 4)))
           (width (fst (detection._resize_for_analysis ref_lib gray 4))) = 4%Z.
Proof.
  intro gray. split; [reflexivity|].
  assert (H1 : (1 <= 4)%Z) by lia.
  assert (H2 : (4 < Z.max (height gray) (width gray))%Z) by (cbn; lia).
  pose proof (resize_for_analysis_fits ref_lib gray 4
                (ref_resize_to_size None []) H1) as (_ & _ & H).
  exact (proj1 (proj2 (proj2 (H H2)))).
Defined.

(** ** Splitting with an overlap and at the detected gutter (split.py) *)

Lemma slice_window {A} (a b : Z) (row : list A) :
  (0 <= a <= b)%Z ->
  slice (Some a) None (slice None (Some b) row) = slice (Some a) (Some b) row
  /\ slice None (Some (b - a)%Z) (slice (Some a) None row) = slice (Some a) (Some b) row.
Proof.
  intro H.
  assert (E : slice (Some a) (Some b) row
              = skipn (Z.to_nat a) (firstn (Z.to_nat b) row)).
  { unfold slice. rewrite !norm_idx_nonneg by lia.
    rewrite firstn_beyond.
    destruct (Nat.le_ge_cases (Z.to_nat a) (length row)) as [Hle|Hge].
    - now rewrite Nat.min_l.
    - rewrite Nat.min_r by exact Hge.
      rewrite !skipn_all2; [reflexivity| |]; rewrite length_firstn; lia. }
  rewrite E. split.
  - rewrite slice_to, slice_from by lia. reflexivity.
  - rewrite slice_to, slice_from by lia.
    rewrite skipn_firstn_comm. f_equal. lia.
Qed.

Lemma width_cols_to {P} (k : Z) (a : array2 P) :
  (0 <= k <= width a)%Z -> width (cols None (Some k) a) = k.
Proof.
  intro H. unfold width, cols, ncols in *.
  destruct a as [|row a]; cbn [map hd length] in *; [lia|].
  rewrite slice_to, length_firstn by lia. lia.
Qed.

Lemma width_cols_from {P} (k : Z) (a : array2 P) :
  (0 <= k <= width a)%Z -> width (cols (Some k) None a) = (width a - k)%Z.
Proof.
  intro H. unfold width, cols, ncols in *.
  destruct a as [|row a]; cbn [map hd length] in *; [lia|].
  rewrite slice_from, length_skipn by lia. lia.
Qed.

(** X6. split_facing_pages with a given gutter g and an overlap k (0 <= k <=
    g, g + k <= width) returns a left page of g + k columns and a right
    page of width - g + k columns, and the 2k columns around the gutter
    are in both pages: the last 2k columns of the left page and the first
    2k columns of the right page are columns g - k to g + k of the input. *)
Theorem split_facing_pages_overlap :
  forall (L : Lib) (im : image) (g k : Z),
    (0 <= k <= g)%Z -> (g + k <= snd (shape im))%Z ->
    let lr := split.split_facing_pages L im (Some g) k in
    let strip := split.image_cols (Some (g - k)%Z) (Some (g + k)%Z) im in
    snd (shape (fst lr)) = (g + k)%Z
    /\ snd (shape (snd lr)) = (snd (shape im) - g + k)%Z
    /\ split.image_cols (Some (g - k)%Z) None (fst lr) = strip
    /\ split.image_cols None (Some (2 * k)%Z) (snd lr) = strip.
Proof.
  intros L im g k Hk Hw lr strip. subst lr strip.
  unfold split.split_facing_pages.
  destruct (shape im) as [h w] eqn:Es. cbn [snd] in Hw.
  rewrite Z.min_l, Z.max_l by lia. cbn [fst snd].
  assert (Hcols : forall P (a : array2 P), width a = w ->
            width (cols None (Some (g + k)%Z) a) = (g + k)%Z
            /\ width (cols (Some (g - k)%Z) None a) = (w - g + k)%Z
            /\ cols (Some (g - k)%Z) None (cols None (Some (g + k)%Z) a)
               = cols (Some (g - k)%Z) (Some (g + k)%Z) a
            /\ cols None (Some (2 * k)%Z) (cols (Some (g - k)%Z) None a)
               = cols (Some (g - k)%Z) (Some (g + k)%Z) a).
  { intros P a Ha.
    split; [apply width_cols_to; lia|].
    split; [rewrite width_cols_from; lia|].
    unfold cols. rewrite !map_map.
    split; apply map_ext; intro row;
      destruct (slice_window (g - k) (g + k) row) as [E1 E2]; try lia;
      [exact E1|].
    replace (2 * k)%Z with (g + k - (g - k))%Z by lia. exact E2. }
  destruct im as [a|a]; cbn in Es; inversion Es; subst h w;
    cbn [split.image_cols shape snd];
    destruct (Hcols _ a eq_refl) as (H1 & H2 & H3 & H4);
    (split; [exact H1|]); (split; [exact H2|]); split; f_equal; assumption.
Qed.

Lemma split_facing_pages_overlap_witness :
  let im := Gray [[1; 2; 3; 4; 5]; [6; 7; 8; 9; 10]]%Z in
  split.split_facing_pages ref_lib im (Some 2%Z) 1
  = (Gray [[1; 2; 3]; [6; 7; 8]]%Z, Gray [[2; 3; 4; 5]; [7; 8; 9; 10]]%Z)
  /\ split.image_cols None (Some 2%Z) (Gray [[2; 3; 4; 5]; [7; 8; 9; 10]]%Z)
     = split.image_cols (Some 1%Z) (Some 3%Z) im.
Proof.
  intro im. split; [reflexivity|].
  assert (H1 : (0 <= 1 <= 2)%Z) by lia.
  assert (H2 : (2 + 1 <= snd (shape im))%Z) by (cbn; lia).
  exact (proj2 (proj2 (proj2 (split_facing_pages_overlap ref_lib im 2 1 H1 H2)))).
Defined.

Lemma cols_split_at {P} (g w : Z) (a : array2 P) :
  (0 <= g <= w)%Z -> width a = w ->
  split_of (Z.to_nat g) a (cols None (Some g) a) (cols (Some g) None a)
  /\ width (cols None (Some g) a) = g
  /\ (width (cols None (Some g) a) + width (cols (Some g) None a))%Z = w.
Proof.
  intros Hg Ha. unfold width in Ha.
  assert (Hl : cols None (Some g) a = map (firstn (Z.to_nat g)) a).
  { unfold cols. apply map_ext. intro r. apply slice_to. lia. }
  assert (Hr : cols (Some g) None a = map (skipn (Z.to_nat g)) a).
  { unfold cols. apply map_ext. intro r. apply slice_from. lia. }
  rewrite Hl, Hr.
  assert (Hn : (Z.to_nat g <= ncols a)%nat) by lia.
  pose proof (split_columns _ a Hn) as Hs.
  split; [exact Hs|].
  destruct Hs as (_ & _ & Hc & Hsum & _).
  unfold width. rewrite Hc. split; lia.
Qed.

(** X7. On an image at least 34 columns wide, split_facing_pages without a
    gutter position and without overlap cuts the image at the column
    find_gutter_position returns: the two pages side by side are the
    input, each page has at least one column, and their widths add up to
    the width of the input. *)
Theorem split_facing_pages_auto :
  forall (L : Lib) (im : image),
    (34 <= snd (shape im))%Z ->
    let g := split.find_gutter_position L im in
    let lr := split.split_facing_pages L im None 0 in
    image_split_of g im (fst lr) (snd lr)
    /\ (1 <= snd (shape (fst lr)))%Z /\ (1 <= snd (shape (snd lr)))%Z
    /\ (snd (shape (fst lr)) + snd (shape (snd lr)))%Z = snd (shape im).
Proof.
  intros L im Hw g lr. subst lr.
  pose proof (find_gutter_position_range L im) as Hr. fold g in Hr.
  unfold split.split_facing_pages. fold g. clearbody g.
  destruct (shape im) as [h w] eqn:Es. cbn [snd] in Hw, Hr.
  assert (Hg : (1 <= g < w)%Z) by (Z.div_mod_to_equations; lia).
  rewrite Z.add_0_r, Z.sub_0_r, Z.min_l, Z.max_l by lia. cbn [fst snd].
  destruct im as [a|a]; cbn in Es; inversion Es; subst h w;
    cbn [split.image_cols image_split_of shape snd];
    destruct (cols_split_at g (width a) a) as (H1 & H2 & H3); try lia;
    (split; [exact H1|]); rewrite H2 in *; lia.
Qed.

Lemma split_facing_pages_auto_witness :
  let im := white 2 40 in
  (1 <= snd (shape (fst (split.split_facing_pages ref_lib im None 0))))%Z
  /\ (1 <= snd (shape (snd (split.split_facing_pages ref_lib im None 0))))%Z.
Proof.
  intro im.
  assert (H : (34 <= snd (shape im))%Z) by (cbn; lia).
  pose proof (split_facing_pages_auto ref_lib im H) as (_ & H1 & H2 & _).
  split; assumption.
Defined.

(** X8. On an image at most 13 columns wide (and at most 1500 rows high, so
    that the analysis copy is the image itself), find_gutter_position
    returns the middle column w // 2: the search region from 10% to 90% of
    the width is not more than 10 columns wide. *)
Theorem find_gutter_position_narrow :
  forall (L : Lib) (im : image),
    gray_keeps_shape L im ->
    (fst (shape im) <= 1500)%Z -> (snd (shape im) <= 13)%Z ->
    split.find_gutter_position L im = (snd (shape im) / 2)%Z.
Proof.
  intros L im Hs Hh Hw. unfold split.find_gutter_position.
  unfold gray_keeps_shape in Hs.
  change (detection._to_gray L im) with (split._to_gray L im) in Hs.
  destruct (shape im) as [h w]. cbn [fst snd] in Hh, Hw.
  inversion Hs as [[Eh Ew]]. clear Hs.
  unfold split._resize_for_analysis. rewrite Eh, Ew.
  assert (Hw0 : (0 <= w)%Z) by (rewrite <- Ew; unfold width; lia).
  destruct (Z.leb_spec (Z.max h w) 1500) as [_|Hgt]; [|lia].
  cbv zeta. rewrite Ew.
  rewrite (int_scaled w 10 100), (int_scaled w 90 100) by lia.
  destruct (Z.leb_spec (w * 90 / 100) (w * 10 / 100 + 10)) as [_|Hgt];
    [reflexivity|].
  exfalso. Z.div_mod_to_equations. lia.
Qed.

Lemma find_gutter_position_narrow_witness :
  split.find_gutter_position ref_lib (white 3 12) = 6%Z.
Proof.
  apply (find_gutter_position_narrow ref_lib (white 3 12)).
  - reflexivity.
  - cbn. lia.
  - cbn. lia.
Defined.

(** ** Bounds of the line-based skew estimates *)

Lemma page_segments_bounded (L : Lib) (max_angle : Q) (lines : list segment) :
  hypot_positive L ->
  Forall (fun al => Qabs (fst al) <= max_angle /\ 0 < snd al)
         (detection.accepted_segments L max_angle lines).
Proof.
  intro HL. induction lines as [|[[[x1 y1] x2] y2] rest IH];
    cbn [detection.accepted_segments]; [constructor|].
  destruct (Qlt_bool (Qabs (inject_Z (x2 - x1))) 1) eqn:E1; [exact IH|].
  destruct (Qlt_bool max_angle _) eqn:E2; [exact IH|].
  constructor; [|exact IH]. cbn [fst snd]. qbool. split; [exact E2|].
  apply HL. exact E1.
Qed.

Lemma stage_segments_bounded (L : Lib) (max_angle : Q) (lines : list segment) :
  hypot_positive L ->
  Forall (fun al => Qabs (fst al) <= max_angle /\ 0 < snd al)
         (stages_deskew.accepted_segments L max_angle lines).
Proof.
  intro HL. induction lines as [|[[[x1 y1] x2] y2] rest IH];
    cbn [stages_deskew.accepted_segments]; [constructor|].
  destruct (Qlt_bool (Qabs (inject_Z (x2 - x1))) 1) eqn:E1; [exact IH|].
  destruct (Qle_bool _ max_angle) eqn:E2; [|exact IH].
  constructor; [|exact IH]. cbn [fst snd]. qbool. split; [exact E2|].
  apply HL. exact E1.
Qed.

Lemma weighted_sum_bound (acc : list (Q * Q)) (M : Q) :
  Forall (fun al => Qabs (fst al) <= M /\ 0 < snd al) acc ->
  - (M * Qsum (map snd acc)) <= Qsum (map (fun al => fst al * snd al) acc)
  <= M * Qsum (map snd acc).
Proof.
  induction 1 as [|[a l] acc [Ha Hl] _ IH]; cbn [map Qsum fold_right fst snd].
  - lra.
  - change (fold_right Qplus 0 (map snd acc)) with (Qsum (map snd acc)).
    change (fold_right Qplus 0 (map (fun al => fst al * snd al) acc))
      with (Qsum (map (fun al => fst al * snd al) acc)).
    cbn [fst snd] in Ha, Hl. apply Qabs_Qle_condition in Ha.
    revert IH. generalize (Qsum (map snd acc)).
    generalize (Qsum (map (fun al => fst al * snd al) acc)).
    intros s t IH. destruct Ha, IH. split; nra.
Qed.

Lemma weighted_mean_bound (acc : list (Q * Q)) (M : Q) :
  acc <> [] ->
  Forall (fun al => Qabs (fst al) <= M /\ 0 < snd al) acc ->
  0 < Qsum (map snd acc) /\ Qabs (weighted_mean acc) <= M.
Proof.
  intros Hne H.
  assert (Hpos : 0 < Qsum (map snd acc)).
  { apply total_length_positive; [exact Hne|].
    eapply Forall_impl; [|exact H]. intros al [_ Hl]. exact Hl. }
  split; [exact Hpos|].
  pose proof (weighted_sum_bound acc M H) as [H1 H2].
  unfold weighted_mean. apply Qabs_Qle_condition.
  revert H1 H2 Hpos. generalize (Qsum (map snd acc)).
  generalize (Qsum (map (fun al => fst al * snd al) acc)).
  intros s t H1 H2 Hpos. split.
  - apply Qle_shift_div_l; [exact Hpos|]. lra.
  - apply Qle_shift_div_r; [exact Hpos|]. lra.
Qed.

Lemma Qlen_nonneg {A} (l : list A) : 0 <= Qlen l.
Proof.
  unfold Qlen. change 0 with (inject_Z 0). rewrite <- Zle_Qle. lia.
Qed.

Lemma page_hough_estimate_bounded (L : Lib) (acc : list (Q * Q)) (M : Q) :
  0 <= M ->
  Forall (fun al => Qabs (fst al) <= M /\ 0 < snd al) acc ->
  Qabs (fst (detection.hough_estimate L acc)) <= M
  /\ 0 <= snd (detection.hough_estimate L acc) <= 1.
Proof.
  intros HM H. destruct acc as [|al acc].
  - cbn. split; [exact HM|split; discriminate].
  - destruct (weighted_mean_bound (al :: acc) M) as [Hpos Hb];
      [discriminate|exact H|].
    unfold detection.hough_estimate. cbn [map]. cbn [map] in Hpos.
    destruct (Qle_bool _ 0) eqn:E; qbool; [exfalso; lra|].
    cbn [fst snd]. split.
    + rewrite Qabs_opp. exact Hb.
    + split; [apply Q.min_glb; [discriminate|apply Q.le_max_l]|apply Q.le_min_l].
Qed.

Lemma stage_hough_estimate_bounded (L : Lib) (n : nat) (acc : list (Q * Q)) (M : Q) :
  std_nonneg L -> 0 <= M ->
  Forall (fun al => Qabs (fst al) <= M /\ 0 < snd al) acc ->
  let r := stages_deskew.hough_estimate L n acc in
  Qabs (stages_deskew.hough_angle r) <= M
  /\ 0 <= stages_deskew.hough_confidence r <= 1.
Proof.
  intros HS HM H. destruct acc as [|al acc].
  - cbn. split; [exact HM|split; discriminate].
  - destruct (weighted_mean_bound (al :: acc) M) as [Hpos Hb];
      [discriminate|exact H|].
    unfold stages_deskew.hough_estimate. cbn [map]. cbn [map] in Hpos.
    destruct (Qeq_bool _ 0) eqn:E; qbool; [exfalso; lra|].
    cbv zeta. cbn [stages_deskew.hough_angle stages_deskew.hough_confidence].
    split; [exact Hb|].
    set (s := if (1 <? _)%nat then _ else 0).
    assert (Hs : 0 <= s).
    { subst s. destruct (1 <? _)%nat; [apply HS|discriminate]. }
    set (cnt := Qlen _ / 20).
    assert (Hc : 0 <= cnt).
    { subst cnt. apply Qle_shift_div_l; [reflexivity|].
      rewrite Qmult_0_l. apply Qlen_nonneg. }
    assert (H1 : 0 <= Qmax 0 (1 - s / 5) <= 1).
    { split; [apply Q.le_max_l|]. apply Q.max_lub; [discriminate|].
      assert (0 <= s / 5) by (apply Qle_shift_div_l; [reflexivity|lra]). lra. }
    assert (H2 : 0 <= Qmin 1 cnt <= 1).
    { split; [apply Q.min_glb; [discriminate|exact Hc]|apply Q.le_min_l]. }
    revert H1 H2. generalize (Qmax 0 (1 - s / 5)) (Qmin 1 cnt). intros u v H1 H2.
    lra.
Qed.

(** X9. For a non-negative max_angle, positive segment lengths and a
    non-negative standard deviation: _detect_skew_hough of detection.py
    returns an angle of absolute value at most max_angle and a confidence
    between 0 and 1, whatever the image; detect_skew_hough of
    stages/deskew.py does so on an image of at least 30 columns (below,
    the dilation kernel w // 30 is empty and cv2 raises) whose segments
    have squared lengths that fit np.int32 (beyond, the sum of squares
    wraps and the length can be nan). *)
Theorem hough_estimates_bounded :
  forall (L : Lib) (gray : gray_image) (max_angle : Q),
    hypot_positive L -> std_nonneg L -> 0 <= max_angle ->
    let page := detection._detect_skew_hough L gray max_angle in
    let stage := stages_deskew.detect_skew_hough L gray max_angle in
    Qabs (fst page) <= max_angle /\ 0 <= snd page <= 1
    /\ ((1 <= height gray)%Z -> (30 <= width gray)%Z ->
        squares_fit_int32 (stage_lines L gray) ->
        Qabs (stages_deskew.hough_angle stage) <= max_angle
        /\ 0 <= stages_deskew.hough_confidence stage <= 1).
Proof.
  intros L gray max_angle HL HS HM page stage. subst page stage.
  assert (Hz : Qabs 0 <= max_angle /\ 0 <= 0 <= 1)
    by (split; [exact HM|split; discriminate]).
  assert (Hp : Qabs (fst (detection._detect_skew_hough L gray max_angle)) <= max_angle
               /\ 0 <= snd (detection._detect_skew_hough L gray max_angle) <= 1).
  { unfold detection._detect_skew_hough. cbv zeta.
    destruct (_ || _); [apply Hz|].
    destruct (HoughLinesP L _ _ _) as [[|l ls]|]; try apply Hz.
    apply page_hough_estimate_bounded; [exact HM|].
    now apply page_segments_bounded. }
  assert (Hst : Qabs (stages_deskew.hough_angle
                        (stages_deskew.detect_skew_hough L gray max_angle))
                <= max_angle
                /\ 0 <= stages_deskew.hough_confidence
                          (stages_deskew.detect_skew_hough L gray max_angle) <= 1).
  { unfold stages_deskew.detect_skew_hough. cbv zeta.
    destruct (HoughLinesP L _ _ _) as [[|l ls]|]; try apply Hz.
    apply stage_hough_estimate_bounded; [exact HS|exact HM|].
    now apply stage_segments_bounded. }
  tauto.
Qed.

Lemma ref_std_nonneg (lines : option (list segment)) (cs : list contour) :
  std_nonneg (replay lines cs).
Proof.
  intro l. cbn [std replay]. unfold ref_std, ref_sqrt, Qle. cbn [Qnum Qden].
  rewrite Z.mul_1_r. cbn [Z.mul]. apply Z.sqrt_nonneg.
Qed.

Lemma hough_estimates_bounded_witness :
  Qabs (fst (detection._detect_skew_hough tilt_lib tilted_page 15)) <= 15
  /\ Qabs (stages_deskew.hough_angle
             (stages_deskew.detect_skew_hough tilt_lib tilted_page 15)) <= 15.
Proof.
  assert (H15 : 0 <= 15) by discriminate.
  pose proof (hough_estimates_bounded tilt_lib tilted_page 15
                (ref_hypot_positive _ _) (ref_std_nonneg _ _) H15)
    as (H1 & _ & H2).
  split; [exact H1|]. apply H2.
  - apply Z.leb_le. reflexivity.
  - apply Z.leb_le. reflexivity.
  - repeat constructor.
Defined.

(** ** Bounds of the projection estimate and of the fused result (stages/deskew.py) *)

Lemma round_near (q : Q) : q - (1 # 2) <= inject_Z (round q) <= q + (1 # 2).
Proof.
  pose proof (Qfloor_le q) as Hf. pose proof (Qlt_floor q) as Hc.
  rewrite inject_Z_plus in Hc. change (inject_Z 1) with 1 in Hc.
  unfold round. cbv zeta.
  destruct (Qcompare_spec (q - inject_Z (Qfloor q)) (1 # 2)) as [E|E|E].
  - destruct (Z.even _); [|rewrite inject_Z_plus; change (inject_Z 1) with 1];
      split; lra.
  - split; lra.
  - rewrite inject_Z_plus. change (inject_Z 1) with 1. split; lra.
Qed.

Lemma round3_near (x : Q) : Qabs (round3 x - x) <= 1 # 2000.
Proof.
  unfold round3. pose proof (round_near (x * 1000)) as [H1 H2].
  revert H1 H2. generalize (inject_Z (round (x * 1000))). intros r H1 H2.
  apply Qabs_Qle_condition.
  assert (E : r / 1000 == r * (1 # 1000)) by reflexivity.
  rewrite E. split; lra.
Qed.

Lemma stage_hough_confidence_nonneg (L : Lib) (gray : gray_image) (max_angle : Q) :
  0 <= stages_deskew.hough_confidence
         (stages_deskew.detect_skew_hough L gray max_angle).
Proof.
  unfold stages_deskew.detect_skew_hough. cbv zeta.
  destruct (HoughLinesP L _ _ _) as [[|l ls]|]; try discriminate.
  unfold stages_deskew.hough_estimate.
  destruct (map fst _) as [|a0 angles]; [discriminate|].
  cbv zeta. cbn [stages_deskew.hough_confidence].
  set (cnt := Qlen (a0 :: angles) / 20).
  assert (Hc : 0 <= cnt).
  { subst cnt. apply Qle_shift_div_l; [reflexivity|].
    rewrite Qmult_0_l. apply Qlen_nonneg. }
  pose proof (Q.le_max_l 0 (1 - (if (1 <? length (a0 :: angles))%nat
                                 then std L (a0 :: angles) else 0) / 5)) as H1.
  assert (H2 : 0 <= Qmin 1 cnt) by (apply Q.min_glb; [discriminate|exact Hc]).
  revert H1 H2. generalize (Qmin 1 cnt).
  generalize (Qmax 0 (1 - (if (1 <? length (a0 :: angles))%nat
                           then std L (a0 :: angles) else 0) / 5)).
  intros u v H1 H2. lra.
Qed.

Lemma search_in (L : Lib) (binary : gray_image) (candidates : list Q) (best : Q * Q) :
  fst (stages_deskew.search L binary candidates best) = fst best
  \/ In (fst (stages_deskew.search L binary candidates best)) candidates.
Proof.
  unfold stages_deskew.search. revert best.
  induction candidates as [|a t IH]; intro best; cbn [fold_left]; [left; reflexivity|].
  match goal with
  | |- context [fold_left ?f t ?b] => destruct (IH b) as [H|H]
  end.
  - rewrite H. destruct (Qlt_bool _ _); cbn [fst]; [right; left|left]; reflexivity.
  - right. right. exact H.
Qed.

Lemma linspace_range (a b : Q) (n : nat) (x : Q) :
  a <= b -> (2 <= n)%nat -> In x (stages_deskew.linspace a b n) -> a <= x <= b.
Proof.
  intros Hab Hn Hin. unfold stages_deskew.linspace in Hin.
  apply in_map_iff in Hin. destruct Hin as (i & <- & Hi). apply in_seq in Hi.
  set (N := inject_Z (Z.of_nat (n - 1))).
  assert (HN : 0 < N)
    by (subst N; change 0 with (inject_Z 0); rewrite <- Zlt_Qlt; lia).
  set (I := inject_Z (Z.of_nat i)).
  assert (HI : 0 <= I <= N).
  { subst I N. change 0 with (inject_Z 0). rewrite <- !Zle_Qle. lia. }
  set (step := (b - a) / N).
  assert (Hstep : 0 <= step /\ step * N == b - a).
  { subst step. split; [apply Qle_shift_div_l; lra|field; lra]. }
  clearbody step I N. destruct Hstep as [Hs0 Hs1]. split; nra.
Qed.

Lemma projection_bounded (L : Lib) (gray : gray_image) (max_angle : Q) :
  0 <= max_angle ->
  Qabs (fst (stages_deskew.detect_skew_projection L gray max_angle))
  <= max_angle + 1
  /\ 0 <= snd (stages_deskew.detect_skew_projection L gray max_angle) <= 1.
Proof.
  intro HM. unfold stages_deskew.detect_skew_projection. cbv zeta.
  set (binary := threshold_binary_inv_otsu L gray).
  set (coarse := stages_deskew.linspace (- max_angle) max_angle 31).
  pose proof (search_in L binary coarse (0, 0)) as H1.
  destruct (stages_deskew.search L binary coarse (0, 0)) as [a1 s1].
  cbn [fst] in H1.
  assert (Ha1 : - max_angle <= a1 <= max_angle).
  { destruct H1 as [->|H1]; [split; lra|].
    apply (linspace_range _ _ 31); [lra|lia|exact H1]. }
  set (fine := stages_deskew.linspace (a1 - 1) (a1 + 1) 21).
  pose proof (search_in L binary fine (a1, s1)) as H2.
  destruct (stages_deskew.search L binary fine (a1, s1)) as [a2 s2].
  cbn [fst snd] in *.
  assert (Ha2 : a1 - 1 <= a2 <= a1 + 1).
  { destruct H2 as [->|H2]; [split; lra|].
    apply (linspace_range _ _ 21); [lra|lia|exact H2]. }
  split.
  - apply Qabs_Qle_condition. split; lra.
  - split; [apply Q.le_max_l|].
    apply Q.max_lub; [discriminate|].
    destruct (Qeq_bool _ 0); [discriminate|apply Q.le_min_l].
Qed.

(** X10. For a non-negative max_angle, detect_skew_projection returns an angle
    of absolute value at most max_angle + 1 (the fine search runs one
    degree around the coarse optimum, so it can leave the range asked for)
    and a confidence between 0 and 1. *)
Theorem detect_skew_projection_bounded :
  forall (L : Lib) (gray : gray_image) (max_angle : Q),
    0 <= max_angle ->
    Qabs (fst (stages_deskew.detect_skew_projection L gray max_angle))
    <= max_angle + 1
    /\ 0 <= snd (stages_deskew.detect_skew_projection L gray max_angle) <= 1.
Proof. exact projection_bounded. Qed.

Lemma detect_skew_projection_bounded_witness :
  Qabs (fst (stages_deskew.detect_skew_projection ref_lib (uniform 255%Z 2 2) 15))
  <= 15 + 1.
Proof.
  assert (H15 : 0 <= 15) by discriminate.
  exact (proj1 (detect_skew_projection_bounded ref_lib (uniform 255%Z 2 2) 15 H15)).
Defined.

Lemma sign_abs (a M : Q) : 0 <= M -> ~ a == 0 -> Qabs (sign a * M) == M.
Proof.
  intros HM Ha. unfold sign.
  destruct (Qlt_bool 0 a) eqn:E1; qbool.
  - rewrite Qmult_1_l. now apply Qabs_pos.
  - destruct (Qlt_bool a 0) eqn:E2; qbool.
    + assert (E : - (1) * M == - M) by ring. rewrite E, Qabs_opp. now apply Qabs_pos.
    + exfalso. apply Ha. lra.
Qed.

Lemma fuse_bounded (hr pr : Q * Q) (max_angle : Q) :
  0 <= max_angle -> 0 <= snd hr -> 0 <= snd pr ->
  Qabs (fst (stages_deskew.fuse hr pr max_angle)) <= max_angle
  /\ 0 <= snd (stages_deskew.fuse hr pr max_angle).
Proof.
  intros HM Hh Hp. unfold stages_deskew.fuse.
  cbn [map Qsum fold_right fst snd stages_deskew.weight].
  set (tw := snd hr * (55 # 100) + (snd pr * (45 # 100) + 0)).
  assert (Htw : 0 <= tw) by (subst tw; lra).
  set (ws := fst hr * snd hr * (55 # 100) + (fst pr * snd pr * (45 # 100) + 0)).
  set (fa := fst (if Qeq_bool tw 0 then (0, 0) else (ws / tw, tw))).
  set (fc := snd (if Qeq_bool tw 0 then (0, 0) else (ws / tw, tw))).
  assert (Hfc : 0 <= fc).
  { subst fc. destruct (Qeq_bool tw 0); cbn [snd]; [discriminate|exact Htw]. }
  assert (E : (if Qeq_bool tw 0 then (0, 0) else (ws / tw, tw)) = (fa, fc)).
  { subst fa fc. now destruct (Qeq_bool tw 0). }
  rewrite E. clearbody fa fc.
  destruct (Qlt_bool max_angle (Qabs fa)) eqn:Ec; qbool; cbn [fst snd].
  - split; [|lra].
    rewrite sign_abs; [apply Qle_refl|exact HM|].
    intro E0. rewrite E0 in Ec. change (Qabs 0) with 0 in Ec. lra.
  - split; assumption.
Qed.

(** X11. On an image of at least 30 columns (below, the line-based
    estimator raises: its dilation kernel w // 30 is empty) whose segments
    have squared lengths that fit np.int32 (beyond, the sum of squares
    wraps and the line-based angle can be nan), and for a non-negative
    max_angle, the fused result of
    detect_deskew has an angle of absolute value at most max_angle + 0.0005
    (the excess is the rounding to three decimals), a confidence between 0
    and 1, and needs_correction can only be set when min_angle <=
    max_angle. *)
Theorem detect_deskew_bounded :
  forall (L : Lib) (gray : gray_image) (min_angle max_angle : Q),
    (1 <= height gray)%Z -> (30 <= width gray)%Z ->
    squares_fit_int32 (stage_lines L gray) ->
    0 <= max_angle ->
    let res := stages_deskew.detect_deskew L gray min_angle max_angle in
    Qabs (stages_deskew.angle res) <= max_angle + (1 # 2000)
    /\ 0 <= stages_deskew.confidence res <= 1
    /\ (stages_deskew.needs_correction res = true -> min_angle <= max_angle).
Proof.
  intros L gray min_angle max_angle _ _ _ HM res. subst res.
  unfold stages_deskew.detect_deskew. cbv zeta.
  pose proof (stage_hough_confidence_nonneg L gray max_angle) as Hh.
  pose proof (projection_bounded L gray max_angle HM) as [_ [Hp _]].
  set (h := stages_deskew.detect_skew_hough L gray max_angle) in *.
  set (p := stages_deskew.detect_skew_projection L gray max_angle) in *.
  destruct (fuse_bounded (stages_deskew.hough_angle h, stages_deskew.hough_confidence h)
                         p max_angle HM Hh Hp) as [Ha Hc].
  destruct (stages_deskew.fuse _ p max_angle) as [fa fc].
  cbn [fst snd stages_deskew.angle stages_deskew.confidence
       stages_deskew.needs_correction] in *.
  split; [|split].
  - pose proof (round3_near fa) as Hr.
    apply Qabs_Qle_condition in Hr. apply Qabs_Qle_condition in Ha.
    apply Qabs_Qle_condition. revert Hr. generalize (round3 fa). intros r Hr.
    split; lra.
  - split; [apply Q.min_glb; [discriminate|exact Hc]|apply Q.le_min_l].
  - intro H. qbool. lra.
Qed.

Lemma detect_deskew_bounded_witness :
  0 <= stages_deskew.confidence
         (stages_deskew.detect_deskew tilt_lib tilted_page (1 # 2) 15) <= 1.
Proof.
  assert (Hh : (1 <= height tilted_page)%Z) by (apply Z.leb_le; reflexivity).
  assert (Hw : (30 <= width tilted_page)%Z) by (apply Z.leb_le; reflexivity).
  assert (Hf : squares_fit_int32 (stage_lines tilt_lib tilted_page))
    by (repeat constructor).
  assert (H15 : 0 <= 15) by discriminate.
  exact (proj1 (proj2 (detect_deskew_bounded tilt_lib tilted_page (1 # 2) 15
                         Hh Hw Hf H15))).
Defined.

(** ** The dewarp decision (stages/dewarp.py) *)

Lemma Qsum_le_max (x : Q) (l : list Q) (M : Q) :
  Forall (fun v => v <= M) l -> Qsum l <= Qlen l * M.
Proof.
  induction 1 as [|v l Hv Hl IH].
  - unfold Qlen. cbn [length Z.of_nat Qsum fold_right].
    change (inject_Z 0) with 0. lra.
  - change (v + Qsum l <= Qlen (v :: l) * M).
    assert (E : Qlen (v :: l) == 1 + Qlen l).
    { unfold Qlen. cbn [length]. rewrite Nat2Z.inj_succ, <- Z.add_1_l.
      now rewrite inject_Z_plus. }
    rewrite E. lra.
Qed.

Lemma mean_le_maximum (x : Q) (t : list Q) : mean (x :: t) <= Qmaximum x t.
Proof.
  unfold mean.
  assert (Hn : 0 < Qlen (x :: t)).
  { unfold Qlen. change 0 with (inject_Z 0). rewrite <- Zlt_Qlt. cbn [length]. lia. }
  apply Qle_shift_div_r; [exact Hn|].
  rewrite Qmult_comm. apply (Qsum_le_max x).
  apply Forall_forall. intros v Hv. now apply Qextrema_bound.
Qed.

(** X12. On an image of at least 20 columns (below, the dilation kernel
    w // 20 is empty and cv2 raises), detect_curvature_lines returns a
    confidence between 0 and 1 and an average curvature between 0 and the
    maximal curvature. detect_dewarp asks for a dewarp only when the
    dewarp library is available and the curvature score reaches
    min_curvature; with a positive min_curvature such a decision has
    confidence at least 0.1; with min_curvature above 1 it never asks for
    a dewarp. *)
Theorem detect_dewarp_decision :
  forall (L : Lib) (available : bool) (gray : gray_image) (min_curvature : Q),
    (1 <= height gray)%Z -> (20 <= width gray)%Z ->
    let r := stages_dewarp.detect_curvature_lines L gray in
    let d := stages_dewarp.detect_dewarp L available gray min_curvature in
    0 <= stages_dewarp.confidence r <= 1
    /\ 0 <= stages_dewarp.avg_curvature r <= stages_dewarp.max_curvature r
    /\ (stages_dewarp.needs_dewarp d = true ->
        available = true /\ min_curvature <= stages_dewarp.curvature_score d)
    /\ (0 < min_curvature -> stages_dewarp.needs_dewarp d = true ->
        1 # 10 <= stages_dewarp.dewarp_confidence d)
    /\ (1 < min_curvature -> stages_dewarp.needs_dewarp d = false).
Proof.
  intros L available gray min_curvature _ _ r d. subst r d.
  unfold stages_dewarp.detect_dewarp. cbv zeta.
  cbn [stages_dewarp.needs_dewarp stages_dewarp.curvature_score
       stages_dewarp.dewarp_confidence].
  assert (Hr : let r := stages_dewarp.detect_curvature_lines L gray in
               0 <= stages_dewarp.confidence r <= 1
               /\ 0 <= stages_dewarp.avg_curvature r <= stages_dewarp.max_curvature r
               /\ stages_dewarp.score r <= 1
               /\ (0 < stages_dewarp.score r -> 1 # 10 <= stages_dewarp.confidence r)).
  { unfold stages_dewarp.detect_curvature_lines. cbv zeta.
    assert (Hz : 0 <= 0 <= 1 /\ 0 <= 0 <= 0 /\ 0 <= 1 /\ (0 < 0 -> 1 # 10 <= 0)).
    { repeat split; try discriminate. }
    destruct (_ <? 3)%nat; [exact Hz|].
    pose proof (stage_line_curvatures_nonneg L (width gray)
                  (stages_dewarp.text_lines L (height gray) (width gray)
                     (findContours L
                        (dilate L (threshold_binary_inv_otsu L gray)
                           (width gray / 20))))
                  (width_array_nonneg gray)) as Hnn.
    destruct (stages_dewarp.line_curvatures L _ _) as [|c rest]; [exact Hz|].
    cbn [stages_dewarp.confidence stages_dewarp.avg_curvature
         stages_dewarp.max_curvature stages_dewarp.score].
    assert (Hlen : 1 <= Qlen (c :: rest)).
    { unfold Qlen. change 1 with (inject_Z 1). rewrite <- Zle_Qle.
      cbn [length]. lia. }
    assert (Hc : 1 # 10 <= Qlen (c :: rest) / 10).
    { apply Qle_shift_div_l; [reflexivity|]. lra. }
    split; [split; [|apply Q.le_min_l]|].
    { apply Q.min_glb; [discriminate|]. lra. }
    split; [split; [now apply mean_nonneg|apply mean_le_maximum]|].
    split; [apply Q.le_min_l|].
    intros _. apply Q.min_glb; [discriminate|exact Hc]. }
  cbv zeta in Hr. destruct Hr as (H1 & H2 & H3 & H4).
  split; [exact H1|]. split; [exact H2|].
  destruct (Qle_bool min_curvature _) eqn:E; qbool; cbn [andb].
  - split; [intro H; split; [exact H|exact E]|].
    split; [intros Hm _; apply H4; lra|].
    intro Hm. exfalso. lra.
  - split; [discriminate|]. split; [discriminate|reflexivity].
Qed.

(** On the bowed page, with the dewarp library available and the default
    threshold 0.1, a dewarp is asked for, with confidence at least 0.1. *)
Lemma detect_dewarp_decision_witness :
  stages_dewarp.needs_dewarp
    (stages_dewarp.detect_dewarp bow_lib true bowed_gray (1 # 10)) = true
  /\ 1 # 10 <= stages_dewarp.dewarp_confidence
                 (stages_dewarp.detect_dewarp bow_lib true bowed_gray (1 # 10)).
Proof.
  assert (H1 : (1 <= height bowed_gray)%Z) by (apply Z.leb_le; reflexivity).
  assert (H2 : (20 <= width bowed_gray)%Z) by (apply Z.leb_le; reflexivity).
  assert (Hn : stages_dewarp.needs_dewarp
                 (stages_dewarp.detect_dewarp bow_lib true bowed_gray (1 # 10))
               = true) by (vm_compute; reflexivity).
  assert (Hm : 0 < 1 # 10) by reflexivity.
  pose proof (detect_dewarp_decision bow_lib true bowed_gray (1 # 10) H1 H2)
    as (_ & _ & _ & H4 & _).
  split; [exact Hn|exact (H4 Hm Hn)].
Defined.

(** ** The rotation sub-scorers and the confidence of the vote (stages/rotation.py) *)

(** X13. On an image of at least 20 x 20 pixels (with morphological opening
    and Canny returning non-negative pixels), the three rotation scorers
    give every rotation a score between 0 and 1; detect_text_orientation
    and detect_edge_orientation each score one axis only (either 90 and
    270 degrees get 0, or 0 and 180 degrees get 0);
    detect_content_orientation gives a non-zero score to at most one
    rotation. *)
Theorem orientation_scores_one_axis :
  forall (L : Lib) (gray : gray_image),
    morph_open_nonneg L -> canny_nonneg L ->
    (20 <= height gray)%Z -> (20 <= width gray)%Z ->
    let t := detect_text_orientation L gray in
    let e := detect_edge_orientation L gray in
    let c := detect_content_orientation L gray in
    (forall r, 0 <= t r <= 1 /\ 0 <= e r <= 1 /\ 0 <= c r <= 1)
    /\ ((t R90 = 0 /\ t R270 = 0) \/ (t R0 = 0 /\ t R180 = 0))
    /\ ((e R90 = 0 /\ e R270 = 0) \/ (e R0 = 0 /\ e R180 = 0))
    /\ (exists r0, forall r, r <> r0 -> c r = 0).
Proof.
  intros L gray HM HC _ _ t e c. subst t e c.
  split; [|split; [|split]].
  - intro r. split; [|split].
    + now apply detect_text_orientation_unit.
    + now apply detect_edge_orientation_unit.
    + apply detect_content_orientation_unit.
  - unfold detect_text_orientation. cbv zeta.
    destruct (Qeq_bool _ 0); [left; split; reflexivity|].
    destruct (Qlt_bool _ _); destruct (Qle_bool _ _); cbn [mk_scores];
      (left; split; reflexivity) || (right; split; reflexivity).
  - unfold detect_edge_orientation. cbv zeta.
    destruct (Qlt_bool _ _); destruct (Qle_bool _ _); cbn [mk_scores];
      (left; split; reflexivity) || (right; split; reflexivity).
  - unfold detect_content_orientation. cbv zeta.
    destruct (Qle_bool _ _); destruct (Qle_bool _ _);
      [exists R0|exists R180|exists R270|exists R90];
      intros [] H; cbn [mk_scores]; congruence.
Qed.

Lemma orientation_scores_one_axis_witness :
  exists r0, forall r, r <> r0 ->
    detect_content_orientation ref_lib (uniform 255%Z 20 20) r = 0.
Proof.
  assert (H1 : (20 <= height (uniform 255%Z 20 20))%Z) by (cbn; lia).
  assert (H2 : (20 <= width (uniform 255%Z 20 20))%Z) by (cbn; lia).
  exact (proj2 (proj2 (proj2
           (orientation_scores_one_axis ref_lib (uniform 255%Z 20 20)
              (ref_morph_open_nonneg _ _) (ref_canny_nonneg _ _) H1 H2)))).
Defined.

(** X14. On an image of at least 20 x 20 pixels (with morphological opening
    and Canny returning non-negative pixels), the confidence
    detect_rotation reports is the combined score of the rotation it
    returns, no rotation has a higher combined score, every combined score
    is non-negative, and the confidence is at most 1. *)
Theorem detect_rotation_confidence :
  forall (L : Lib) (gray : gray_image),
    morph_open_nonneg L -> canny_nonneg L ->
    (20 <= height gray)%Z -> (20 <= width gray)%Z ->
    let res := detect_rotation L gray in
    (forall r, 0 <= combined_scores res r <= confidence res)
    /\ confidence res == combined_scores res (rotation res)
    /\ confidence res <= 1.
Proof.
  intros L gray HM HC _ _ res. subst res.
  rewrite detect_rotation_is_vote.
  set (t := detect_text_orientation L gray).
  set (e := detect_edge_orientation L gray).
  set (c := detect_content_orientation L gray).
  assert (Ht : forall r, 0 <= t r <= 1) by (intro r; now apply detect_text_orientation_unit).
  assert (He : forall r, 0 <= e r <= 1) by (intro r; now apply detect_edge_orientation_unit).
  assert (Hc : forall r, 0 <= c r <= 1) by (intro r; apply detect_content_orientation_unit).
  unfold vote. cbv zeta.
  cbn [combined_scores confidence rotation weights].
  set (cand := fun r : TRotation =>
                 0 + t r * (5 # 10) + e r * (3 # 10) + c r * (2 # 10)).
  assert (Hcand : forall r, 0 <= cand r <= 1).
  { intro r. subst cand. cbv beta.
    specialize (Ht r). specialize (He r). specialize (Hc r). split; lra. }
  set (best := max_key rotations R0 cand).
  assert (Hmin : Qmin 1 (cand best) == cand best).
  { apply Q.min_r. apply Hcand. }
  change ((forall r, 0 <= cand r <= Qmin 1 (cand best))
          /\ Qmin 1 (cand best) == cand best /\ Qmin 1 (cand best) <= 1).
  split; [|split].
  - intro r. split; [apply Hcand|].
    apply Q.min_glb; [apply Hcand|].
    subst best. apply max_key_ge. destruct r; cbn; tauto.
  - exact Hmin.
  - apply Q.le_min_l.
Qed.

Lemma detect_rotation_confidence_witness :
  confidence (detect_rotation ref_lib (uniform 255%Z 20 20)) <= 1.
Proof.
  assert (H1 : (20 <= height (uniform 255%Z 20 20))%Z) by (cbn; lia).
  assert (H2 : (20 <= width (uniform 255%Z 20 20))%Z) by (cbn; lia).
  exact (proj2 (proj2
           (detect_rotation_confidence ref_lib (uniform 255%Z 20 20)
              (ref_morph_open_nonneg _ _) (ref_canny_nonneg _ _) H1 H2))).
Defined.

(** ** Narrow and blank pages (detection.py) *)

Lemma slice_empty {A} (a : Z) (l : list A) : slice (Some a) (Some a) l = [].
Proof.
  unfold slice. apply skipn_all2. rewrite length_firstn. lia.
Qed.

(** X15. detect_facing_pages raises ValueError (np.max of an empty array) on
    every image that is less than 10 columns wide and whose aspect ratio
    width / height is at least 1.05: the centre band of the gutter search
    is empty. *)
Theorem detect_facing_pages_narrow_raises :
  forall (L : Lib) (im : image),
    gray_keeps_shape L im ->
    (1 <= fst (shape im))%Z -> (snd (shape im) < 10)%Z ->
    105 # 100 <= inject_Z (snd (shape im)) / inject_Z (fst (shape im)) ->
    detection.detect_facing_pages L im = Raise ValueError.
Proof.
  intros L im Hs Hh Hw Hr. unfold detection.detect_facing_pages.
  unfold gray_keeps_shape in Hs.
  destruct (shape im) as [h w]. cbn [fst snd] in Hh, Hw, Hr.
  injection Hs as Eh Ew.
  destruct (Z.eqb_spec h 0) as [E|_]; [lia|].
  pose proof Hr as Hr'. apply Qlt_bool_false in Hr'. rewrite Hr'.
  assert (Hw0 : (0 <= w)%Z) by (rewrite <- Ew; unfold width; lia).
  assert (Hhw : (h <= w)%Z).
  { destruct (Z_lt_le_dec w h) as [Hlt|Hge]; [exfalso|exact Hge].
    assert (Hq : inject_Z w / inject_Z h < 1).
    { apply Qlt_shift_div_r.
      - change 0 with (inject_Z 0). rewrite <- Zlt_Qlt. lia.
      - rewrite Qmult_1_l. rewrite <- Zlt_Qlt. exact Hlt. }
    revert Hr Hq. generalize (inject_Z w / inject_Z h). intros q H1 H2. lra. }
  unfold detection._resize_for_analysis. rewrite Eh, Ew.
  destruct (Z.leb_spec (Z.max h w) 1500) as [_|Hgt]; [|lia].
  cbn [fst]. cbv zeta. rewrite Ew.
  rewrite (int_scaled w 5 100), (int_scaled w 95 100) by lia.
  assert (Hwin : (w * 5 / 100 + 10 <? w * 95 / 100)%Z = false).
  { apply Z.ltb_ge. Z.div_mod_to_equations. lia. }
  rewrite Hwin.
  assert (Hcw : (w / 5 / 2 = 0)%Z) by (Z.div_mod_to_equations; lia).
  rewrite Hcw, Z.add_0_r, Z.sub_0_r.
  set (gray := detection._to_gray L im) in *.
  assert (Hcols : mean_axis0 (to_float (cols (Some (w / 2)%Z) (Some (w / 2)%Z) gray)) = []).
  { unfold mean_axis0, columns, to_float, amap, cols, ncols.
    destruct gray as [|row rest]; [reflexivity|].
    cbn [map hd]. rewrite slice_empty. reflexivity. }
  rewrite Hcols. reflexivity.
Qed.

Lemma detect_facing_pages_narrow_raises_witness :
  detection.detect_facing_pages ref_lib
    (Gray [[10; 200; 30; 40; 250]; [0; 60; 70; 80; 90]; [5; 5; 5; 5; 5]]%Z)
  = Raise ValueError.
Proof.
  apply detect_facing_pages_narrow_raises.
  - reflexivity.
  - cbn. lia.
  - cbn. lia.
  - apply Qle_bool_iff. reflexivity.
Defined.

(** X16. On a blank (uniformly white) page of any positive size (OpenCV and
    numpy behaving on uniform images as expected: resizing keeps them
    uniform, the Otsu threshold is below white, the standard deviation of
    a constant is 0, dilation with a non-empty kernel keeps a black image
    black, a black image has no contour), detect_content_bounds finds no
    content (None) and detect_skew_angle returns 0; detect_curvature
    returns 0 when the analysis copy of the page has at least 20 columns
    (below, its dilation kernel w // 20 is empty and cv2 raises). *)
Theorem blank_page_neutral :
  forall (L : Lib) (h w : nat),
    resize_keeps_uniform L -> otsu_below_white L -> std_of_constant L ->
    dilate_keeps_black L -> no_contour_in_black L ->
    (0 < h)%nat -> (0 < w)%nat ->
    detection.detect_content_bounds L (white h w) = None
    /\ detection.detect_skew_angle L (white h w) = 0
    /\ ((20 <= width (analysis_copy L (white h w)))%Z ->
        detection.detect_curvature L (white h w) = 0).
Proof.
  intros L h w HR HO HS HD HC Hh Hw. split; [|split].
  - now apply blank_content_bounds.
  - now apply blank_skew_angle.
  - now apply blank_curvature.
Qed.

Lemma blank_page_neutral_witness :
  detection.detect_content_bounds ref_lib (white 3 24) = None
  /\ detection.detect_skew_angle ref_lib (white 3 24) = 0
  /\ detection.detect_curvature ref_lib (white 3 24) = 0.
Proof.
  assert (H : (20 <= width (analysis_copy ref_lib (white 3 24)))%Z)
    by (apply Z.leb_le; reflexivity).
  destruct (blank_page_neutral ref_lib 3 24) as (H1 & H2 & H3);
    [apply ref_resize_keeps_uniform|apply ref_otsu_below_white
    |apply ref_std_of_constant|apply ref_dilate_keeps_black
    |apply ref_no_contour_in_black|lia|lia|].
  split; [exact H1|]. split; [exact H2|exact (H3 H)].
Defined.

(** X17. On a blank (uniformly white) page at least 10 columns wide, of any
    positive height (resizing keeps a uniform image uniform, Canny finds
    no edge in it, blurring and percentiles of a constant give the
    constant), detect_facing_pages returns False without raising. *)
Theorem blank_page_not_a_spread :
  forall (L : Lib) (h w : nat),
    resize_keeps_uniform L -> canny_of_uniform L -> blur_of_constant L ->
    percentile_of_constant L ->
    (0 < h)%nat -> (10 <= w)%nat ->
    detection.detect_facing_pages L (white h w) = Ok false.
Proof.
  intros L h w HR HC HB HP Hh Hw. now apply blank_facing_pages_wide.
Qed.

Lemma blank_page_not_a_spread_witness :
  detection.detect_facing_pages ref_lib (white 8 16) = Ok false.
Proof.
  apply blank_page_not_a_spread;
    [apply ref_resize_keeps_uniform|apply ref_canny_of_uniform
    |apply ref_blur_of_constant|apply ref_percentile_of_constant| |]; lia.
Defined.

(** ** Halving, cropping (stages/geometry.py, crop.py) *)

Lemma slice_all {A} (l : list A) : slice None None l = l.
Proof. unfold slice. now rewrite firstn_all. Qed.

Lemma cols_all {P} (a : array2 P) : cols None None a = a.
Proof.
  unfold cols. rewrite <- (map_id a) at 2. apply map_ext. intro r. apply slice_all.
Qed.

Lemma int_unit_range (n : Z) (p : Q) :
  (0 <= n)%Z -> 0 <= p <= 1 -> (0 <= int (inject_Z n * p) <= n)%Z.
Proof.
  intros Hn [H0 H1].
  assert (HN : 0 <= inject_Z n)
    by (change 0 with (inject_Z 0); rewrite <- Zle_Qle; exact Hn).
  assert (Hq : forall N : Q, 0 <= N -> 0 <= N * p <= N).
  { intros N HN'. split; [apply Qmult_le_0_compat; assumption|].
    assert (H2 : 0 <= N * (1 - p)) by (apply Qmult_le_0_compat; lra).
    assert (E : N * (1 - p) == N - N * p) by ring.
    rewrite E in H2. lra. }
  unfold int. destruct (Hq _ HN) as [Hq0 Hq1].
  pose proof Hq0 as Hb. apply Qle_bool_iff in Hb. rewrite Hb. split.
  - pose proof (Qfloor_resp_le _ _ Hq0) as H. exact H.
  - pose proof (Qfloor_resp_le _ _ Hq1) as H. now rewrite Qfloor_Z in H.
Qed.

Lemma height_nonneg (im : image) : (0 <= fst (shape im))%Z.
Proof. destruct im; cbn; unfold height; lia. Qed.

(** X18. For a position between 0 and 1 and no overlap, split_horizontal cuts
    the image at column int(w * position) and split_vertical at row int(h
    * position): the cut lies inside the image, the left and right parts
    side by side are the input, and the top part stacked on the bottom
    part is the input. *)
Theorem split_halves_partition :
  forall (im : image) (position : Q),
    0 <= position <= 1 ->
    let h := fst (shape im) in
    let w := snd (shape im) in
    let lr := geometry.split_horizontal im position 0 in
    let tb := geometry.split_vertical im position 0 in
    let x := int (inject_Z w * position) in
    let y := int (inject_Z h * position) in
    (0 <= x <= w)%Z /\ image_split_of x im (fst lr) (snd lr)
    /\ snd (shape (fst lr)) = x
    /\ (0 <= y <= h)%Z /\ stack (fst tb) (snd tb) = Some im
    /\ fst (shape (fst tb)) = y.
Proof.
  intros im position Hp h w lr tb x y. subst lr tb.
  pose proof (height_nonneg im) as Hh0. pose proof (width_nonneg im) as Hw0.
  fold h in Hh0. fold w in Hw0.
  pose proof (int_unit_range w position Hw0 Hp) as Hx. fold x in Hx.
  pose proof (int_unit_range h position Hh0 Hp) as Hy. fold y in Hy.
  unfold geometry.split_horizontal, geometry.split_vertical.
  subst h w. destruct (shape im) as [h w] eqn:Es. cbn [fst snd] in *.
  fold x. fold y.
  rewrite !Z.add_0_r, !Z.sub_0_r, !Z.min_l, !Z.max_l by lia. cbn [fst snd].
  split; [exact Hx|].
  assert (Hrows : forall P (a : array2 P), height a = h ->
            slice None (Some y) a ++ slice (Some y) None a = a
            /\ height (slice None (Some y) a) = y).
  { intros P a Ha. rewrite slice_to, slice_from by lia.
    split; [apply firstn_skipn|].
    unfold height in *. rewrite length_firstn. lia. }
  destruct im as [a|a]; cbn in Es; injection Es as Eh Ew;
    cbn [geometry.image_window image_split_of stack shape fst snd];
    rewrite !slice_all, !cols_all;
    destruct (cols_split_at x w a Hx Ew) as (H1 & H2 & _);
    destruct (Hrows _ a Eh) as [H3 H4];
    (split; [exact H1|]); (split; [exact H2|]); (split; [exact Hy|]);
    (split; [now rewrite H3|exact H4]).
Qed.

Lemma split_halves_partition_witness :
  let im := Gray [[1; 2; 3; 4]; [5; 6; 7; 8]]%Z in
  geometry.split_horizontal im (1 # 2) 0
  = (Gray [[1; 2]; [5; 6]]%Z, Gray [[3; 4]; [7; 8]]%Z)
  /\ stack (fst (geometry.split_vertical im (1 # 2) 0))
           (snd (geometry.split_vertical im (1 # 2) 0)) = Some im.
Proof.
  intro im. split; [reflexivity|].
  assert (Hp : 0 <= 1 # 2 <= 1) by (split; discriminate).
  exact (proj1 (proj2 (proj2 (proj2 (proj2 (split_halves_partition im (1 # 2) Hp)))))).
Defined.

Lemma slice_between {A} (a b : Z) (l : list A) :
  (0 <= a <= b)%Z -> (b <= Z.of_nat (length l))%Z ->
  slice (Some a) (Some b) l = skipn (Z.to_nat a) (firstn (Z.to_nat b) l)
  /\ length (slice (Some a) (Some b) l) = Z.to_nat (b - a).
Proof.
  intros Hab Hb. unfold slice. rewrite !norm_idx_nonneg by lia.
  rewrite !Nat.min_l by lia. split; [reflexivity|].
  rewrite length_skipn, length_firstn. lia.
Qed.

Lemma rect_nth {P} (a : array2 P) (i : nat) :
  rect a -> (i < length a)%nat -> length (nth i a []) = ncols a.
Proof.
  intros Hr Hi. unfold rect in Hr. rewrite Forall_forall in Hr.
  apply Hr. now apply nth_In.
Qed.

Lemma ncols_nth0 {P} (a : array2 P) : ncols a = length (nth 0 a []).
Proof. unfold ncols. now destruct a. Qed.

Lemma window_shape {P} (y1 y2 x1 x2 : Z) (a : array2 P) :
  rect a ->
  (0 <= y1 < y2)%Z -> (y2 <= height a)%Z ->
  (0 <= x1 <= x2)%Z -> (x2 <= width a)%Z ->
  let out := cols (Some x1) (Some x2) (slice (Some y1) (Some y2) a) in
  height out = (y2 - y1)%Z /\ width out = (x2 - x1)%Z
  /\ window_of (Z.to_nat y1) (Z.to_nat x1) a out.
Proof.
  intros Hr Hy Hy2 Hx Hx2 out. subst out. unfold height, width in *.
  destruct (slice_between y1 y2 a) as [Es El]; [lia|lia|].
  assert (Hrow : forall i, (i < Z.to_nat (y2 - y1))%nat ->
            nth i (slice (Some y1) (Some y2) a) [] = nth (Z.to_nat y1 + i) a []).
  { intros i Hi. rewrite Es, nth_skipn, nth_firstn.
    destruct (Nat.ltb_spec (Z.to_nat y1 + i) (Z.to_nat y2)); [reflexivity|lia]. }
  assert (Hcol : forall i, (i < Z.to_nat (y2 - y1))%nat ->
            nth i (cols (Some x1) (Some x2) (slice (Some y1) (Some y2) a)) []
            = skipn (Z.to_nat x1) (firstn (Z.to_nat x2) (nth (Z.to_nat y1 + i) a []))
            /\ length (nth i (cols (Some x1) (Some x2) (slice (Some y1) (Some y2) a)) [])
               = Z.to_nat (x2 - x1)).
  { intros i Hi. unfold cols.
    rewrite (nth_indep _ [] (slice (Some x1) (Some x2) []))
      by (rewrite length_map, El; exact Hi).
    rewrite (map_nth (slice (Some x1) (Some x2))), (Hrow i Hi).
    apply slice_between; [lia|].
    rewrite rect_nth by (assumption || lia). lia. }
  split; [unfold cols; rewrite length_map, El; lia|].
  split.
  - rewrite ncols_nth0. destruct (Hcol 0%nat) as [_ H]; [lia|].
    rewrite H. lia.
  - intros i j d Hi Hj. unfold cols in Hi. rewrite length_map, El in Hi.
    destruct (Hcol i Hi) as [E _]. rewrite E, nth_skipn, nth_firstn.
    assert (Hn : ncols (cols (Some x1) (Some x2) (slice (Some y1) (Some y2) a))
                 = Z.to_nat (x2 - x1)).
    { rewrite ncols_nth0. destruct (Hcol 0%nat) as [_ H]; [lia|]. exact H. }
    rewrite Hn in Hj.
    destruct (Nat.ltb_spec (Z.to_nat x1 + j) (Z.to_nat x2)); [reflexivity|lia].
Qed.

(** X19. For a box that lies inside a rectangular image and a non-negative
    padding, crop_rect returns the window of the image that starts at
    (max(0, y - padding), max(0, x - padding)): its pixels are those of
    the input at that offset, its width is between width and width + 2 *
    padding, its height between height and height + 2 * padding; and
    crop_to_content with the same box as bounds returns the same image. *)
Theorem crop_rect_window :
  forall (L : Lib) (im : image) (x y width height padding : Z),
    image_is_rect im ->
    (0 <= padding)%Z -> (0 <= x)%Z -> (0 <= y)%Z ->
    (1 <= width)%Z -> (1 <= height)%Z ->
    (x + width <= snd (shape im))%Z -> (y + height <= fst (shape im))%Z ->
    let out := geometry.crop_rect im x y width height padding in
    let x1 := Z.max 0 (x - padding) in
    let y1 := Z.max 0 (y - padding) in
    let x2 := Z.min (snd (shape im)) (x + width + padding) in
    let y2 := Z.min (fst (shape im)) (y + height + padding) in
    shape out = ((y2 - y1)%Z, (x2 - x1)%Z)
    /\ (width <= snd (shape out) <= width + 2 * padding)%Z
    /\ (height <= fst (shape out) <= height + 2 * padding)%Z
    /\ image_window_of y1 x1 im out
    /\ crop.crop_to_content L im
         (Some {| detection.x := x; detection.y := y;
                  detection.bwidth := width; detection.bheight := height |})
         padding = out.
Proof.
  intros L im x y width height padding Hr Hp Hx Hy Hw Hh Hxw Hyh out x1 y1 x2 y2.
  subst out. unfold geometry.crop_rect, crop.crop_to_content.
  cbn [detection.x detection.y detection.bwidth detection.bheight].
  destruct (shape im) as [h w] eqn:Es. cbn [fst snd] in *.
  fold x1 y1 x2 y2.
  assert (Hwin : forall P (a : array2 P), rect a -> Py.height a = h -> Py.width a = w ->
            let o := cols (Some x1) (Some x2) (slice (Some y1) (Some y2) a) in
            Py.height o = (y2 - y1)%Z /\ Py.width o = (x2 - x1)%Z
            /\ window_of (Z.to_nat y1) (Z.to_nat x1) a o).
  { intros P a Ha Eh Ew. apply window_shape; subst x1 y1 x2 y2; try assumption; lia. }
  destruct im as [a|a]; cbn in Es; injection Es as Eh Ew; cbn [image_is_rect] in Hr;
    cbn [geometry.image_window shape image_window_of fst snd];
    destruct (Hwin _ a Hr Eh Ew) as (H1 & H2 & H3);
    rewrite H1, H2;
    (split; [reflexivity|]); (split; [subst x1 x2; lia|]);
    (split; [subst y1 y2; lia|]); (split; [exact H3|reflexivity]).
Qed.

Lemma crop_rect_window_witness :
  geometry.crop_rect framed_block 2 2 2 2 1
  = Gray [[0; 0; 0; 0]; [0; 0; 0; 0]; [0; 0; 0; 0]; [0; 0; 0; 0]]%Z
  /\ shape (geometry.crop_rect framed_block 2 2 2 2 1) = (4%Z, 4%Z).
Proof.
  split; [reflexivity|].
  assert (Hr : image_is_rect framed_block) by (repeat constructor).
  refine (proj1 (crop_rect_window ref_lib framed_block 2 2 2 2 1 Hr _ _ _ _ _ _ _));
    cbn; lia.
Defined.

Lemma content_bounds_inside (L : Lib) (im : image) (b : detection.bounds) :
  gray_keeps_shape L im ->
  (1 <= fst (shape im))%Z -> (1 <= snd (shape im))%Z ->
  detection.detect_content_bounds L im = Some b ->
  (0 <= detection.x b /\ 0 <= detection.y b
   /\ 1 <= detection.bwidth b /\ 1 <= detection.bheight b
   /\ detection.x b + detection.bwidth b <= snd (shape im)
   /\ detection.y b + detection.bheight b <= fst (shape im))%Z.
Proof.
  intros Hshape Hh Hw. rewrite <- Hshape in Hh, Hw.
  rewrite <- Hshape. cbn [fst snd] in *.
  unfold detection.detect_content_bounds.
  destruct (detection._resize_for_analysis L (detection._to_gray L im) 1500)
    as [gray_small scale].
  cbv zeta.
  destruct (detection.flatnonzero (map detection.reduce_max _)) as [|y0 ys];
    [discriminate|].
  destruct (detection.flatnonzero (map detection.reduce_max _)) as [|x0 xs];
    [discriminate|].
  destruct (_ || _); [discriminate|].
  intro Hb. inversion Hb; subst b; clear Hb.
  cbn [detection.x detection.y detection.bwidth detection.bheight]. lia.
Qed.

(** X20. On a non-empty rectangular image and for a non-negative padding,
    crop_to_content without bounds returns the image unchanged when
    detect_content_bounds finds no content; otherwise the result is a
    window of the image that is at least as large as the detected content
    box and at most as large as the image. *)
Theorem crop_to_content_auto :
  forall (L : Lib) (im : image) (padding : Z),
    gray_keeps_shape L im -> image_is_rect im ->
    (1 <= fst (shape im))%Z -> (1 <= snd (shape im))%Z -> (0 <= padding)%Z ->
    let out := crop.crop_to_content L im None padding in
    match detection.detect_content_bounds L im with
    | None => out = im
    | Some b =>
        (detection.bwidth b <= snd (shape out) <= snd (shape im))%Z
        /\ (detection.bheight b <= fst (shape out) <= fst (shape im))%Z
        /\ image_window_of (Z.max 0 (detection.y b - padding))
                           (Z.max 0 (detection.x b - padding)) im out
    end.
Proof.
  intros L im padding Hs Hr Hh Hw Hp out. subst out.
  pose proof (content_bounds_inside L im) as Hin.
  unfold crop.crop_to_content.
  destruct (detection.detect_content_bounds L im) as [b|].
  - specialize (Hin b Hs Hh Hw eq_refl).
    destruct (shape im) as [h w] eqn:Es. cbn [fst snd] in *.
    destruct Hin as (Hx & Hy & Hbw & Hbh & Hxw & Hyh).
    assert (Hwin : forall P (a : array2 P), rect a -> Py.height a = h -> Py.width a = w ->
              let y1 := Z.max 0 (detection.y b - padding) in
              let y2 := Z.min h (detection.y b + detection.bheight b + padding) in
              let x1 := Z.max 0 (detection.x b - padding) in
              let x2 := Z.min w (detection.x b + detection.bwidth b + padding) in
              let o := cols (Some x1) (Some x2) (slice (Some y1) (Some y2) a) in
              Py.height o = (y2 - y1)%Z /\ Py.width o = (x2 - x1)%Z
              /\ window_of (Z.to_nat y1) (Z.to_nat x1) a o).
    { intros P a Ha Eh Ew. apply window_shape; try assumption; lia. }
    destruct im as [a|a]; cbn in Es; injection Es as Eh Ew; cbn [image_is_rect] in Hr;
      cbn [geometry.image_window shape image_window_of fst snd];
      destruct (Hwin _ a Hr Eh Ew) as (H1 & H2 & H3);
      rewrite H1, H2; (split; [lia|]); (split; [lia|exact H3]).
  - now destruct (shape im).
Qed.

Lemma crop_to_content_auto_witness :
  crop.crop_to_content ref_lib framed_block None 0
  = Gray [[0; 0; 0; 0]; [0; 0; 0; 0]; [0; 0; 0; 0]; [0; 0; 0; 0]]%Z
  /\ (4 <= snd (shape (crop.crop_to_content ref_lib framed_block None 0)) <= 6)%Z.
Proof.
  split; [reflexivity|].
  assert (Hs : gray_keeps_shape ref_lib framed_block) by reflexivity.
  assert (Hr : image_is_rect framed_block) by (repeat constructor).
  assert (H1 : (1 <= fst (shape framed_block))%Z) by (cbn; lia).
  assert (H2 : (1 <= snd (shape framed_block))%Z) by (cbn; lia).
  assert (H0 : (0 <= 0)%Z) by lia.
  pose proof (crop_to_content_auto ref_lib framed_block 0 Hs Hr H1 H2 H0) as H.
  assert (E : detection.detect_content_bounds ref_lib framed_block
              = Some {| detection.x := 1; detection.y := 1;
                        detection.bwidth := 4; detection.bheight := 4 |})
    by reflexivity.
  cbv zeta in H. rewrite E in H. exact (proj1 H).
Defined.

(** ** Ordering the corners of a quadrilateral (stages/geometry.py, dewarp.py) *)

Lemma argmin_from_spec (l : list Q) (i best : nat) (bv : Q) (pre : list Q) :
  length pre = i -> (best < i)%nat -> nth best pre 0 = bv ->
  (forall j, (j < i)%nat -> bv <= nth j pre 0) ->
  let r := numpy.argmin_from l i best bv in
  (r < i + length l)%nat
  /\ forall j, (j < i + length l)%nat -> nth r (pre ++ l) 0 <= nth j (pre ++ l) 0.
Proof.
  revert i best bv pre. induction l as [|x t IH]; intros i best bv pre Hlen Hb Hbv Hmin.
  - cbn [numpy.argmin_from length]. rewrite app_nil_r, Nat.add_0_r.
    split; [lia|]. intros j Hj. rewrite Hbv. now apply Hmin.
  - cbn [numpy.argmin_from length].
    assert (Eapp : pre ++ x :: t = (pre ++ [x]) ++ t) by (now rewrite <- app_assoc).
    rewrite Eapp.
    assert (Hlen' : length (pre ++ [x]) = S i) by (rewrite length_app; cbn; lia).
    destruct (Qlt_bool x bv) eqn:E; qbool.
    + destruct (IH (S i) i x (pre ++ [x])) as [H1 H2]; try assumption; try lia.
      * rewrite app_nth2 by lia. now rewrite Hlen, Nat.sub_diag.
      * intros j Hj. destruct (Nat.eq_dec j i) as [->|Hne].
        -- rewrite app_nth2 by lia. rewrite Hlen, Nat.sub_diag. apply Qle_refl.
        -- rewrite app_nth1 by lia. apply Qle_trans with bv; [lra|apply Hmin; lia].
      * split; [lia|]. intros j Hj. apply H2. lia.
    + destruct (IH (S i) best bv (pre ++ [x])) as [H1 H2]; try assumption; try lia.
      * rewrite app_nth1 by lia. exact Hbv.
      * intros j Hj. destruct (Nat.eq_dec j i) as [->|Hne].
        -- rewrite app_nth2 by lia. rewrite Hlen, Nat.sub_diag. exact E.
        -- rewrite app_nth1 by lia. apply Hmin. lia.
      * split; [lia|]. intros j Hj. apply H2. lia.
Qed.

Lemma argmin_spec (l : list Q) :
  l <> [] ->
  (numpy.argmin l < length l)%nat
  /\ forall j, (j < length l)%nat -> nth (numpy.argmin l) l 0 <= nth j l 0.
Proof.
  destruct l as [|x t]; [congruence|]. intros _. unfold numpy.argmin.
  destruct (argmin_from_spec t 1 0 x [x]) as [H1 H2]; try reflexivity; try lia.
  - intros j Hj. assert (j = 0)%nat by lia. subst j. apply Qle_refl.
  - cbn [length app] in *. split; [lia|]. intros j Hj. apply H2. lia.
Qed.

Lemma argmax_from_spec (l : list Q) (i best : nat) (bv : Q) (pre : list Q) :
  length pre = i -> (best < i)%nat -> nth best pre 0 = bv ->
  (forall j, (j < i)%nat -> nth j pre 0 <= bv) ->
  let r := argmax_from (map Fin l) i best (Fin bv) in
  (r < i + length l)%nat
  /\ forall j, (j < i + length l)%nat -> nth j (pre ++ l) 0 <= nth r (pre ++ l) 0.
Proof.
  revert i best bv pre. induction l as [|x t IH]; intros i best bv pre Hlen Hb Hbv Hmax.
  - cbn [map argmax_from length]. rewrite app_nil_r, Nat.add_0_r.
    split; [lia|]. intros j Hj. rewrite Hbv. now apply Hmax.
  - cbn [map argmax_from length ext_lt].
    assert (Eapp : pre ++ x :: t = (pre ++ [x]) ++ t) by (now rewrite <- app_assoc).
    rewrite Eapp.
    assert (Hlen' : length (pre ++ [x]) = S i) by (rewrite length_app; cbn; lia).
    destruct (Qlt_bool bv x) eqn:E; qbool.
    + destruct (IH (S i) i x (pre ++ [x])) as [H1 H2]; try assumption; try lia.
      * rewrite app_nth2 by lia. now rewrite Hlen, Nat.sub_diag.
      * intros j Hj. destruct (Nat.eq_dec j i) as [->|Hne].
        -- rewrite app_nth2 by lia. rewrite Hlen, Nat.sub_diag. apply Qle_refl.
        -- rewrite app_nth1 by lia. apply Qle_trans with bv; [apply Hmax; lia|lra].
      * split; [lia|]. intros j Hj. apply H2. lia.
    + destruct (IH (S i) best bv (pre ++ [x])) as [H1 H2]; try assumption; try lia.
      * rewrite app_nth1 by lia. exact Hbv.
      * intros j Hj. destruct (Nat.eq_dec j i) as [->|Hne].
        -- rewrite app_nth2 by lia. rewrite Hlen, Nat.sub_diag. exact E.
        -- rewrite app_nth1 by lia. apply Hmax. lia.
      * split; [lia|]. intros j Hj. apply H2. lia.
Qed.

Lemma argmax_spec (l : list Q) :
  l <> [] ->
  (argmax (map Fin l) < length l)%nat
  /\ forall j, (j < length l)%nat -> nth j l 0 <= nth (argmax (map Fin l)) l 0.
Proof.
  destruct l as [|x t]; [congruence|]. intros _. unfold argmax. cbn [map].
  destruct (argmax_from_spec t 1 0 x [x]) as [H1 H2]; try reflexivity; try lia.
  - intros j Hj. assert (j = 0)%nat by lia. subst j. apply Qle_refl.
  - cbn [length app] in *. split; [lia|]. intros j Hj. apply H2. lia.
Qed.

(** The element selected by a minimal (maximal) key is the one whose key
    is strictly below (above) the key of every other element. *)
Lemma select_min (key : Q * Q -> Q) (pts : list (Q * Q)) (p : Q * Q) :
  In p pts -> (forall q, In q pts -> q = p \/ key p < key q) ->
  nth (numpy.argmin (map key pts)) pts (0, 0) = p.
Proof.
  intros Hin Huniq.
  assert (Hne : map key pts <> []) by (destruct pts; [destruct Hin|discriminate]).
  destruct (argmin_spec _ Hne) as [Hi Hmin]. rewrite length_map in Hi, Hmin.
  set (i := numpy.argmin (map key pts)) in *.
  destruct (In_nth _ _ (0, 0) Hin) as (j & Hj & Ej).
  specialize (Hmin j Hj).
  rewrite (nth_map_in key pts i (0, 0) 0 Hi), (nth_map_in key pts j (0, 0) 0 Hj), Ej
    in Hmin.
  destruct (Huniq (nth i pts (0, 0))) as [E|E]; [apply nth_In; exact Hi|exact E|].
  exfalso. lra.
Qed.

Lemma select_max (key : Q * Q -> Q) (pts : list (Q * Q)) (p : Q * Q) :
  In p pts -> (forall q, In q pts -> q = p \/ key q < key p) ->
  nth (argmax (map Fin (map key pts))) pts (0, 0) = p.
Proof.
  intros Hin Huniq.
  assert (Hne : map key pts <> []) by (destruct pts; [destruct Hin|discriminate]).
  destruct (argmax_spec _ Hne) as [Hi Hmax]. rewrite length_map in Hi, Hmax.
  set (i := argmax (map Fin (map key pts))) in *.
  destruct (In_nth _ _ (0, 0) Hin) as (j & Hj & Ej).
  specialize (Hmax j Hj).
  rewrite (nth_map_in key pts i (0, 0) 0 Hi), (nth_map_in key pts j (0, 0) 0 Hj), Ej
    in Hmax.
  destruct (Huniq (nth i pts (0, 0))) as [E|E]; [apply nth_In; exact Hi|exact E|].
  exfalso. lra.
Qed.

(** X21. Given the four corners of an axis-parallel rectangle (x0 < x1, y0 <
    y1) in any order, with or without repetitions, order_points returns
    them as top-left, top-right, bottom-right, bottom-left. *)
Theorem order_points_rectangle :
  forall (pts : list (Q * Q)) (x0 y0 x1 y1 : Q),
    x0 < x1 -> y0 < y1 ->
    let tl := (x0, y0) in
    let tr := (x1, y0) in
    let br := (x1, y1) in
    let bl := (x0, y1) in
    (forall p, In p pts <-> In p [tl; tr; br; bl]) ->
    geometry.order_points pts = Ok [tl; tr; br; bl].
Proof.
  intros pts x0 y0 x1 y1 Hx Hy tl tr br bl Hpts.
  assert (Hin : forall p, In p [tl; tr; br; bl] -> In p pts) by (intros p; apply Hpts).
  assert (Hcase : forall q, In q pts -> q = tl \/ q = tr \/ q = br \/ q = bl).
  { intros q Hq. apply Hpts in Hq. cbn in Hq. intuition auto. }
  unfold geometry.order_points.
  destruct pts as [|p0 rest] eqn:Ep; [exfalso; apply (Hin tl); cbn; auto|].
  rewrite <- Ep in *. cbv zeta.
  rewrite (select_min (fun p => fst p + snd p) pts tl).
  - rewrite (select_max (fun p => fst p + snd p) pts br).
    + rewrite (select_min (fun p => snd p - fst p) pts tr).
      * rewrite (select_max (fun p => snd p - fst p) pts bl); [reflexivity| |].
        -- apply Hin. cbn. auto.
        -- intros q Hq. destruct (Hcase q Hq) as [-> | [-> | [-> | ->]]];
             subst tl tr br bl; cbn [fst snd]; (left; reflexivity) || (right; lra).
      * apply Hin. cbn. auto.
      * intros q Hq. destruct (Hcase q Hq) as [-> | [-> | [-> | ->]]];
          subst tl tr br bl; cbn [fst snd]; (left; reflexivity) || (right; lra).
    + apply Hin. cbn. auto.
    + intros q Hq. destruct (Hcase q Hq) as [-> | [-> | [-> | ->]]];
        subst tl tr br bl; cbn [fst snd]; (left; reflexivity) || (right; lra).
  - apply Hin. cbn. auto.
  - intros q Hq. destruct (Hcase q Hq) as [-> | [-> | [-> | ->]]];
      subst tl tr br bl; cbn [fst snd]; (left; reflexivity) || (right; lra).
Qed.

Lemma order_points_rectangle_witness :
  geometry.order_points [(5, 7); (1, 2); (1, 7); (5, 2)]
  = Ok [(1, 2); (5, 2); (5, 7); (1, 7)].
Proof.
  apply (order_points_rectangle [(5, 7); (1, 2); (1, 7); (5, 2)] 1 2 5 7).
  - reflexivity.
  - reflexivity.
  - intro p. cbn. tauto.
Defined.

(** ** Padding pages onto a canvas (processor.py, crop.py, main.py) *)

Lemma mapi_nth {A B} (f : nat -> A -> B) (l : list A) (i : nat) (da : A) (db : B) :
  (i < length l)%nat -> nth i (mapi f l) db = f i (nth i l da).
Proof.
  intro Hi. unfold mapi.
  rewrite (nth_indep _ db ((fun p => f (fst p) (snd p)) (0%nat, da)))
    by (rewrite length_map, length_combine, length_seq; lia).
  rewrite (map_nth (fun p => f (fst p) (snd p))).
  rewrite combine_nth by (now rewrite length_seq).
  cbn [fst snd]. now rewrite seq_nth.
Qed.

Lemma full_shape {P} (h w : Z) (v : P) :
  (1 <= h)%Z -> (0 <= w)%Z ->
  length (numpy.full h w v) = Z.to_nat h /\ ncols (numpy.full h w v) = Z.to_nat w
  /\ rect (numpy.full h w v)
  /\ forall r c d, (r < Z.to_nat h)%nat -> (c < Z.to_nat w)%nat ->
                   nth c (nth r (numpy.full h w v) []) d = v.
Proof.
  intros Hh Hw. unfold numpy.full.
  assert (Hn : ncols (repeat (repeat v (Z.to_nat w)) (Z.to_nat h)) = Z.to_nat w).
  { unfold ncols. destruct (Z.to_nat h) eqn:E; [lia|]. cbn. apply repeat_length. }
  split; [apply repeat_length|]. split; [exact Hn|]. split.
  - unfold rect. rewrite Hn. apply Forall_forall. intros row Hrow.
    apply repeat_spec in Hrow. subst row. apply repeat_length.
  - intros r c d Hr Hc.
    assert (Er : nth r (repeat (repeat v (Z.to_nat w)) (Z.to_nat h)) []
                 = repeat v (Z.to_nat w)).
    { apply (repeat_spec (Z.to_nat h)). apply nth_In. now rewrite repeat_length. }
    rewrite Er. apply (repeat_spec (Z.to_nat w)). apply nth_In.
    now rewrite repeat_length.
Qed.

Lemma paste_fits {P} (bg : P) (th tw y x : Z) (v : array2 P) :
  rect v -> (1 <= length v)%nat -> (1 <= ncols v)%nat ->
  (0 <= y)%Z -> (y + height v <= th)%Z -> (0 <= x)%Z -> (x + width v <= tw)%Z ->
  exists out,
    numpy.paste (numpy.full th tw bg) y (y + height v) x (x + width v) v = Ok out
    /\ canvas_with bg th tw y x v out.
Proof.
  intros Hr Hvh Hvw Hy Hyh Hx Hxw. unfold height, width in *.
  destruct (full_shape th tw bg) as (Fl & Fc & Fr & Fv); [lia|lia|].
  unfold numpy.paste. rewrite Fl, Fc.
  rewrite !norm_idx_nonneg by lia.
  replace (Nat.min (Z.to_nat y) (Z.to_nat th)) with (Z.to_nat y) by lia.
  replace (Nat.min (Z.to_nat (y + Z.of_nat (length v))) (Z.to_nat th))
    with (Z.to_nat y + length v)%nat by lia.
  replace (Nat.min (Z.to_nat x) (Z.to_nat tw)) with (Z.to_nat x) by lia.
  replace (Nat.min (Z.to_nat (x + Z.of_nat (ncols v))) (Z.to_nat tw))
    with (Z.to_nat x + ncols v)%nat by lia.
  replace (Z.to_nat y + length v - Z.to_nat y)%nat with (length v) by lia.
  replace (Z.to_nat x + ncols v - Z.to_nat x)%nat with (ncols v) by lia.
  rewrite !Nat.eqb_refl. cbn [orb andb].
  set (Y := Z.to_nat y). set (X := Z.to_nat x).
  set (f := fun (r : nat) (row : list P) =>
              mapi (fun (c : nat) (p : P) =>
                      if (Y <=? r)%nat && (r <? Y + length v)%nat
                         && (X <=? c)%nat && (c <? X + ncols v)%nat
                      then nth (c - X) (nth (r - Y) v []) p else p) row).
  exists (mapi f (numpy.full th tw bg)).
  split; [reflexivity|].
  assert (Hlen : length (mapi f (numpy.full th tw bg)) = Z.to_nat th)
    by (now rewrite mapi_length).
  assert (Hrow : forall r, (r < Z.to_nat th)%nat ->
            nth r (mapi f (numpy.full th tw bg)) []
            = f r (nth r (numpy.full th tw bg) [])).
  { intros r Hr'. apply mapi_nth. now rewrite Fl. }
  assert (Hrowlen : forall r, (r < Z.to_nat th)%nat ->
            length (nth r (mapi f (numpy.full th tw bg)) []) = Z.to_nat tw).
  { intros r Hr'. rewrite (Hrow r Hr'). unfold f. rewrite mapi_length.
    rewrite rect_nth by (assumption || lia). exact Fc. }
  assert (Hnc : ncols (mapi f (numpy.full th tw bg)) = Z.to_nat tw).
  { rewrite ncols_nth0. apply Hrowlen. lia. }
  assert (Hpix : forall r c d, (r < Z.to_nat th)%nat -> (c < Z.to_nat tw)%nat ->
            nth c (nth r (mapi f (numpy.full th tw bg)) []) d
            = if (Y <=? r)%nat && (r <? Y + length v)%nat
                 && (X <=? c)%nat && (c <? X + ncols v)%nat
              then nth (c - X) (nth (r - Y) v []) bg else bg).
  { intros r c d Hr' Hc'. rewrite (Hrow r Hr'). unfold f.
    rewrite (mapi_nth _ _ c bg d)
      by (rewrite rect_nth by (assumption || lia); lia).
    rewrite (Fv r c bg Hr' Hc'). reflexivity. }
  unfold canvas_with, height, width. rewrite Hlen, Hnc.
  split; [lia|]. split; [lia|]. split; [|split].
  - unfold rect. rewrite Hnc. apply Forall_forall. intros row Hrow'.
    destruct (In_nth _ _ [] Hrow') as (r & Hr' & <-). rewrite Hlen in Hr'.
    now apply Hrowlen.
  - intros i j d Hi Hj. fold Y X.
    rewrite (Hpix (Y + i)%nat (X + j)%nat d) by (subst Y X; lia).
    destruct (Nat.leb_spec Y (Y + i)); [|lia].
    destruct (Nat.ltb_spec (Y + i) (Y + length v)); [|lia].
    destruct (Nat.leb_spec X (X + j)); [|lia].
    destruct (Nat.ltb_spec (X + j) (X + ncols v)); [|lia].
    cbn [andb]. replace (Y + i - Y)%nat with i by lia.
    replace (X + j - X)%nat with j by lia.
    apply nth_indep. rewrite rect_nth by assumption. exact Hj.
  - intros r c d Hr' Hc' Hout. fold Y X in Hout.
    rewrite Hlen in Hr'. rewrite Hnc in Hc'.
    rewrite (Hpix r c d Hr' Hc').
    destruct (Nat.leb_spec Y r); [|reflexivity].
    destruct (Nat.ltb_spec r (Y + length v)); [|reflexivity].
    destruct (Nat.leb_spec X c); [|reflexivity].
    destruct (Nat.ltb_spec c (X + ncols v)); [|reflexivity].
    exfalso. apply Hout. lia.
Qed.

Lemma image_paste_fits (bg : pixel * pixel * pixel) (th tw y x : Z) (page : image) :
  image_is_rect page -> (1 <= fst (shape page))%Z -> (1 <= snd (shape page))%Z ->
  (0 <= y)%Z -> (y + fst (shape page) <= th)%Z ->
  (0 <= x)%Z -> (x + snd (shape page) <= tw)%Z ->
  let canvas :=
    match page with
    | Color _ => Color (numpy.full th tw bg)
    | Gray _ => Gray (numpy.full th tw (fst (fst bg)))
    end in
  exists out,
    numpy.image_paste canvas y (y + fst (shape page)) x (x + snd (shape page)) page
    = Ok out
    /\ shape out = (th, tw)
    /\ image_canvas_with bg th tw y x page out.
Proof.
  intros Hr Hh Hw Hy Hyh Hx Hxw canvas. subst canvas.
  destruct page as [v|v]; cbn [shape fst snd image_is_rect] in *.
  - destruct (paste_fits (fst (fst bg)) th tw y x v) as (out & E & Hc);
      try assumption; try (unfold height, width in *; lia).
    exists (Gray out). cbn [numpy.image_paste]. rewrite E. cbn [bind].
    split; [reflexivity|]. split; [|exact Hc].
    destruct Hc as (H1 & H2 & _). cbn [shape]. now rewrite H1, H2.
  - destruct (paste_fits bg th tw y x v) as (out & E & Hc);
      try assumption; try (unfold height, width in *; lia).
    exists (Color out). cbn [numpy.image_paste]. rewrite E. cbn [bind].
    split; [reflexivity|]. split; [|exact Hc].
    destruct Hc as (H1 & H2 & _). cbn [shape]. now rewrite H1, H2.
Qed.

Lemma canvas_same {P} (bg : P) (p out : array2 P) :
  rect p -> canvas_with bg (height p) (width p) 0 0 p out -> out = p.
Proof.
  intros Hr (Hh & Hw & Hro & Hwin & _). unfold height, width in *.
  assert (Hlen : length out = length p) by lia.
  assert (Hnc : ncols out = ncols p) by lia.
  apply (nth_ext _ _ [] []); [exact Hlen|].
  intros i Hi.
  apply (nth_ext _ _ (hd bg (nth i p [])) (hd bg (nth i p []))).
  - rewrite !rect_nth by (assumption || lia). exact Hnc.
  - intros j Hj. rewrite rect_nth in Hj by assumption.
    symmetry. apply (Hwin i j); lia.
Qed.

Lemma image_canvas_same (bg : pixel * pixel * pixel) (page out : image) :
  image_is_rect page ->
  image_canvas_with bg (fst (shape page)) (snd (shape page)) 0 0 page out ->
  out = page.
Proof.
  intros Hr Hc. destruct page as [p|p], out as [o|o]; cbn in Hc; try contradiction;
    f_equal; eapply canvas_same; eauto.
Qed.

Lemma max_of_ge (f : image -> Z) (pages : list image) (p : image) :
  In p pages -> (f p <= processor.max_of f pages)%Z.
Proof.
  destruct pages as [|p0 t]; [intros []|]. unfold processor.max_of.
  assert (H : forall l m, (m <= fold_left (fun m q => Z.max m (f q)) l m)%Z
                          /\ forall q, In q l ->
                               (f q <= fold_left (fun m q => Z.max m (f q)) l m)%Z).
  { induction l as [|q l IH]; intro m; cbn [fold_left].
    - split; [lia|intros q []].
    - destruct (IH (Z.max m (f q))) as [H1 H2]. split; [lia|].
      intros q' [<-|Hin]; [lia|now apply H2]. }
  destruct (H t (f p0)) as [H1 H2].
  intros [<-|Hin]; [exact H1|now apply H2].
Qed.

(** X22. The size normalisation at the end of process, on two or more non-
    empty pages, never fails; every output page has the largest height and
    the largest width of the input pages; each output is a white canvas
    showing its page unscaled at the centred offset ((th - h) // 2, (tw -
    w) // 2). *)
Theorem normalize_pages_equal_sizes :
  forall pages : list image,
    (2 <= length pages)%nat ->
    Forall (fun p => image_is_rect p /\ (1 <= fst (shape p))%Z /\ (1 <= snd (shape p))%Z)
           pages ->
    let tw := processor.max_of (fun p => snd (shape p)) pages in
    let th := processor.max_of (fun p => fst (shape p)) pages in
    exists outs,
      processor.normalize_pages pages = Ok outs
      /\ Forall2 (fun page out =>
                    shape out = (th, tw)
                    /\ image_canvas_with (255, 255, 255)%Z th tw
                         ((th - fst (shape page)) / 2)%Z
                         ((tw - snd (shape page)) / 2)%Z page out)
                 pages outs.
Proof.
  intros pages Hlen Hall tw th.
  unfold processor.normalize_pages.
  destruct (Nat.ltb_spec 1 (length pages)) as [_|H]; [|lia].
  fold tw. fold th.
  assert (Hmax : forall p, In p pages ->
            (fst (shape p) <= th)%Z /\ (snd (shape p) <= tw)%Z).
  { intros p Hp. split.
    - apply (max_of_ge (fun p => fst (shape p))). exact Hp.
    - apply (max_of_ge (fun p => snd (shape p))). exact Hp. }
  clearbody tw th. clear Hlen.
  induction pages as [|page rest IH].
  - exists []. split; [reflexivity|constructor].
  - inversion Hall as [|? ? (Hr & Hh & Hw) Hrest]; subst.
    destruct IH as (outs & Eouts & Houts);
      [exact Hrest|intros p Hp; apply Hmax; now right|].
    destruct (Hmax page (or_introl eq_refl)) as [Hth Htw].
    cbn [processor.normalize_each].
    destruct (shape page) as [ph pw] eqn:Es. cbn [fst snd] in *.
    destruct ((pw =? tw)%Z && (ph =? th)%Z) eqn:Esame.
    + apply andb_true_iff in Esame. destruct Esame as [E1 E2].
      apply Z.eqb_eq in E1. apply Z.eqb_eq in E2. subst pw ph.
      exists (page :: outs). cbn [bind]. rewrite Eouts. cbn [bind].
      split; [reflexivity|]. constructor; [|exact Houts].
      cbv beta. rewrite Es. cbn [fst snd].
      split; [reflexivity|].
      rewrite !Z.sub_diag. change (0 / 2)%Z with 0%Z.
      destruct page as [p|p]; cbn in Es; injection Es as Eh Ew;
        cbn [image_canvas_with image_is_rect] in *;
        unfold canvas_with; rewrite Eh, Ew;
        (split; [reflexivity|]); (split; [reflexivity|]); (split; [exact Hr|]);
        (split; [intros i j d _ _; reflexivity|]);
        intros r c d Hr' Hc' Hout; exfalso; apply Hout; cbn; lia.
    + assert (Hy : (0 <= (th - ph) / 2)%Z) by (apply Z.div_pos; lia).
      assert (Hx : (0 <= (tw - pw) / 2)%Z) by (apply Z.div_pos; lia).
      rewrite !Z.max_r by assumption.
      destruct (image_paste_fits (255, 255, 255)%Z th tw ((th - ph) / 2)
                                 ((tw - pw) / 2) page)
        as (out & E & Hs & Hc); rewrite ?Es; cbn [fst snd]; try assumption;
        try (Z.div_mod_to_equations; lia).
      rewrite Es in E. cbn [fst snd] in E.
      exists (out :: outs).
      match goal with
      | |- bind ?t _ = _ /\ _ => assert (E' : t = Ok out) by exact E; rewrite E'
      end.
      cbn [bind]. rewrite Eouts. cbn [bind].
      split; [reflexivity|]. constructor; [|exact Houts].
      cbv beta. rewrite Es. cbn [fst snd]. split; assumption.
Qed.

Lemma normalize_pages_equal_sizes_witness :
  processor.normalize_pages [Gray [[1; 2; 3]]%Z; Gray [[4]; [5]; [6]]%Z]
  = Ok [Gray [[255; 255; 255]; [1; 2; 3]; [255; 255; 255]]%Z;
        Gray [[255; 4; 255]; [255; 5; 255]; [255; 6; 255]]%Z]
  /\ exists outs,
       processor.normalize_pages [Gray [[1; 2; 3]]%Z; Gray [[4]; [5]; [6]]%Z]
       = Ok outs.
Proof.
  split; [reflexivity|].
  assert (H2 : (2 <= length [Gray [[1; 2; 3]]%Z; Gray [[4]; [5]; [6]]%Z])%nat)
    by (cbn; lia).
  assert (Hall : Forall (fun p => image_is_rect p /\ (1 <= fst (shape p))%Z
                                  /\ (1 <= snd (shape p))%Z)
                        [Gray [[1; 2; 3]]%Z; Gray [[4]; [5]; [6]]%Z]).
  { repeat constructor; cbn; lia. }
  destruct (normalize_pages_equal_sizes _ H2 Hall) as (outs & E & _).
  exists outs. exact E.
Defined.

Lemma ratio_ge_one (t s : Z) : (1 <= s <= t)%Z -> 1 <= inject_Z t / inject_Z s.
Proof.
  intro H. apply Qle_shift_div_l.
  - change 0 with (inject_Z 0). rewrite <- Zlt_Qlt. lia.
  - rewrite Qmult_1_l. rewrite <- Zle_Qle. lia.
Qed.

(** X23. When the page already fits the target (1 <= h <= target_height, 1 <=
    w <= target_width), normalize_page_size does not scale: it returns a
    canvas of the target size in the background colour with the page at
    the centred offset; without a target it returns the page itself; and
    with a white background it computes what the pad command of main.py
    computes. *)
Theorem normalize_page_size_pads :
  forall (L : Lib) (resize_color : color_image -> Z -> Z -> color_image)
         (im : image) (tw th : Z) (bg : pixel * pixel * pixel),
    image_is_rect im ->
    (1 <= fst (shape im) <= th)%Z -> (1 <= snd (shape im) <= tw)%Z ->
    (exists out,
        crop.normalize_page_size L resize_color im (Some tw) (Some th) bg = Ok out
        /\ shape out = (th, tw)
        /\ image_canvas_with bg th tw ((th - fst (shape im)) / 2)%Z
                             ((tw - snd (shape im)) / 2)%Z im out)
    /\ crop.normalize_page_size L resize_color im None None bg = Ok im
    /\ main.pad im tw th
       = main.Padded (crop.normalize_page_size L resize_color im (Some tw) (Some th)
                        (255, 255, 255)%Z).
Proof.
  intros L resize_color im tw th bg Hr Hh Hw.
  assert (Hgen : forall tw' th' bg',
            (fst (shape im) <= th')%Z -> (snd (shape im) <= tw')%Z ->
            crop.normalize_page_size L resize_color im (Some tw') (Some th') bg'
            = numpy.image_paste
                match im with
                | Color _ => Color (numpy.full th' tw' bg')
                | Gray _ => Gray (numpy.full th' tw' (fst (fst bg')))
                end
                ((th' - fst (shape im)) / 2) ((th' - fst (shape im)) / 2 + fst (shape im))
                ((tw' - snd (shape im)) / 2) ((tw' - snd (shape im)) / 2 + snd (shape im))
                im).
  { intros tw' th' bg' Hth Htw. unfold crop.normalize_page_size.
    destruct (shape im) as [h w]. cbn [fst snd] in *.
    destruct (Z.ltb_spec th' 0); [lia|]. destruct (Z.ltb_spec tw' 0); [lia|].
    destruct (Z.eqb_spec w 0); [lia|]. destruct (Z.eqb_spec h 0); [lia|].
    cbn [orb].
    assert (Hs : 1 <= Qmin (inject_Z tw' / inject_Z w) (inject_Z th' / inject_Z h)).
    { apply Q.min_glb; apply ratio_ge_one; lia. }
    apply Qlt_bool_false in Hs. rewrite Hs. reflexivity. }
  split; [|split].
  - rewrite Hgen by lia.
    apply image_paste_fits; try assumption; try lia;
      try (apply Z.div_pos; lia); Z.div_mod_to_equations; lia.
  - assert (E : crop.normalize_page_size L resize_color im None None bg
                = crop.normalize_page_size L resize_color im
                    (Some (snd (shape im))) (Some (fst (shape im))) bg).
    { unfold crop.normalize_page_size. now destruct (shape im). }
    rewrite E, Hgen by lia.
    destruct (image_paste_fits bg (fst (shape im)) (snd (shape im)) 0 0 im)
      as (out & Eo & _ & Hc); try assumption; try lia.
    rewrite !Z.sub_diag. change (0 / 2)%Z with 0%Z. cbv zeta in Eo.
    rewrite Eo. f_equal. now apply (image_canvas_same bg).
  - rewrite Hgen by lia. unfold main.pad.
    destruct (shape im) as [h w]. cbn [fst snd] in *.
    destruct (Z.leb_spec tw 0); [lia|]. destruct (Z.leb_spec th 0); [lia|].
    destruct (Z.ltb_spec tw w); [lia|]. destruct (Z.ltb_spec th h); [lia|].
    cbn [orb]. rewrite !Z.max_r by (apply Z.div_pos; lia). reflexivity.
Qed.

Lemma normalize_page_size_pads_witness :
  crop.normalize_page_size ref_lib (fun c _ _ => c) (Gray [[1; 2]]%Z)
    (Some 4%Z) (Some 3%Z) (9, 9, 9)%Z
  = Ok (Gray [[9; 9; 9; 9]; [9; 1; 2; 9]; [9; 9; 9; 9]]%Z)
  /\ crop.normalize_page_size ref_lib (fun c _ _ => c) (Gray [[1; 2]]%Z)
       None None (9, 9, 9)%Z
     = Ok (Gray [[1; 2]]%Z).
Proof.
  split; [reflexivity|].
  assert (Hr : image_is_rect (Gray [[1; 2]]%Z)) by (repeat constructor).
  assert (Hh : (1 <= fst (shape (Gray [[1; 2]]%Z)) <= 3)%Z) by (cbn; lia).
  assert (Hw : (1 <= snd (shape (Gray [[1; 2]]%Z)) <= 4)%Z) by (cbn; lia).
  exact (proj1 (proj2 (normalize_page_size_pads ref_lib (fun c _ _ => c)
                         (Gray [[1; 2]]%Z) 4 3 (9, 9, 9)%Z Hr Hh Hw))).
Defined.

(** ** The split detector of the stage pipeline (stages/split.py) *)

Lemma ratio_le (a w n : Z) (d : positive) :
  (0 < w)%Z -> (a * Zpos d <= n * w)%Z -> inject_Z a / inject_Z w <= n # d.
Proof.
  intros Hw H. apply Qle_shift_div_r.
  - change 0 with (inject_Z 0). now rewrite <- Zlt_Qlt.
  - unfold Qle, Qmult, inject_Z. cbn [Qnum Qden]. lia.
Qed.

Lemma ratio_ge (a w n : Z) (d : positive) :
  (0 < w)%Z -> (n * w <= a * Zpos d)%Z -> n # d <= inject_Z a / inject_Z w.
Proof.
  intros Hw H. apply Qle_shift_div_l.
  - change 0 with (inject_Z 0). now rewrite <- Zlt_Qlt.
  - unfold Qle, Qmult, inject_Z. cbn [Qnum Qden]. lia.
Qed.

Lemma ratio_mono (a b w : Z) :
  (0 < w)%Z -> (a <= b)%Z -> inject_Z a / inject_Z w <= inject_Z b / inject_Z w.
Proof.
  intros Hw H.
  assert (HW : 0 < inject_Z w)
    by (change 0 with (inject_Z 0); now rewrite <- Zlt_Qlt).
  apply Qle_shift_div_l; [exact HW|].
  unfold Qdiv. rewrite <- Qmult_assoc, (Qmult_comm (/ _)), Qmult_inv_r, Qmult_1_r by lra.
  now rewrite <- Zle_Qle.
Qed.

Lemma ncols_amap {P R} (f : P -> R) (a : array2 P) : ncols (amap f a) = ncols a.
Proof. unfold ncols, amap. destruct a; cbn [map hd]; [reflexivity|apply length_map]. Qed.

Lemma columns_length {P} (d : P) (a : array2 P) : length (columns d a) = ncols a.
Proof. unfold columns. now rewrite length_map, length_seq. Qed.

Lemma ncols_band {P} (a b : Z) (gray : array2 P) :
  (0 <= a <= b)%Z -> (b <= width gray)%Z ->
  ncols (cols (Some a) (Some b) gray) = Z.to_nat (b - a).
Proof.
  intros Hab Hb. unfold ncols, cols, width, ncols in *.
  destruct gray as [|row rest]; cbn [map hd length] in *; [lia|].
  unfold slice. rewrite !norm_idx_nonneg by lia.
  rewrite length_skipn, length_firstn. lia.
Qed.

Lemma darkest_window_pos (cm : list Q) (ws : Z) :
  (1 <= length cm)%nat -> (1 <= ws)%Z ->
  (0 <= snd (stages_split.darkest_window cm ws) <= Z.of_nat (length cm) - 1)%Z.
Proof.
  intros Hn Hws. unfold stages_split.darkest_window.
  set (n := Z.of_nat (length cm)).
  assert (Hinv : forall (l : list nat) (st : option Q * Z),
            Forall (fun i => (Z.of_nat i < n - ws)%Z) l ->
            (0 <= snd st <= n - 1)%Z ->
            (0 <= snd (fold_left
                         (fun st i =>
                            let i := Z.of_nat i in
                            let window_avg :=
                              mean (slice (Some i) (Some (i + ws)%Z) cm) in
                            let better :=
                              match fst st with
                              | None => true
                              | Some min_avg => Qlt_bool window_avg min_avg
                              end in
                            if better then (Some window_avg, (i + ws / 2)%Z) else st)
                         l st) <= n - 1)%Z).
  { induction l as [|i l IH]; intros st Hl Hst; [exact Hst|].
    cbn [fold_left]. inversion Hl; subst. apply IH; [assumption|].
    cbv zeta. destruct (match fst st with None => true | Some _ => _ end);
      [cbn [snd]; Z.div_mod_to_equations; lia|exact Hst]. }
  apply Hinv.
  - apply Forall_forall. intros i Hi. apply in_seq in Hi. lia.
  - cbn [snd]. subst n. Z.div_mod_to_equations. lia.
Qed.

(** X24. On a non-empty image (GaussianBlur returning an array as long as its
    input), detect_vertical_valley does not raise, its confidence is at
    most 1 and its position lies in the search band from int(0.2 * w) / w
    to 0.8; detect_gutter_shadow returns a confidence between 0 and 1 and
    a position in its band from int(0.35 * w) / w to 0.65. *)
Theorem split_detectors_in_band :
  forall (L : Lib) (gray : gray_image),
    blur_keeps_length L ->
    (1 <= height gray)%Z -> (1 <= width gray)%Z ->
    let w := width gray in
    let g := stages_split.detect_gutter_shadow gray in
    (exists v,
        stages_split.detect_vertical_valley L gray = Ok v
        /\ stages_split.valley_confidence v <= 1
        /\ inject_Z (int (inject_Z w * (2 # 10))) / inject_Z w
           <= stages_split.valley_position v <= 8 # 10)
    /\ 0 <= stages_split.gutter_confidence g <= 1
    /\ inject_Z (int (inject_Z w * (35 # 100))) / inject_Z w
       <= stages_split.gutter_position g <= 65 # 100.
Proof.
  intros L gray HB Hh Hw w g. subst g. fold w in Hw.
  assert (Hw0 : (0 <= w)%Z) by lia.
  split; [|split].
  - unfold stages_split.detect_vertical_valley. fold w. cbv zeta.
    rewrite (int_scaled w 2 10), (int_scaled w 8 10) by lia.
    set (cs := (w * 2 / 10)%Z). set (ce := (w * 8 / 10)%Z).
    assert (Hcs : (0 <= cs <= ce)%Z /\ (ce <= w)%Z /\ (cs * 10 <= 2 * w)%Z
                  /\ (ce * 10 <= 8 * w)%Z)
      by (subst cs ce; Z.div_mod_to_equations; lia).
    destruct Hcs as (Hcs1 & Hcs2 & Hcs3 & Hcs4).
    assert (Hdef : inject_Z cs / inject_Z w <= 5 # 10 <= 8 # 10).
    { split; [apply ratio_le; lia|discriminate]. }
    set (proj := sum_axis0 _).
    assert (Hproj : length proj = Z.to_nat (ce - cs)).
    { subst proj. unfold sum_axis0, to_float.
      rewrite length_map, columns_length, !ncols_amap.
      now apply ncols_band. }
    destruct proj as [|p0 proj'] eqn:Eproj.
    { eexists. split; [reflexivity|]. cbn. split; [discriminate|exact Hdef]. }
    set (k := if Z.even _ then _ else _).
    pose proof (HB (p0 :: proj') k) as Hsm.
    destruct (GaussianBlur L (p0 :: proj') k) as [|s0 rest] eqn:Esm.
    { exfalso. cbn [length] in Hsm. lia. }
    match goal with
    | |- context [Qeq_bool ?a 0 || Qeq_bool ?b 0] =>
        destruct (Qeq_bool a 0 || Qeq_bool b 0)
    end.
    { eexists. split; [reflexivity|]. cbn. split; [discriminate|exact Hdef]. }
    eexists. split; [reflexivity|].
    cbn [stages_split.valley_confidence stages_split.valley_position].
    split; [apply Q.le_min_l|].
    assert (Hidx : (numpy.argmin (s0 :: rest) < length (s0 :: rest))%nat).
    { unfold numpy.argmin.
      assert (Hb : forall l i best bv, (best < i)%nat ->
                (numpy.argmin_from l i best bv < i + length l)%nat).
      { induction l as [|x t IH]; intros i best bv Hlt; cbn [numpy.argmin_from length];
          [lia|].
        destruct (Qlt_bool x bv); [specialize (IH (S i) i x)|specialize (IH (S i) best bv)];
          lia. }
      specialize (Hb rest 1%nat 0%nat s0). cbn [length]. lia. }
    rewrite Hsm, Hproj in Hidx.
    split; [apply ratio_mono; lia|apply ratio_le; lia].
  - unfold stages_split.detect_gutter_shadow. cbv zeta.
    destruct (mean_axis0 _) as [|c0 cm']; [split; discriminate|].
    destruct (stages_split.darkest_window _ _) as [min_avg min_pos].
    destruct (Qeq_bool _ 0); [split; discriminate|].
    cbn [stages_split.gutter_confidence].
    destruct min_avg as [m|].
    + split; [|apply Q.le_min_l].
      apply Q.min_glb; [discriminate|].
      apply Qmult_le_0_compat; [apply Q.le_max_l|discriminate].
    + destruct (Qlt_bool _ 0); split; discriminate.
  - unfold stages_split.detect_gutter_shadow. fold w. cbv zeta.
    rewrite (int_scaled w 35 100), (int_scaled w 65 100) by lia.
    set (cs := (w * 35 / 100)%Z). set (ce := (w * 65 / 100)%Z).
    assert (Hcs : (0 <= cs <= ce)%Z /\ (ce <= w)%Z /\ (cs * 100 <= 35 * w)%Z
                  /\ (ce * 100 <= 65 * w)%Z)
      by (subst cs ce; Z.div_mod_to_equations; lia).
    destruct Hcs as (Hcs1 & Hcs2 & Hcs3 & Hcs4).
    assert (Hdef : inject_Z cs / inject_Z w <= 5 # 10 <= 65 # 100).
    { split; [apply ratio_le; lia|discriminate]. }
    set (cm := mean_axis0 _).
    assert (Hcm : length cm = Z.to_nat (ce - cs)).
    { subst cm. unfold mean_axis0, to_float.
      rewrite length_map, columns_length, ncols_amap.
      now apply ncols_band. }
    destruct cm as [|c0 cm'] eqn:Ecm; [exact Hdef|].
    rewrite <- Ecm in *.
    assert (Hn : (1 <= length cm)%nat) by (rewrite Ecm; cbn; lia).
    pose proof (darkest_window_pos cm (Z.max 3 ((ce - cs) / 20)) Hn) as Hpos.
    destruct (stages_split.darkest_window cm _) as [min_avg min_pos].
    cbn [snd] in Hpos.
    destruct (Qeq_bool _ 0); [exact Hdef|].
    cbn [stages_split.gutter_position].
    split; [apply ratio_mono; lia|apply ratio_le; lia].
Qed.

Lemma ref_blur_keeps_length (lines : option (list segment)) (cs : list contour) :
  blur_keeps_length (replay lines cs).
Proof. intros v k. cbn [GaussianBlur replay]. apply mapi_length. Qed.

Lemma split_detectors_in_band_witness :
  0 <= stages_split.gutter_confidence
         (stages_split.detect_gutter_shadow (uniform 200%Z 2 40)) <= 1.
Proof.
  assert (H1 : (1 <= height (uniform 200%Z 2 40))%Z) by (cbn; lia).
  assert (H2 : (1 <= width (uniform 200%Z 2 40))%Z) by (cbn; lia).
  exact (proj1 (proj2 (split_detectors_in_band ref_lib (uniform 200%Z 2 40)
                         (ref_blur_keeps_length None []) H1 H2))).
Defined.

Lemma fold_left_Qplus (l : list Q) (a : Q) : fold_left Qplus l a == a + Qsum l.
Proof.
  revert a. induction l as [|x l IH]; intro a; cbn [fold_left Qsum fold_right].
  - ring.
  - rewrite IH. change (fold_right Qplus 0 l) with (Qsum l). ring.
Qed.

(** A weighted average with positive weights stays between the bounds of
    its terms. *)
Lemma weighted_average_between (votes : list (Q * Q)) (lo hi : Q) :
  votes <> [] ->
  Forall (fun pw => lo <= fst pw <= hi /\ 0 < snd pw) votes ->
  0 < Qsum (map snd votes)
  /\ lo <= Qsum (map (fun pw => fst pw * snd pw) votes) / Qsum (map snd votes) <= hi.
Proof.
  intros Hne H.
  assert (Hb : lo * Qsum (map snd votes)
               <= Qsum (map (fun pw => fst pw * snd pw) votes)
               <= hi * Qsum (map snd votes)
               /\ (votes <> [] -> 0 < Qsum (map snd votes))).
  { clear Hne. induction H as [|[p w] l [[Hlo Hhi] Hw] _ IH];
      cbn [map Qsum fold_right fst snd] in *.
    - split; [split; lra|congruence].
    - change (fold_right Qplus 0 (map snd l)) with (Qsum (map snd l)) in *.
      change (fold_right Qplus 0 (map (fun pw => fst pw * snd pw) l))
        with (Qsum (map (fun pw => fst pw * snd pw) l)) in *.
      destruct IH as [[IH1 IH2] IH3].
      assert (H0 : 0 <= Qsum (map snd l)).
      { destruct l; [cbn; lra|]. apply Qlt_le_weak, IH3. discriminate. }
      revert IH1 IH2 H0. generalize (Qsum (map snd l)).
      generalize (Qsum (map (fun pw => fst pw * snd pw) l)).
      intros s t IH1 IH2 H0.
      assert (H1 : lo * w <= p * w) by (apply Qmult_le_compat_r; lra).
      assert (H2 : p * w <= hi * w) by (apply Qmult_le_compat_r; lra).
      split; [split; lra|intros _; lra]. }
  destruct Hb as [[H1 H2] H3]. specialize (H3 Hne).
  split; [exact H3|]. split.
  - apply Qle_shift_div_l; assumption.
  - apply Qle_shift_div_r; assumption.
Qed.

Lemma vote_position_between (conf pos : stages_split.method -> Q)
  (min_confidence lo hi : Q) :
  lo <= 5 # 10 <= hi ->
  (forall m, 3 # 10 < conf m -> lo <= pos m <= hi) ->
  lo <= stages_split.position (stages_split.vote conf pos min_confidence) <= hi.
Proof.
  intros Hdef Hpos. unfold stages_split.vote. cbv zeta.
  cbn [stages_split.position].
  set (voters := filter (fun m => Qlt_bool (3 # 10) (conf m)) stages_split.methods).
  set (pv := map (fun m => (pos m, conf m * stages_split.weights m)) voters).
  assert (Hall : Forall (fun pw => lo <= fst pw <= hi /\ 0 < snd pw) pv).
  { subst pv. apply Forall_map, Forall_forall. intros m Hm.
    subst voters. apply filter_In in Hm. destruct Hm as [_ Hc]. qbool.
    cbn [fst snd]. split; [now apply Hpos|].
    assert (0 < stages_split.weights m) by (destruct m; reflexivity).
    nra. }
  destruct pv as [|v0 pv'] eqn:Epv; [exact Hdef|]. rewrite <- Epv in *.
  destruct (weighted_average_between pv lo hi) as [Hs Hb];
    [rewrite Epv; discriminate|exact Hall|].
  destruct (Qlt_bool 0 _); [|exact Hdef].
  rewrite !fold_left_Qplus, !Qplus_0_l. exact Hb.
Qed.

Lemma unit_ratio (a b : Z) :
  (0 <= a)%Z -> (0 <= b)%Z ->
  (if (Z.max a b =? 0)%Z then 0
   else inject_Z (Z.min a b) / inject_Z (Z.max a b)) <= 1.
Proof.
  intros Ha Hb. destruct (Z.eqb_spec (Z.max a b) 0); [discriminate|].
  apply Qle_shift_div_r.
  - change 0 with (inject_Z 0). rewrite <- Zlt_Qlt. lia.
  - rewrite Qmult_1_l. rewrite <- Zle_Qle. lia.
Qed.

Lemma symmetry_confidence_le_one (L : Lib) (gray : gray_image) :
  bounding_rect_nonneg L -> (1 <= height gray)%Z ->
  stages_split.symmetry_confidence (stages_split.detect_content_symmetry L gray) <= 1
  /\ stages_split.symmetry_position (stages_split.detect_content_symmetry L gray)
     = 5 # 10.
Proof.
  intros HL Hh. unfold stages_split.detect_content_symmetry. cbv zeta.
  unfold stages_split.find_content_bounds.
  destruct (stages_split.findNonZero (cols None _ _)) as [lc|];
    [|split; [discriminate|reflexivity]].
  pose proof (HL lc) as [Hlw Hlh].
  destruct (boundingRect L lc) as [[[lx ly] lw] lh]. cbn [fst snd] in Hlw, Hlh.
  destruct (stages_split.findNonZero (cols (Some _) None _)) as [rc|];
    [|split; [discriminate|reflexivity]].
  pose proof (HL rc) as [Hrw Hrh].
  destruct (boundingRect L rc) as [[[rx ry] rw] rh]. cbn [fst snd] in Hrw, Hrh.
  cbn [stages_split.symmetry_confidence stages_split.symmetry_position].
  split; [|reflexivity].
  pose proof (unit_ratio lh rh Hlh Hrh) as H1.
  pose proof (unit_ratio lw rw Hlw Hrw) as H2.
  set (yd := Qabs _ / inject_Z (height gray)).
  assert (Hyd : 0 <= yd).
  { subst yd. apply Qle_shift_div_l.
    - change 0 with (inject_Z 0). rewrite <- Zlt_Qlt. lia.
    - rewrite Qmult_0_l. apply Qabs_nonneg. }
  assert (H3 : Qmax 0 (1 - yd * 10) <= 1) by (apply Q.max_lub; lra).
  revert H1 H2 H3.
  generalize (Qmax 0 (1 - yd * 10)).
  generalize (if (Z.max lh rh =? 0)%Z then 0
              else inject_Z (Z.min lh rh) / inject_Z (Z.max lh rh)).
  generalize (if (Z.max lw rw =? 0)%Z then 0
              else inject_Z (Z.min lw rw) / inject_Z (Z.max lw rw)).
  intros a b c H1 H2 H3. lra.
Qed.

(** X25. On a non-empty image (GaussianBlur returning an array as long as its
    input, boundingRect returning non-negative sizes) detect_split does
    not raise; the confidence it reports is at most 0.93; it can decide to
    split only when min_confidence is at most 0.93; with min_confidence
    above 0.93 the split type is none; and the split type is never
    horizontal. *)
Theorem detect_split_decision :
  forall (L : Lib) (gray : gray_image) (min_confidence : Q),
    blur_keeps_length L -> bounding_rect_nonneg L ->
    (1 <= height gray)%Z -> (1 <= width gray)%Z ->
    exists r,
      stages_split.detect_split L gray min_confidence = Ok r
      /\ stages_split.confidence r <= 93 # 100
      /\ (stages_split.should_split r = true -> min_confidence <= 93 # 100)
      /\ (93 # 100 < min_confidence -> stages_split.split_type r = stages_split.none)
      /\ stages_split.split_type r <> stages_split.horizontal.
Proof.
  intros L gray min_confidence HB HR Hh Hw.
  destruct (split_detectors_in_band L gray HB Hh Hw) as ((v & Ev & Hv & _) & [_ Hg] & _).
  destruct (symmetry_confidence_le_one L gray HR Hh) as [Hs _].
  unfold stages_split.detect_split. cbv zeta.
  destruct (Z.eqb_spec (height gray) 0); [lia|].
  rewrite Ev. cbn [bind]. eexists. split; [reflexivity|].
  unfold stages_split.vote. cbv zeta.
  cbn [stages_split.confidence stages_split.should_split stages_split.split_type].
  cbn [stages_split.methods map fold_left stages_split.weights].
  set (ac := if _ && _ then 3 # 10 else 0).
  assert (Ha : ac <= 3 # 10) by (subst ac; destruct (_ && _); discriminate).
  set (total := 0 + ac * (1 # 10) + _ + _ + _).
  assert (Ht : total <= 93 # 100).
  { subst total. revert Hv Hg Hs.
    generalize (stages_split.valley_confidence v).
    generalize (stages_split.gutter_confidence (stages_split.detect_gutter_shadow gray)).
    generalize (stages_split.symmetry_confidence
                  (stages_split.detect_content_symmetry L gray)).
    intros s g c Hv Hg Hs. lra. }
  clearbody total.
  split; [eapply Qle_trans; [apply Q.le_min_r|exact Ht]|].
  destruct (Qle_bool min_confidence total) eqn:E; qbool.
  - split; [intros _; lra|]. split; [intro H; exfalso; lra|discriminate].
  - split; [discriminate|]. split; [reflexivity|discriminate].
Qed.

(** X26. On a non-empty image (GaussianBlur returning an array as long as its
    input) the position detect_split reports lies between int(0.2 * w) / w
    and 0.8, hence between 0 and 1; when no sub-detector has a confidence
    above 0.3 the position is 0.5. *)
Theorem detect_split_position :
  forall (L : Lib) (gray : gray_image) (min_confidence : Q),
    blur_keeps_length L ->
    (1 <= height gray)%Z -> (1 <= width gray)%Z ->
    let w := width gray in
    exists r v,
      stages_split.detect_split L gray min_confidence = Ok r
      /\ stages_split.detect_vertical_valley L gray = Ok v
      /\ inject_Z (int (inject_Z w * (2 # 10))) / inject_Z w
         <= stages_split.position r <= 8 # 10
      /\ 0 <= stages_split.position r <= 1
      /\ (stages_split.valley_confidence v <= 3 # 10 ->
          stages_split.gutter_confidence (stages_split.detect_gutter_shadow gray)
          <= 3 # 10 ->
          stages_split.symmetry_confidence
            (stages_split.detect_content_symmetry L gray) <= 3 # 10 ->
          stages_split.position r = 5 # 10).
Proof.
  intros L gray min_confidence HB Hh Hw w.
  destruct (split_detectors_in_band L gray HB Hh Hw) as ((v & Ev & _ & Hvp) & _ & Hgp).
  fold w in Hvp, Hgp, Hw.
  unfold stages_split.detect_split. cbv zeta.
  destruct (Z.eqb_spec (height gray) 0); [lia|].
  rewrite Ev. cbn [bind]. eexists. exists v. split; [reflexivity|].
  split; [reflexivity|].
  set (ac := if _ && _ then 3 # 10 else 0).
  assert (Ha : ac <= 3 # 10) by (subst ac; destruct (_ && _); discriminate).
  set (conf := fun m : stages_split.method => match m with
                 | stages_split.aspect => ac
                 | stages_split.valley => _
                 | stages_split.gutter => _
                 | stages_split.symmetry => _ end).
  set (pos := fun m : stages_split.method => match m with
                 | stages_split.aspect => 5 # 10
                 | stages_split.valley => _
                 | stages_split.gutter => _
                 | stages_split.symmetry => _ end).
  set (lo := inject_Z (int (inject_Z w * (2 # 10))) / inject_Z w) in *.
  assert (Hw0 : (0 <= w)%Z) by lia.
  assert (Hlo : 0 <= lo <= 2 # 10).
  { subst lo. rewrite (int_scaled w 2 10) by lia. split.
    - apply Qle_shift_div_l.
      + change 0 with (inject_Z 0). rewrite <- Zlt_Qlt. lia.
      + rewrite Qmult_0_l. change 0 with (inject_Z 0). rewrite <- Zle_Qle.
        apply Z.div_pos; lia.
    - apply ratio_le; [lia|]. Z.div_mod_to_equations. lia. }
  assert (Hlo35 : lo <= inject_Z (int (inject_Z w * (35 # 100))) / inject_Z w).
  { subst lo. rewrite (int_scaled w 2 10), (int_scaled w 35 100) by lia.
    apply ratio_mono; [lia|]. Z.div_mod_to_equations. lia. }
  assert (Hbetween : lo <= stages_split.position
                             (stages_split.vote conf pos min_confidence) <= 8 # 10).
  { apply vote_position_between.
    - split; [lra|discriminate].
    - intros m Hm. destruct m; subst conf pos; cbv beta iota in *.
      + exfalso. lra.
      + exact Hvp.
      + destruct Hgp as [Hg1 Hg2]. split; lra.
      + destruct (stages_split.detect_content_symmetry L gray) eqn:Es.
        assert (Hp : stages_split.symmetry_position
                       (stages_split.detect_content_symmetry L gray) = 5 # 10).
        { unfold stages_split.detect_content_symmetry. cbv zeta.
          destruct (stages_split.find_content_bounds L _) as [[[[? ?] ?] ?]|];
            [|reflexivity].
          destruct (stages_split.find_content_bounds L _) as [[[[? ?] ?] ?]|];
            reflexivity. }
        rewrite Es in Hp. cbn [stages_split.symmetry_position] in *. rewrite Hp.
        split; [lra|discriminate]. }
  split; [exact Hbetween|]. split; [split; lra|].
  intros Hv Hg Hs. unfold stages_split.vote. cbv zeta.
  cbn [stages_split.position stages_split.methods filter].
  assert (E : forall m, Qlt_bool (3 # 10) (conf m) = false).
  { intro m. apply Qlt_bool_false. destruct m; subst conf; cbv beta iota; assumption. }
  rewrite !E. reflexivity.
Qed.

Lemma ref_bounding_rect_nonneg (lines : option (list segment)) (cs : list contour) :
  bounding_rect_nonneg (replay lines cs).
Proof.
  intro c. cbn [boundingRect replay]. unfold ref_boundingRect.
  destruct c as [|[x0 y0] t]; [cbn; lia|]. cbn [fst snd].
  assert (Hmin : forall (l : list Z) (a : Z), (fold_right Z.min a l <= a)%Z).
  { induction l as [|b l IH]; intro a; cbn [fold_right]; [lia|].
    specialize (IH a). lia. }
  assert (Hmax : forall (l : list Z) (a : Z), (a <= fold_right Z.max a l)%Z).
  { induction l as [|b l IH]; intro a; cbn [fold_right]; [lia|].
    specialize (IH a). lia. }
  pose proof (Hmin (map fst t) x0). pose proof (Hmax (map fst t) x0).
  pose proof (Hmin (map snd t) y0). pose proof (Hmax (map snd t) y0).
  lia.
Qed.

Lemma detect_split_decision_witness :
  exists r,
    stages_split.detect_split ref_lib (uniform 200%Z 2 40) (6 # 10) = Ok r
    /\ stages_split.confidence r <= 93 # 100.
Proof.
  assert (H1 : (1 <= height (uniform 200%Z 2 40))%Z) by (cbn; lia).
  assert (H2 : (1 <= width (uniform 200%Z 2 40))%Z) by (cbn; lia).
  destruct (detect_split_decision ref_lib (uniform 200%Z 2 40) (6 # 10)
              (ref_blur_keeps_length None []) (ref_bounding_rect_nonneg None [])
              H1 H2) as (r & E & Hc & _).
  exists r. split; assumption.
Defined.

Lemma detect_split_position_witness :
  exists r,
    stages_split.detect_split ref_lib (uniform 200%Z 2 40) (6 # 10) = Ok r
    /\ 0 <= stages_split.position r <= 1.
Proof.
  assert (H1 : (1 <= height (uniform 200%Z 2 40))%Z) by (cbn; lia).
  assert (H2 : (1 <= width (uniform 200%Z 2 40))%Z) by (cbn; lia).
  destruct (detect_split_position ref_lib (uniform 200%Z 2 40) (6 # 10)
              (ref_blur_keeps_length None []) H1 H2) as (r & v & E & _ & _ & Hp & _).
  exists r. split; assumption.
Defined.

(** ** The threshold used for bitonal re-encoding (main.py) *)

Lemma two_level_nth (a b : nat) (ha hb : Z) (t : nat) :
  (t < 256)%nat ->
  nth t (two_level a b ha hb) 0%Z
  = if (t =? a)%nat then ha else if (t =? b)%nat then hb else 0%Z.
Proof.
  intro Ht. unfold two_level.
  rewrite (nth_indep _ 0%Z ((fun i => if (i =? a)%nat then ha
                                      else if (i =? b)%nat then hb else 0%Z) 0%nat))
    by (rewrite length_map, length_seq; exact Ht).
  rewrite (map_nth (fun i => if (i =? a)%nat then ha
                             else if (i =? b)%nat then hb else 0%Z)).
  now rewrite seq_nth.
Qed.

Lemma Zsum_app (l1 l2 : list Z) : Zsum (l1 ++ l2) = (Zsum l1 + Zsum l2)%Z.
Proof.
  induction l1 as [|x l IH]; cbn [app Zsum fold_right]; [reflexivity|].
  change (fold_right Z.add 0%Z (l ++ l2)) with (Zsum (l ++ l2)).
  change (fold_right Z.add 0%Z l) with (Zsum l). rewrite IH. lia.
Qed.

Lemma Zsum_indicator (f : nat -> Z) (n : nat) (a b : nat) (ha hb : Z) :
  (a < b)%nat ->
  (forall i, f i = if (i =? a)%nat then ha else if (i =? b)%nat then hb else 0%Z) ->
  Zsum (map f (seq 0 n))
  = ((if (a <? n)%nat then ha else 0) + (if (b <? n)%nat then hb else 0))%Z.
Proof.
  intros Hab Hf. induction n as [|n IH]; [reflexivity|].
  rewrite seq_S, map_app, Zsum_app, IH. cbn [map Zsum fold_right Nat.add].
  rewrite (Hf n).
  destruct (Nat.eqb_spec n a), (Nat.eqb_spec n b), (Nat.ltb_spec a n),
    (Nat.ltb_spec b n), (Nat.ltb_spec a (S n)), (Nat.ltb_spec b (S n)); lia.
Qed.

Lemma weighted_total (hist : list Z) (n : nat) (a b : nat) (ha hb : Z) :
  (a < b)%nat ->
  (forall i, (i < n)%nat ->
     nth i hist 0%Z = if (i =? a)%nat then ha else if (i =? b)%nat then hb else 0%Z) ->
  fold_left (fun s i => (s + Z.of_nat i * nth i hist 0)%Z) (seq 0 n) 0%Z
  = ((if (a <? n)%nat then Z.of_nat a * ha else 0)
     + (if (b <? n)%nat then Z.of_nat b * hb else 0))%Z.
Proof.
  intros Hab Hf. induction n as [|n IH]; [reflexivity|].
  rewrite seq_S, fold_left_app, IH by (intros i Hi; apply Hf; lia).
  cbn [fold_left Nat.add]. rewrite (Hf n) by lia.
  destruct (Nat.eqb_spec n a), (Nat.eqb_spec n b), (Nat.ltb_spec a n),
    (Nat.ltb_spec b n), (Nat.ltb_spec a (S n)), (Nat.ltb_spec b (S n)); subst; lia.
Qed.

Lemma otsu_threshold_range (hist : list Z) :
  (0 <= main._otsu_threshold hist <= 255)%Z.
Proof.
  unfold main._otsu_threshold.
  destruct (_ <? 256)%nat; [lia|]. destruct (_ <=? 0)%Z; [lia|].
  set (total := Zsum _). set (sum_total := fold_left _ _ 0%Z).
  assert (Hinv : forall (l : list nat) (st : main.otsu_state),
            Forall (fun t => (t < 256)%nat) l ->
            (0 <= main.threshold st <= 255)%Z ->
            (0 <= main.threshold
                    (fold_left (main.otsu_step hist total sum_total) l st) <= 255)%Z).
  { induction l as [|t l IH]; intros st Hl Hst; [exact Hst|].
    cbn [fold_left]. inversion Hl; subst. apply IH; [assumption|].
    unfold main.otsu_step. destruct (main.stopped st); [exact Hst|].
    cbv zeta. destruct (_ =? 0)%Z; [exact Hst|].
    destruct (_ =? 0)%Z; [exact Hst|].
    destruct (Qlt_bool _ _); cbn [main.threshold]; [lia|exact Hst]. }
  apply Hinv; [|cbn; lia].
  apply Forall_forall. intros t Ht. apply in_seq in Ht. lia.
Qed.

Lemma Qsquare_nonneg (d : Q) : 0 <= d * d.
Proof.
  destruct (Qlt_le_dec d 0) as [H|H].
  - assert (E : d * d == (- d) * (- d)) by ring. rewrite E.
    apply Qmult_le_0_compat; lra.
  - apply Qmult_le_0_compat; lra.
Qed.

Lemma fold_seq_S {A} (f : A -> nat -> A) (n : nat) (a0 : A) :
  fold_left f (seq 0 (S n)) a0 = f (fold_left f (seq 0 n) a0) n.
Proof. now rewrite seq_S, fold_left_app. Qed.

Section TwoLevel.
Variables (a b : nat) (ha hb : Z).
Hypothesis Hab : (a < b)%nat.
Hypothesis Hb : (b < 256)%nat.
Hypothesis Hha : (0 < ha)%Z.
Hypothesis Hhb : (0 < hb)%Z.

Let hist := two_level a b ha hb.
Let total := (ha + hb)%Z.
Let sum_total := (Z.of_nat a * ha + Z.of_nat b * hb)%Z.
Let init :=
  {| main.sum_b := 0; main.w_b := 0; main.var_max := - (1);
     main.threshold := 128; main.stopped := false |}.
Let V : Q :=
  inject_Z ha * inject_Z (total - ha)
  * (inject_Z (Z.of_nat a * ha) / inject_Z ha
     - inject_Z (sum_total - Z.of_nat a * ha) / inject_Z (total - ha))
  * (inject_Z (Z.of_nat a * ha) / inject_Z ha
     - inject_Z (sum_total - Z.of_nat a * ha) / inject_Z (total - ha)).
Let mid :=
  {| main.sum_b := Z.of_nat a * ha; main.w_b := ha; main.var_max := V;
     main.threshold := Z.of_nat a; main.stopped := false |}.

Lemma two_level_V_nonneg : 0 <= V.
Proof.
  unfold V.
  set (d := _ / _ - _ / _).
  assert (H1 : 0 <= inject_Z ha * inject_Z (total - ha)).
  { apply Qmult_le_0_compat; change 0 with (inject_Z 0); rewrite <- Zle_Qle;
      unfold total; lia. }
  pose proof (Qsquare_nonneg d) as H2.
  assert (E : inject_Z ha * inject_Z (total - ha) * d * d
              == inject_Z ha * inject_Z (total - ha) * (d * d)) by ring.
  rewrite E. now apply Qmult_le_0_compat.
Qed.

Lemma two_level_run (n : nat) :
  (n <= 256)%nat ->
  let st := fold_left (main.otsu_step hist total sum_total) (seq 0 n) init in
  if (n <=? a)%nat then st = init
  else if (n <=? b)%nat then st = mid
  else main.threshold st = Z.of_nat a /\ main.stopped st = true.
Proof.
  induction n as [|n IH]; intro Hn; [reflexivity|].
  cbv zeta. rewrite fold_seq_S.
  specialize (IH ltac:(lia)). cbv zeta in IH.
  set (st := fold_left _ (seq 0 n) init) in *.
  assert (Hnth : nth n hist 0%Z
                 = if (n =? a)%nat then ha else if (n =? b)%nat then hb else 0%Z)
    by (apply two_level_nth; lia).
  destruct (Nat.leb_spec n a) as [Hna|Hna].
  - rewrite IH. unfold main.otsu_step, init.
    cbn [main.stopped main.w_b main.sum_b main.var_max main.threshold].
    rewrite Hnth. destruct (Nat.eqb_spec n a) as [->|Hne].
    + destruct (Nat.leb_spec (S a) a); [lia|].
      destruct (Nat.leb_spec (S a) b); [|lia].
      rewrite !Z.add_0_l.
      destruct (Z.eqb_spec ha 0); [lia|].
      destruct (Z.eqb_spec (total - ha) 0); [unfold total in *; lia|].
      fold V.
      assert (Hlt : Qlt_bool (- (1)) V = true).
      { apply Qlt_bool_true. pose proof two_level_V_nonneg. lra. }
      rewrite Hlt. reflexivity.
    + destruct (Nat.eqb_spec n b); [lia|].
      destruct (Nat.leb_spec (S n) a); [|lia]. reflexivity.
  - destruct (Nat.leb_spec (S n) a); [lia|].
    destruct (Nat.leb_spec n b) as [Hnb|Hnb].
    + rewrite IH. unfold main.otsu_step, mid.
      cbn [main.stopped main.w_b main.sum_b main.var_max main.threshold].
      rewrite Hnth. destruct (Nat.eqb_spec n a); [lia|].
      destruct (Nat.eqb_spec n b) as [->|Hne].
      * destruct (Nat.leb_spec (S b) b); [lia|].
        destruct (Z.eqb_spec (ha + hb) 0); [lia|].
        destruct (Z.eqb_spec (total - (ha + hb)) 0); [|unfold total in *; lia].
        cbn. split; reflexivity.
      * destruct (Nat.leb_spec (S n) b); [|lia].
        rewrite Z.mul_0_r, !Z.add_0_r.
        destruct (Z.eqb_spec ha 0); [lia|].
        destruct (Z.eqb_spec (total - ha) 0); [unfold total in *; lia|].
        fold V.
        assert (Hlt : Qlt_bool V V = false).
        { apply Qlt_bool_false. apply Qle_refl. }
        rewrite Hlt. reflexivity.
    + destruct (Nat.leb_spec (S n) b); [lia|].
      destruct IH as [Ht Hs]. unfold main.otsu_step. rewrite Hs.
      split; assumption.
Qed.

Lemma two_level_threshold : main._otsu_threshold hist = Z.of_nat a.
Proof.
  unfold main._otsu_threshold.
  assert (Hlen : length hist = 256%nat)
    by (unfold hist, two_level; now rewrite length_map, length_seq).
  rewrite Hlen. cbn [Nat.ltb Nat.leb].
  assert (Htot : Zsum (firstn 256 hist) = total).
  { rewrite <- Hlen, firstn_all. unfold hist, two_level.
    rewrite (Zsum_indicator _ 256 a b ha hb Hab (fun i => eq_refl)).
    destruct (Nat.ltb_spec a 256); [|lia]. destruct (Nat.ltb_spec b 256); [|lia].
    reflexivity. }
  rewrite Htot.
  destruct (Z.leb_spec total 0); [unfold total in *; lia|].
  assert (Hst : fold_left (fun s i => (s + Z.of_nat i * nth i hist 0)%Z)
                          (seq 0 256) 0%Z = sum_total).
  { rewrite (weighted_total hist 256 a b ha hb Hab).
    - destruct (Nat.ltb_spec a 256); [|lia]. destruct (Nat.ltb_spec b 256); [|lia].
      reflexivity.
    - intros i Hi. now apply two_level_nth. }
  rewrite Hst.
  pose proof (two_level_run 256 (Nat.le_refl _)) as Hrun. cbv zeta in Hrun.
  destruct (Nat.leb_spec 256 a); [lia|]. destruct (Nat.leb_spec 256 b); [lia|].
  apply Hrun.
Qed.

End TwoLevel.

Lemma one_level_two_level (a : nat) (ha : Z) :
  one_level a ha = two_level a 256 ha 0.
Proof.
  unfold one_level, two_level. apply map_ext_in. intros i Hi. apply in_seq in Hi.
  destruct (Nat.eqb_spec i a); [reflexivity|]. now destruct (Nat.eqb_spec i 256).
Qed.

Section OneLevel.
Variables (a : nat) (ha : Z).
Hypothesis Ha : (a < 256)%nat.
Hypothesis Hha : (0 < ha)%Z.

Let hist := one_level a ha.
Let init :=
  {| main.sum_b := 0; main.w_b := 0; main.var_max := - (1);
     main.threshold := 128; main.stopped := false |}.

Lemma one_level_run (sum_total : Z) (n : nat) :
  (n <= 256)%nat ->
  let st := fold_left (main.otsu_step hist ha sum_total) (seq 0 n) init in
  if (n <=? a)%nat then st = init
  else main.threshold st = 128%Z /\ main.stopped st = true.
Proof.
  induction n as [|n IH]; intro Hn; [reflexivity|].
  cbv zeta. rewrite fold_seq_S.
  specialize (IH ltac:(lia)). cbv zeta in IH.
  set (st := fold_left _ (seq 0 n) init) in *.
  assert (Hnth : nth n hist 0%Z = if (n =? a)%nat then ha else 0%Z).
  { unfold hist. rewrite one_level_two_level, two_level_nth by lia.
    destruct (Nat.eqb_spec n a); [reflexivity|].
    destruct (Nat.eqb_spec n 256); [lia|reflexivity]. }
  destruct (Nat.leb_spec n a) as [Hna|Hna].
  - rewrite IH. unfold main.otsu_step, init.
    cbn [main.stopped main.w_b main.sum_b main.var_max main.threshold].
    rewrite Hnth. destruct (Nat.eqb_spec n a) as [->|Hne].
    + destruct (Nat.leb_spec (S a) a); [lia|].
      rewrite !Z.add_0_l.
      destruct (Z.eqb_spec ha 0); [lia|].
      rewrite Z.sub_diag. cbn. split; reflexivity.
    + destruct (Nat.leb_spec (S n) a); [|lia]. reflexivity.
  - destruct (Nat.leb_spec (S n) a); [lia|].
    destruct IH as [Ht Hs]. unfold main.otsu_step. rewrite Hs.
    split; assumption.
Qed.

Lemma one_level_threshold : main._otsu_threshold hist = 128%Z.
Proof.
  unfold main._otsu_threshold.
  assert (Hlen : length hist = 256%nat)
    by (unfold hist, one_level; now rewrite length_map, length_seq).
  rewrite Hlen. cbn [Nat.ltb Nat.leb].
  assert (Htot : Zsum (firstn 256 hist) = ha).
  { rewrite <- Hlen, firstn_all. unfold hist. rewrite one_level_two_level.
    unfold two_level.
    rewrite (Zsum_indicator _ 256 a 256 ha 0 Ha (fun i => eq_refl)).
    destruct (Nat.ltb_spec a 256); [|lia]. cbn. lia. }
  rewrite Htot.
  destruct (Z.leb_spec ha 0); [lia|].
  match goal with
  | |- context [main.otsu_step hist ha ?s] =>
      pose proof (one_level_run s 256 (Nat.le_refl _)) as Hrun
  end.
  cbv zeta in Hrun. destruct (Nat.leb_spec 256 a); [lia|]. apply Hrun.
Qed.

End OneLevel.

(** X27. _otsu_threshold always returns a value between 0 and 255; it returns
    128 for a histogram of fewer than 256 bins and for an image of a
    single grey level; for an image with exactly two grey levels a < b it
    returns the lower level a. *)
Theorem otsu_threshold_levels :
  forall hist : list Z,
    (0 <= main._otsu_threshold hist <= 255)%Z
    /\ ((length hist < 256)%nat -> main._otsu_threshold hist = 128%Z)
    /\ (forall (a : nat) (ha : Z),
          (a < 256)%nat -> (0 < ha)%Z ->
          main._otsu_threshold (one_level a ha) = 128%Z)
    /\ (forall (a b : nat) (ha hb : Z),
          (a < b)%nat -> (b < 256)%nat -> (0 < ha)%Z -> (0 < hb)%Z ->
          main._otsu_threshold (two_level a b ha hb) = Z.of_nat a).
Proof.
  intro hist. split; [apply otsu_threshold_range|]. split; [|split].
  - intro H. unfold main._otsu_threshold.
    destruct (Nat.ltb_spec (length hist) 256); [reflexivity|lia].
  - intros a ha Ha Hha. now apply one_level_threshold.
  - intros a b ha hb Hab Hb Hha Hhb. now apply two_level_threshold.
Qed.

(** ** The deskew step (processor.py, deskew_wrapper.py) *)

Lemma skew_angle_small (L : Lib) (im : image) :
  Qabs (detection.detect_skew_angle L im) <= 10.
Proof.
  unfold detection.detect_skew_angle. cbv zeta.
  destruct (Qlt_bool _ 5); [discriminate|].
  destruct (detection._detect_skew_hough L _ 15) as [angle conf].
  destruct (Qlt_bool conf _); [discriminate|].
  destruct (Qlt_bool 5 (Qabs angle) && Qlt_bool conf _); [discriminate|].
  destruct (Qlt_bool 10 (Qabs angle)) eqn:E; [discriminate|].
  now apply Qlt_bool_false.
Qed.

Lemma skew_angle_low_contrast (L : Lib) (im : image) :
  std L (map inject_Z
           (flatten (fst (detection._resize_for_analysis L
                            (detection._to_gray L im) 1500)))) < 5 ->
  detection.detect_skew_angle L im = 0.
Proof.
  intro H. unfold detection.detect_skew_angle. cbv zeta.
  apply Qlt_bool_true in H. now rewrite H.
Qed.

(** X28. The deskew step of process either leaves the page as it is or rotates
    it by the detected angle, whose absolute value is then at least
    min_skew_angle, at least 0.1 and at most 10 degrees; a page of low
    contrast (standard deviation under 5) is never rotated when
    min_skew_angle is positive; deskew_page without an angle leaves such a
    page unchanged, and deskew_page leaves any page unchanged for an angle
    under 0.1 degrees. *)
Theorem deskew_step_bounded :
  forall (L : Lib) (rotate_on_canvas : image -> Q -> image)
         (min_skew_angle : Q) (page : image),
    let out := processor.deskew_step L rotate_on_canvas min_skew_angle page in
    let contrast :=
      std L (map inject_Z
               (flatten (fst (detection._resize_for_analysis L
                                (detection._to_gray L page) 1500)))) in
    (out = page
     \/ exists a, out = rotate_on_canvas page a
                  /\ min_skew_angle <= Qabs a /\ 1 # 10 <= Qabs a <= 10)
    /\ (contrast < 5 -> 0 < min_skew_angle -> out = page)
    /\ (contrast < 5 ->
        deskew_wrapper.deskew_page L rotate_on_canvas page None = page)
    /\ (forall a, Qabs a < 1 # 10 ->
        deskew_wrapper.deskew_page L rotate_on_canvas page (Some a) = page).
Proof.
  intros L rot min_skew page out contrast. subst out contrast.
  unfold processor.deskew_step, deskew_wrapper.deskew_page. cbv zeta.
  pose proof (skew_angle_small L page) as H10.
  split; [|split; [|split]].
  - destruct (Qle_bool min_skew _) eqn:E1; [|left; reflexivity].
    destruct (Qlt_bool _ (1 # 10)) eqn:E2; [left; reflexivity|].
    right. exists (detection.detect_skew_angle L page). qbool.
    split; [reflexivity|]. split; [exact E1|]. split; assumption.
  - intros Hc Hm. rewrite (skew_angle_low_contrast L page Hc).
    change (Qabs 0) with 0.
    destruct (Qle_bool min_skew 0) eqn:E; qbool; [exfalso; lra|reflexivity].
  - intro Hc. rewrite (skew_angle_low_contrast L page Hc). reflexivity.
  - intros a Ha. apply Qlt_bool_true in Ha. now rewrite Ha.
Qed.

(** ** The crop step after a split (processor.py) *)

Lemma image_window_shape (y1 y2 x1 x2 : Z) (page : image) :
  image_is_rect page ->
  (0 <= y1 < y2)%Z -> (y2 <= fst (shape page))%Z ->
  (0 <= x1 <= x2)%Z -> (x2 <= snd (shape page))%Z ->
  let out := geometry.image_window (Some y1) (Some y2) (Some x1) (Some x2) page in
  shape out = ((y2 - y1)%Z, (x2 - x1)%Z) /\ image_window_of y1 x1 page out.
Proof.
  intros Hr Hy Hy2 Hx Hx2 out. subst out.
  destruct page as [a|a]; cbn [image_is_rect shape fst snd] in *;
    cbn [geometry.image_window shape image_window_of];
    destruct (window_shape y1 y2 x1 x2 a Hr Hy Hy2 Hx Hx2) as (H1 & H2 & H3);
    rewrite H1, H2; split; [reflexivity|exact H3|reflexivity|exact H3].
Qed.

(** X29. The crop step of process on the pages of a split (any number of pages
    other than one) neither drops nor adds a page; every page is either
    kept as it is or replaced by a non-empty window of itself; all windows
    start at the same row and end at the same row or at the page's last
    row; the first page's window reaches the right edge of the page and
    every other page's window starts at the left edge, so the gutter side
    is never cropped. *)
Theorem crop_pages_keeps_gutter_edges :
  forall (L : Lib) (pages : list image) (pad : Z),
    length pages <> 1%nat ->
    Forall image_is_rect pages ->
    let out := processor.crop_pages L pages pad in
    length out = length pages
    /\ exists top bottom : Z,
         forall i : nat, (i < length pages)%nat ->
           let page := nth i pages (Gray []) in
           let o := nth i out (Gray []) in
           o = page
           \/ exists x1 : Z,
                (0 <= top)%Z /\ (0 <= x1)%Z
                /\ image_window_of top x1 page o
                /\ fst (shape o) = (Z.min (fst (shape page)) bottom - top)%Z
                /\ (1 <= fst (shape o))%Z /\ (1 <= snd (shape o))%Z
                /\ (i = 0%nat -> snd (shape o) = (snd (shape page) - x1)%Z)
                /\ (i <> 0%nat -> x1 = 0%Z).
Proof.
  intros L pages pad Hlen Hrect out. subst out.
  assert (E : processor.crop_pages L pages pad
              = let bounds_list := map (detection.detect_content_bounds L) pages in
                let valid_bounds :=
                  flat_map (fun b => match b with Some b => [b] | None => [] end)
                           bounds_list in
                match valid_bounds with
                | [] => pages
                | b0 :: rest =>
                    let y1 := fold_left Z.min (map detection.y rest) (detection.y b0) in
                    let y2 :=
                      fold_left Z.max
                        (map (fun b => (detection.y b + detection.bheight b)%Z) rest)
                        (detection.y b0 + detection.bheight b0)%Z in
                    mapi (fun i page =>
                            match nth i bounds_list None with
                            | None => page
                            | Some b =>
                                let '(ph, pw) := shape page in
                                let y1p := Z.max 0 (y1 - pad) in
                                let y2p := Z.min ph (y2 + pad) in
                                let '(x1, x2) :=
                                  if (i =? 0)%nat
                                  then (Z.max 0 (detection.x b - pad), pw)
                                  else (0%Z,
                                        Z.min pw (detection.x b + detection.bwidth b + pad)) in
                                if (x2 <=? x1)%Z || (y2p <=? y1p)%Z then page
                                else geometry.image_window (Some y1p) (Some y2p)
                                                           (Some x1) (Some x2) page
                            end)
                         pages
                end).
  { destruct pages as [|p [|q t]]; [reflexivity|cbn in Hlen; congruence|reflexivity]. }
  rewrite E. clear E. cbv zeta.
  destruct (flat_map _ _) as [|b0 rest].
  - split; [reflexivity|]. exists 0%Z, 0%Z. intros i Hi. now left.
  - set (y1 := fold_left Z.min (map detection.y rest) (detection.y b0)).
    set (y2 := fold_left Z.max _ _).
    split; [apply mapi_length|].
    exists (Z.max 0 (y1 - pad)), (y2 + pad)%Z.
    intros i Hi. cbv zeta.
    rewrite (mapi_nth _ pages i (Gray []) (Gray [])) by exact Hi.
    assert (Hr : image_is_rect (nth i pages (Gray []))).
    { rewrite Forall_forall in Hrect. apply Hrect. now apply nth_In. }
    set (page := nth i pages (Gray [])) in *.
    destruct (nth i (map (detection.detect_content_bounds L) pages) None) as [b|];
      [|now left].
    destruct (shape page) as [ph pw] eqn:Es.
    assert (Hph : ph = fst (shape page)) by now rewrite Es.
    assert (Hpw : pw = snd (shape page)) by now rewrite Es.
    assert (Hpw0 : (0 <= pw)%Z).
    { rewrite Hpw. apply width_nonneg. }
    destruct (Nat.eqb_spec i 0) as [Hi0|Hi0].
    + destruct ((pw <=? Z.max 0 (detection.x b - pad))%Z
                || (Z.min ph (y2 + pad) <=? Z.max 0 (y1 - pad))%Z) eqn:Eg;
        [now left|].
      apply orb_false_iff in Eg. destruct Eg as [Eg1 Eg2].
      apply Z.leb_gt in Eg1. apply Z.leb_gt in Eg2.
      right. exists (Z.max 0 (detection.x b - pad)).
      destruct (image_window_shape (Z.max 0 (y1 - pad)) (Z.min ph (y2 + pad))
                  (Z.max 0 (detection.x b - pad)) pw page Hr) as [Hs Hw];
        try (cbn [fst snd]; lia).
      rewrite Hs. cbn [fst snd].
      repeat split; try lia; exact Hw.
    + destruct ((Z.min pw (detection.x b + detection.bwidth b + pad) <=? 0)%Z
                || (Z.min ph (y2 + pad) <=? Z.max 0 (y1 - pad))%Z) eqn:Eg;
        [now left|].
      apply orb_false_iff in Eg. destruct Eg as [Eg1 Eg2].
      apply Z.leb_gt in Eg1. apply Z.leb_gt in Eg2.
      right. exists 0%Z.
      destruct (image_window_shape (Z.max 0 (y1 - pad)) (Z.min ph (y2 + pad))
                  0 (Z.min pw (detection.x b + detection.bwidth b + pad)) page Hr)
        as [Hs Hw]; try (cbn [fst snd]; lia).
      rewrite Hs. cbn [fst snd].
      repeat split; try lia; exact Hw.
Qed.

Lemma crop_pages_keeps_gutter_edges_witness :
  processor.crop_pages ref_lib [framed_block; framed_block] 0
  = [Gray [[0; 0; 0; 0; 255]; [0; 0; 0; 0; 255];
           [0; 0; 0; 0; 255]; [0; 0; 0; 0; 255]];
     Gray [[255; 0; 0; 0; 0]; [255; 0; 0; 0; 0];
           [255; 0; 0; 0; 0]; [255; 0; 0; 0; 0]]]%Z
  /\ length (processor.crop_pages ref_lib [framed_block; framed_block] 0) = 2%nat.
Proof.
  split; [reflexivity|].
  assert (Hl : length [framed_block; framed_block] <> 1%nat) by (cbn; lia).
  assert (Hr : Forall image_is_rect [framed_block; framed_block])
    by (repeat constructor).
  exact (proj1 (crop_pages_keeps_gutter_edges ref_lib
                  [framed_block; framed_block] 0 Hl Hr)).
Defined.
